(** * HelpingAI JavaScript SDK: streaming pipeline and error classifier

    A shallow embedding of [src/client.ts] (class [BaseClient] and class
    [ChatCompletions]) and of [src/errors.ts], with the properties of the
    streaming response pipeline stated and proved over it.

    Conventions of the embedding.
    - A JavaScript string is a [string]: a sequence of code units, here
      the 8-bit ones.  [s1 +:+ s2] is concatenation.
    - [undefined] and [null] in an optional field are [None].
    - A generator is the list of the values it yields, together with the
      way it ends where that matters.
    - A [while] loop is a [Fixpoint] on a fuel argument running the loop
      body; the fuel given is the length of the text still to scan, and
      every iteration consumes at least one code unit. *)

From Stdlib Require Import ZArith List String Ascii Lia Bool.
From stdpp Require Import base option gmap strings list pretty.

Open Scope string_scope.
Open Scope list_scope.

(** ** JavaScript strings *)

(** [s.startsWith(t)] *)
Fixpoint startsWith (s t : string) {struct t} : bool :=
  match t with
  | EmptyString => true
  | String c t' =>
      match s with
      | EmptyString => false
      | String d s' => if Ascii.eqb d c then startsWith s' t' else false
      end
  end.

(** [s.slice(n)] for a non-negative [n] *)
Fixpoint slice (n : nat) (s : string) : string :=
  match n with
  | O => s
  | S n' =>
      match s with
      | EmptyString => EmptyString
      | String _ s' => slice n' s'
      end
  end.

(** [s.includes(t)] *)
Fixpoint includes (s t : string) {struct s} : bool :=
  startsWith s t ||
  match s with
  | EmptyString => false
  | String _ s' => includes s' t
  end.

Definition newline : ascii := "010"%char.
Definition space : ascii := " "%char.
Definition quote : ascii := "'"%char.
Definition hyphen : ascii := "-"%char.

(** The class [\s] of a regular expression, which is also what [trim]
    strips: tab, line feed, vertical tab, form feed, carriage return,
    space and no-break space. *)
Definition isWhiteSpace (c : ascii) : bool :=
  let n := nat_of_ascii c in
  (((9 <=? n) && (n <=? 13)) || (n =? 32) || (n =? 160))%nat.

(** The class [\w]: ASCII letters, digits and underscore. *)
Definition isWordChar (c : ascii) : bool :=
  let n := nat_of_ascii c in
  (((48 <=? n) && (n <=? 57)) || ((65 <=? n) && (n <=? 90))
   || ((97 <=? n) && (n <=? 122)) || (n =? 95))%nat.

Definition isDigit (c : ascii) : bool :=
  let n := nat_of_ascii c in ((48 <=? n) && (n <=? 57))%nat.

(** A string as a condition: the empty string is false. *)
Definition truthy (s : string) : bool :=
  match s with
  | EmptyString => false
  | String _ _ => true
  end.

(** An optional string as a condition. *)
Definition truthy_opt (o : option string) : bool :=
  match o with
  | Some s => truthy s
  | None => false
  end.

Fixpoint trimStart (s : string) : string :=
  match s with
  | EmptyString => EmptyString
  | String c s' => if isWhiteSpace c then trimStart s' else s
  end.

Fixpoint trimEnd (s : string) : string :=
  match s with
  | EmptyString => EmptyString
  | String c s' =>
      match trimEnd s' with
      | EmptyString => if isWhiteSpace c then EmptyString else String c EmptyString
      | t => String c t
      end
  end.

(** [s.trim()] *)
Definition trim (s : string) : string := trimEnd (trimStart s).

(** [s.split('\n')]: never empty, the pieces hold no line feed. *)
Fixpoint split_lines (s : string) : list string :=
  match s with
  | EmptyString => [EmptyString]
  | String c s' =>
      if Ascii.eqb c newline then EmptyString :: split_lines s'
      else
        match split_lines s' with
        | [] => [String c EmptyString]
        | l :: ls => String c l :: ls
        end
  end.

(** [s.toLowerCase()] on the letters A to Z and on the Latin-1 capitals;
    every other code unit is kept. *)
Definition lowerChar (c : ascii) : ascii :=
  let n := nat_of_ascii c in
  if (((65 <=? n) && (n <=? 90))
      || ((192 <=? n) && (n <=? 222) && negb (n =? 215)))%nat
  then ascii_of_nat (n + 32) else c.

Fixpoint toLowerCase (s : string) : string :=
  match s with
  | EmptyString => EmptyString
  | String c s' => String (lowerChar c) (toLowerCase s')
  end.

(** Concatenation of a list of strings. *)
Fixpoint join_all (l : list string) : string :=
  match l with
  | [] => EmptyString
  | s :: l' => s +:+ join_all l'
  end.

(** ** Values decoded from JSON

    What [JSON.parse] returns.  Numbers are the integers; an object is
    the list of its fields in the order of the text. *)
#[warnings="-register-all"]
Inductive JSON : Type :=
  | JNull
  | JBool (b : bool)
  | JNum (n : Z)
  | JStr (s : string)
  | JArr (items : list JSON)
  | JObj (fields : list (string * JSON)).

(** ** Reading a decoded value *)

(** A value as a condition. *)
Definition js_truthy (v : option JSON) : bool :=
  match v with
  | None => false
  | Some JNull => false
  | Some (JBool b) => b
  | Some (JNum n) => negb (n =? 0)%Z
  | Some (JStr s) => truthy s
  | Some (JArr _) => true
  | Some (JObj _) => true
  end.

(** [v || d] *)
Definition or_value (v : option JSON) (d : JSON) : JSON :=
  if js_truthy v then default d v else d.

(** The field [k] of an object; a key written twice keeps its last
    value. *)
Fixpoint lookup_field (k : string) (fields : list (string * JSON))
  : option JSON :=
  match fields with
  | [] => None
  | (k', v) :: fields' =>
      match lookup_field k fields' with
      | Some w => Some w
      | None => if String.eqb k k' then Some v else None
      end
  end.

(** [v.k] for the keys read here, none of which a string, a number, a
    boolean or an array has.  The outer [None] is the [TypeError] of
    reading a property of [undefined] or [null]. *)
Definition get_prop (v : option JSON) (k : string) : option (option JSON) :=
  match v with
  | None => None
  | Some JNull => None
  | Some (JObj fields) => Some (lookup_field k fields)
  | Some _ => Some None
  end.

(** ** The types of [src/types.ts] *)

Record FunctionCall := {
  fc_name : string;
  fc_arguments : string
}.

Record ToolFunction := {
  tf_name : string;
  tf_arguments : string
}.

Record ToolCall := {
  tc_id : string;
  tc_type : string;
  tc_function : ToolFunction
}.

Record CompletionUsage := {
  completion_tokens : Z;
  prompt_tokens : Z;
  total_tokens : Z;
  prompt_tokens_details : option JSON
}.

Record ChoiceDelta := {
  d_content : option string;
  d_function_call : option FunctionCall;
  d_role : option string;
  d_tool_calls : option (list ToolCall)
}.

Record ChatCompletionMessage := {
  m_role : string;
  m_content : option string;
  m_function_call : option FunctionCall;
  m_tool_calls : option (list ToolCall)
}.

Record Choice := {
  index : Z;
  message : option ChatCompletionMessage;
  delta : option ChoiceDelta;
  finish_reason : option string;
  logprobs : option JSON
}.

Record ChatCompletion := {
  id : string;
  created : Z;
  model : string;
  choices : list Choice;
  object : string;
  system_fingerprint : option string;
  usage : option CompletionUsage
}.

Record ChatCompletionChunk := {
  k_id : string;
  k_created : Z;
  k_model : string;
  k_choices : list Choice;
  k_object : string;
  k_system_fingerprint : option string
}.

(** ** [ChatCompletions.createFilteredStreamGenerator]

    The variables the generator keeps for the whole stream: the object
    [state] with its two flags, and the locals [buffer],
    [consecutiveNewlines], [lastCharWasSpace] and [streamStarted]. *)
Record StreamingState := {
  isReasoning : bool;
  isSer : bool
}.

Record FilterVars := {
  state : StreamingState;
  buffer : string;
  consecutiveNewlines : nat;
  lastCharWasSpace : bool;
  streamStarted : bool
}.

Definition initialVars : FilterVars :=
  {| state := {| isReasoning := false; isSer := false |};
     buffer := EmptyString;
     consecutiveNewlines := 0;
     lastCharWasSpace := false;
     streamStarted := false |}.

Definition set_isReasoning (b : bool) (v : FilterVars) : FilterVars :=
  {| state := {| isReasoning := b; isSer := isSer (state v) |};
     buffer := buffer v;
     consecutiveNewlines := consecutiveNewlines v;
     lastCharWasSpace := lastCharWasSpace v;
     streamStarted := streamStarted v |}.

Definition set_isSer (b : bool) (v : FilterVars) : FilterVars :=
  {| state := {| isReasoning := isReasoning (state v); isSer := b |};
     buffer := buffer v;
     consecutiveNewlines := consecutiveNewlines v;
     lastCharWasSpace := lastCharWasSpace v;
     streamStarted := streamStarted v |}.

Definition set_buffer (b : string) (v : FilterVars) : FilterVars :=
  {| state := state v;
     buffer := b;
     consecutiveNewlines := consecutiveNewlines v;
     lastCharWasSpace := lastCharWasSpace v;
     streamStarted := streamStarted v |}.

Definition set_consecutiveNewlines (n : nat) (v : FilterVars) : FilterVars :=
  {| state := state v;
     buffer := buffer v;
     consecutiveNewlines := n;
     lastCharWasSpace := lastCharWasSpace v;
     streamStarted := streamStarted v |}.

Definition set_lastCharWasSpace (b : bool) (v : FilterVars) : FilterVars :=
  {| state := state v;
     buffer := buffer v;
     consecutiveNewlines := consecutiveNewlines v;
     lastCharWasSpace := b;
     streamStarted := streamStarted v |}.

Definition set_streamStarted (b : bool) (v : FilterVars) : FilterVars :=
  {| state := state v;
     buffer := buffer v;
     consecutiveNewlines := consecutiveNewlines v;
     lastCharWasSpace := lastCharWasSpace v;
     streamStarted := b |}.

(** One iteration of the [while (processedLen < buffer.length)] loop.
    [remaining] is [buffer.slice(processedLen)], so that advancing
    [processedLen] by [n] is [slice n remaining]; [buffer] itself is only
    assigned after the loop. *)
Inductive Iteration : Type :=
  | Break
  | Continue (v : FilterVars) (remaining outputContent : string).

Definition loop_body (v : FilterVars) (remaining outputContent : string)
  : Iteration :=
  if isReasoning (state v) then
    if startsWith remaining "</think>" then
      Continue (set_lastCharWasSpace true (set_isReasoning false v))
               (slice 8 remaining) outputContent
    else if startsWith "</think>" remaining then Break
    else Continue v (slice 1 remaining) outputContent
  else if isSer (state v) then
    if startsWith remaining "</ser>" then
      Continue (set_lastCharWasSpace true (set_isSer false v))
               (slice 6 remaining) outputContent
    else if startsWith "</ser>" remaining then Break
    else Continue v (slice 1 remaining) outputContent
  else if startsWith remaining "<think>" then
    Continue (set_isReasoning true v) (slice 7 remaining) outputContent
  else if startsWith remaining "<ser>" then
    Continue (set_isSer true v) (slice 5 remaining) outputContent
  else if startsWith "<think>" remaining || startsWith "<ser>" remaining then
    Break
  else
    match remaining with
    | EmptyString => Break
    | String char _ =>
        if negb (streamStarted v) && isWhiteSpace char then
          Continue v (slice 1 remaining) outputContent
        else
          let v := set_streamStarted true v in
          if Ascii.eqb char newline then
            let v := set_consecutiveNewlines (S (consecutiveNewlines v)) v in
            let outputContent :=
              if (consecutiveNewlines v <=? 2)%nat
              then outputContent +:+ String char EmptyString
              else outputContent in
            Continue (set_lastCharWasSpace false v)
                     (slice 1 remaining) outputContent
          else if isWhiteSpace char then
            let outputContent :=
              if negb (lastCharWasSpace v)
              then outputContent +:+ " "
              else outputContent in
            Continue (set_lastCharWasSpace true v)
                     (slice 1 remaining) outputContent
          else
            Continue (set_lastCharWasSpace false (set_consecutiveNewlines 0 v))
                     (slice 1 remaining)
                     (outputContent +:+ String char EmptyString)
    end.

(** The loop.  It stops when nothing remains or when the body breaks. *)
Fixpoint while_loop (fuel : nat) (v : FilterVars)
    (remaining outputContent : string) : FilterVars * string * string :=
  match fuel with
  | O => (v, remaining, outputContent)
  | S fuel' =>
      match remaining with
      | EmptyString => (v, remaining, outputContent)
      | String _ _ =>
          match loop_body v remaining outputContent with
          | Break => (v, remaining, outputContent)
          | Continue v' remaining' outputContent' =>
              while_loop fuel' v' remaining' outputContent'
          end
      end
  end.

(** What the generator does with one text fragment: append it to
    [buffer], scan, keep the unscanned rest in [buffer].  The result is
    the variables afterwards and [outputContent]. *)
Definition process_fragment (v : FilterVars) (content : string)
  : FilterVars * string :=
  let buffer := buffer v +:+ content in
  let '(v', remaining, outputContent) :=
    while_loop (String.length buffer) v buffer EmptyString in
  (set_buffer remaining v', outputContent).

(** The loop with the fuel [process_fragment] gives it. *)
Definition scan (v : FilterVars) (r out : string) : FilterVars * string * string :=
  while_loop (String.length r) v r out.

(** The body of [for (const choice of chunk.choices)]: the variables
    afterwards and the choice pushed on [newChoices], if one is. *)
Definition filter_choice (v : FilterVars) (choice : Choice)
  : FilterVars * option Choice :=
  match delta choice with
  | Some d =>
      if truthy_opt (d_content d) then
        let '(v', outputContent) :=
          process_fragment v (default EmptyString (d_content d)) in
        if truthy outputContent then
          (v', Some {| index := index choice;
                       message := None;
                       delta := Some {| d_content := Some outputContent;
                                        d_role := d_role d;
                                        d_function_call := d_function_call d;
                                        d_tool_calls := d_tool_calls d |};
                       finish_reason := finish_reason choice;
                       logprobs := logprobs choice |})
        else if truthy_opt (finish_reason choice) then
          (v', Some {| index := index choice;
                       message := None;
                       delta := Some {| d_content := None;
                                        d_role := d_role d;
                                        d_function_call := d_function_call d;
                                        d_tool_calls := d_tool_calls d |};
                       finish_reason := finish_reason choice;
                       logprobs := logprobs choice |})
        else (v', None)
      else (v, Some choice)
  | None => (v, Some choice)
  end.

(** The whole [for] over the choices of one chunk: [newChoices] in the
    order pushed.  [shouldYieldChunk] is set exactly when a choice is
    pushed, so it is [newChoices] being non-empty. *)
Fixpoint filter_choices (v : FilterVars) (cs : list Choice)
  : FilterVars * list Choice :=
  match cs with
  | [] => (v, [])
  | choice :: cs' =>
      let '(v1, pushed) := filter_choice v choice in
      let '(v2, newChoices) := filter_choices v1 cs' in
      (v2, match pushed with
           | Some c => c :: newChoices
           | None => newChoices
           end)
  end.

Definition shouldYieldChunk (newChoices : list Choice) : bool :=
  match newChoices with
  | [] => false
  | _ :: _ => true
  end.

(** The body of [for await (const chunk of streamIterable)]. *)
Definition filter_chunk (v : FilterVars) (chunk : ChatCompletionChunk)
  : FilterVars * option ChatCompletionChunk :=
  let '(v', newChoices) := filter_choices v (k_choices chunk) in
  (v', if shouldYieldChunk newChoices
       then Some {| k_id := k_id chunk;
                    k_created := k_created chunk;
                    k_model := k_model chunk;
                    k_choices := newChoices;
                    k_object := k_object chunk;
                    k_system_fingerprint := k_system_fingerprint chunk |}
       else None).

(** The generator from given variables: the chunks it yields, in order. *)
Fixpoint filtered_from (v : FilterVars) (stream : list ChatCompletionChunk)
  : list ChatCompletionChunk :=
  match stream with
  | [] => []
  | chunk :: stream' =>
      let '(v', yielded) := filter_chunk v chunk in
      match yielded with
      | Some c => c :: filtered_from v' stream'
      | None => filtered_from v' stream'
      end
  end.

Definition createFilteredStreamGenerator (streamIterable : list ChatCompletionChunk)
  : list ChatCompletionChunk :=
  filtered_from initialVars streamIterable.

(** The text a consumer reads off a stream: the [delta.content] of every
    choice of every chunk, in order. *)
Definition choice_text (c : Choice) : string :=
  match delta c with
  | Some d => default EmptyString (d_content d)
  | None => EmptyString
  end.

Definition chunk_text (k : ChatCompletionChunk) : string :=
  join_all (map choice_text (k_choices k)).

Definition stream_text (stream : list ChatCompletionChunk) : string :=
  join_all (map chunk_text stream).

(** The output of the filter over a list of fragments, as the generator
    hands them to [process_fragment]: an empty fragment is not handed
    over.  [vars_after] is the variables at the end. *)
Fixpoint outputs (v : FilterVars) (fragments : list string) : string :=
  match fragments with
  | [] => EmptyString
  | f :: fragments' =>
      if truthy f then
        let '(v', o) := process_fragment v f in o +:+ outputs v' fragments'
      else outputs v fragments'
  end.

Fixpoint vars_after (v : FilterVars) (fragments : list string) : FilterVars :=
  match fragments with
  | [] => v
  | f :: fragments' =>
      if truthy f then vars_after (fst (process_fragment v f)) fragments'
      else vars_after v fragments'
  end.

(** The fragments of a stream, in the order the generator meets them. *)
Definition fragments_of (stream : list ChatCompletionChunk) : list string :=
  flat_map (fun k => map choice_text (k_choices k)) stream.

(** The text a consumer reads for the choice index [i]. *)
Definition choice_text_at (i : Z) (c : Choice) : string :=
  if (index c =? i)%Z then choice_text c else EmptyString.

Definition stream_text_at (i : Z) (stream : list ChatCompletionChunk) : string :=
  join_all (map (fun k => join_all (map (choice_text_at i) (k_choices k))) stream).

(** The stream cut down to the choices that carry the index [i]. *)
Definition only_index (i : Z) (stream : list ChatCompletionChunk)
  : list ChatCompletionChunk :=
  map (fun k => {| k_id := k_id k;
                   k_created := k_created k;
                   k_model := k_model k;
                   k_choices := filter (fun c => index c = i) (k_choices k);
                   k_object := k_object k;
                   k_system_fingerprint := k_system_fingerprint k |})
      stream.

(** The stream with every choice index [i] renamed to [f i]. *)
Definition reindex_choice (f : Z -> Z) (c : Choice) : Choice :=
  {| index := f (index c);
     message := message c;
     delta := delta c;
     finish_reason := finish_reason c;
     logprobs := logprobs c |}.

Definition reindex (f : Z -> Z) (k : ChatCompletionChunk) : ChatCompletionChunk :=
  {| k_id := k_id k;
     k_created := k_created k;
     k_model := k_model k;
     k_choices := map (reindex_choice f) (k_choices k);
     k_object := k_object k;
     k_system_fingerprint := k_system_fingerprint k |}.

(** The choice the generator pushes in place of a text-bearing [choice]:
    [content] is the filtered text, or [None] when that is empty. *)
Definition re_emitted (choice : Choice) (content : option string) : Choice :=
  {| index := index choice;
     message := None;
     delta := match delta choice with
              | Some d => Some {| d_content := content;
                                  d_function_call := d_function_call d;
                                  d_role := d_role d;
                                  d_tool_calls := d_tool_calls d |}
              | None => None
              end;
     finish_reason := finish_reason choice;
     logprobs := logprobs choice |}.

(** [{ ...chunk, choices }] *)
Definition with_choices (chunk : ChatCompletionChunk) (choices : list Choice)
  : ChatCompletionChunk :=
  {| k_id := k_id chunk;
     k_created := k_created chunk;
     k_model := k_model chunk;
     k_choices := choices;
     k_object := k_object chunk;
     k_system_fingerprint := k_system_fingerprint chunk |}.

(** The emission policy for one choice, met when the variables are [v]:
    a choice that bears text is re-emitted with its filtered text when
    that is not empty, re-emitted without text when it has a finish
    reason, and dropped otherwise; a choice that bears no text is kept
    as it is. *)
Definition kept_choice (v : FilterVars) (c : Choice) : option Choice :=
  if truthy (choice_text c) then
    let filtered := snd (process_fragment v (choice_text c)) in
    if truthy filtered then Some (re_emitted c (Some filtered))
    else if truthy_opt (finish_reason c) then Some (re_emitted c None)
    else None
  else Some c.

(** The policy over the choices of one chunk, in their order; each
    choice is met with the variables the choices before it have left. *)
Fixpoint kept_choices (v : FilterVars) (cs : list Choice) : list Choice :=
  match cs with
  | [] => []
  | c :: cs' =>
      match kept_choice v c with
      | Some c' => c' :: kept_choices (vars_after v [choice_text c]) cs'
      | None => kept_choices (vars_after v [choice_text c]) cs'
      end
  end.

(** A choice without a delta. *)
Definition bare_choice (i : Z) : Choice :=
  {| index := i;
     message := None;
     delta := None;
     finish_reason := None;
     logprobs := None |}.

(** A chunk with one choice that carries the text fragment [s]. *)
Definition text_choice (i : Z) (s : string) : Choice :=
  {| index := i;
     message := None;
     delta := Some {| d_content := Some s;
                      d_function_call := None;
                      d_role := None;
                      d_tool_calls := None |};
     finish_reason := None;
     logprobs := None |}.

Definition text_chunk (i : Z) (s : string) : ChatCompletionChunk :=
  {| k_id := "chatcmpl";
     k_created := 0;
     k_model := "m";
     k_choices := [text_choice i s];
     k_object := "chat.completion.chunk";
     k_system_fingerprint := None |}.

(** ** [ChatCompletions.filterThinkSerBlocks]

    [s.replace(re, ...)] with a global regular expression [re] that
    matches no empty text.  [matcher s] is the match of [re] at the very
    start of [s], if there is one: the text put in its place and what
    follows the match.  The search tries every position from left to
    right and goes on after a match. *)
Fixpoint replace_all (matcher : string -> option (string * string))
    (fuel : nat) (s : string) : string :=
  match fuel with
  | O => s
  | S fuel' =>
      match s with
      | EmptyString => EmptyString
      | String c s' =>
          match matcher s with
          | Some (replacement, rest) =>
              replacement +:+ replace_all matcher fuel' rest
          | None => String c (replace_all matcher fuel' s')
          end
      end
  end.

Definition replace (matcher : string -> option (string * string))
    (s : string) : string :=
  replace_all matcher (String.length s) s.

(** What follows the first occurrence of [t] in [s]. *)
Fixpoint after_first (s t : string) {struct s} : option string :=
  if startsWith s t then Some (slice (String.length t) s)
  else
    match s with
    | EmptyString => None
    | String _ s' => after_first s' t
    end.

(** [/<think>[\s\S]*?<\/think>/] and [/<ser>[\s\S]*?<\/ser>/], replaced
    by the empty string: an open tag up to the first close tag after it. *)
Definition match_block (open close : string) (s : string)
  : option (string * string) :=
  if startsWith s open then
    match after_first (slice (String.length open) s) close with
    | Some rest => Some (EmptyString, rest)
    | None => None
    end
  else None.

(** The longest run of white space at the start of [s], and the rest. *)
Fixpoint span_space (s : string) : string * string :=
  match s with
  | EmptyString => (EmptyString, EmptyString)
  | String c s' =>
      if isWhiteSpace c then
        let '(run, rest) := span_space s' in (String c run, rest)
      else (EmptyString, s)
  end.

Fixpoint has_newline (s : string) : bool :=
  match s with
  | EmptyString => false
  | String c s' => Ascii.eqb c newline || has_newline s'
  end.

(** [/(\w)-\s*\n\s*(\w)/] replaced by ['$1$2']: a word character, a
    hyphen, white space with a line feed in it, a word character.  The
    white space matched is the whole run, as a word character must follow
    it. *)
Definition match_broken_word (s : string) : option (string * string) :=
  match s with
  | String w1 (String h s') =>
      if isWordChar w1 && Ascii.eqb h hyphen then
        let '(run, rest) := span_space s' in
        if has_newline run then
          match rest with
          | String w2 rest' =>
              if isWordChar w2
              then Some (String w1 (String w2 EmptyString), rest')
              else None
          | EmptyString => None
          end
        else None
      else None
  | _ => None
  end.

(** The longest run of the character [c] at the start of [s]: its length
    and the rest. *)
Fixpoint span_char (c : ascii) (s : string) : nat * string :=
  match s with
  | EmptyString => (0, EmptyString)
  | String d s' =>
      if Ascii.eqb d c then
        let '(n, rest) := span_char c s' in (S n, rest)
      else (0, s)
  end.

(** [/\n{3,}/] replaced by two line feeds. *)
Definition match_newlines (s : string) : option (string * string) :=
  let '(n, rest) := span_char newline s in
  if (3 <=? n)%nat
  then Some (String newline (String newline EmptyString), rest)
  else None.

(** [/ {2,}/] replaced by one space. *)
Definition match_spaces (s : string) : option (string * string) :=
  let '(n, rest) := span_char space s in
  if (2 <=? n)%nat then Some (String space EmptyString, rest) else None.

Definition filterThinkSerBlocks (text : option string) : option string :=
  if negb (truthy_opt text) then text
  else
    let result := default EmptyString text in
    let result := replace (match_block "<think>" "</think>") result in
    let result := replace (match_block "<ser>" "</ser>") result in
    let result := replace match_broken_word result in
    let result := replace match_newlines result in
    let result := replace match_spaces result in
    let result := trim result in
    Some result.

(** ** [ChatCompletions.filterCompletion] *)
Definition filterCompletion_choice (choice : Choice) : Choice :=
  match message choice with
  | Some m =>
      if truthy_opt (m_content m) then
        let filteredContent := filterThinkSerBlocks (m_content m) in
        {| index := index choice;
           message := Some {| m_role := m_role m;
                              m_content := filteredContent;
                              m_function_call := m_function_call m;
                              m_tool_calls := m_tool_calls m |};
           delta := delta choice;
           finish_reason := finish_reason choice;
           logprobs := logprobs choice |}
      else choice
  | None => choice
  end.

Definition filterCompletion (completion : ChatCompletion) : ChatCompletion :=
  let filteredChoices := map filterCompletion_choice (choices completion) in
  {| id := id completion;
     created := created completion;
     model := model completion;
     choices := filteredChoices;
     object := object completion;
     system_fingerprint := system_fingerprint completion;
     usage := usage completion |}.

(** ** The error classes of [src/errors.ts] *)

Inductive ErrorClass : Type :=
  | HAIError
  | AuthenticationError
  | NoAPIKeyError
  | InvalidAPIKeyError
  | PermissionDeniedError
  | InvalidRequestError
  | InvalidModelError
  | RateLimitError
  | TooManyRequestsError
  | ServiceUnavailableError
  | TimeoutError
  | APIConnectionError
  | APIError
  | ServerError
  | ContentFilterError
  | TokenLimitError
  | InvalidContentError.

(** [class C extends D] *)
Definition extends (c : ErrorClass) : option ErrorClass :=
  match c with
  | HAIError => None
  | AuthenticationError => Some HAIError
  | NoAPIKeyError => Some AuthenticationError
  | InvalidAPIKeyError => Some AuthenticationError
  | PermissionDeniedError => Some AuthenticationError
  | InvalidRequestError => Some HAIError
  | InvalidModelError => Some InvalidRequestError
  | RateLimitError => Some HAIError
  | TooManyRequestsError => Some RateLimitError
  | ServiceUnavailableError => Some HAIError
  | TimeoutError => Some HAIError
  | APIConnectionError => Some HAIError
  | APIError => Some HAIError
  | ServerError => Some APIError
  | ContentFilterError => Some InvalidRequestError
  | TokenLimitError => Some InvalidRequestError
  | InvalidContentError => Some InvalidRequestError
  end.

#[global] Instance ErrorClass_eq_dec : EqDecision ErrorClass.
Proof. solve_decision. Defined.

(** [e instanceof target] for an object built by class [c]; no chain of
    [extends] is longer than two. *)
Fixpoint instanceof_upto (depth : nat) (c target : ErrorClass) : bool :=
  bool_decide (c = target) ||
  match depth with
  | O => false
  | S depth' =>
      match extends c with
      | Some parent => instanceof_upto depth' parent target
      | None => false
      end
  end.

Definition instanceof (c target : ErrorClass) : bool :=
  instanceof_upto 2 c target.

(** A number as [parseInt] returns it: [NaN]; negative zero; an integer
    of a magnitude up to 2^53, which a double holds as it is; or, for a
    larger integer [z], the double [parseInt] gives for it, which need not
    be [z] and beyond twenty digits is left to the engine. *)
Inductive JSNumber : Type :=
  | NaN
  | NegativeZero
  | Num (z : Z)
  | Inexact (z : Z).

(** An error object: the class it was built with and the fields the
    constructors assign.  A field no constructor of the class assigns is
    [None].  [headers] holds the own properties of the object assigned.
    [code] and [type] are declared strings, but [APIError] is handed what
    the body of the response held, so they are decoded values here. *)
Record ErrorObject := {
  class : ErrorClass;
  name : string;
  e_message : string;
  statusCode : option Z;
  headers : option (gmap string string);
  param : option string;
  code : option JSON;
  type : option JSON;
  retryAfter : option JSNumber;
  shouldRetry : option bool
}.

(** The constructors.  Each calls [super], which assigns [message],
    [statusCode] and [headers], and then assigns [this.name] and the
    fields of its own. *)
Definition new_HAIError (message : string) (statusCode : option Z)
    (headers : option (gmap string string)) : ErrorObject :=
  {| class := HAIError;
     name := "HAIError";
     e_message := message;
     statusCode := statusCode;
     headers := headers;
     param := None;
     code := None;
     type := None;
     retryAfter := None;
     shouldRetry := None |}.

Definition with_class (c : ErrorClass) (n : string) (e : ErrorObject)
  : ErrorObject :=
  {| class := c;
     name := n;
     e_message := e_message e;
     statusCode := statusCode e;
     headers := headers e;
     param := param e;
     code := code e;
     type := type e;
     retryAfter := retryAfter e;
     shouldRetry := shouldRetry e |}.

Definition new_AuthenticationError (message : string) (statusCode : option Z)
    (headers : option (gmap string string)) : ErrorObject :=
  with_class AuthenticationError "AuthenticationError"
    (new_HAIError message statusCode headers).

Definition new_InvalidAPIKeyError (statusCode : option Z)
    (headers : option (gmap string string)) : ErrorObject :=
  with_class InvalidAPIKeyError "InvalidAPIKeyError"
    (new_AuthenticationError
       "Invalid API key. Check your API key at https://helpingai.co/dashboard"
       statusCode headers).

Definition new_InvalidRequestError (message : string)
    (param : option string) (code : option JSON) (statusCode : option Z)
    (headers : option (gmap string string)) : ErrorObject :=
  {| class := InvalidRequestError;
     name := "InvalidRequestError";
     e_message := message;
     statusCode := statusCode;
     headers := headers;
     param := param;
     code := code;
     type := None;
     retryAfter := None;
     shouldRetry := None |}.

Definition new_InvalidModelError (model : string) (statusCode : option Z)
    (headers : option (gmap string string)) : ErrorObject :=
  with_class InvalidModelError "InvalidModelError"
    (new_InvalidRequestError
       ("Model '" +:+ model +:+ "' not found. Available models can be found at "
        +:+ "https://api.helpingai.co/v1/models")
       (Some "model") None statusCode headers).

(** [parseInt(s, 10)]: white space is skipped, a sign is read, then the
    longest run of decimal digits; without a digit the result is [NaN]. *)
Fixpoint digits_value (acc : Z) (s : string) : Z :=
  match s with
  | EmptyString => acc
  | String c s' =>
      if isDigit c
      then digits_value (10 * acc + (Z.of_nat (nat_of_ascii c) - 48)) s'
      else acc
  end.

(** The number with the sign [sign] and the magnitude [mathInt]. *)
Definition number_of (sign mathInt : Z) : JSNumber :=
  if (mathInt =? 0)%Z then
    if (sign =? -1)%Z then NegativeZero else Num 0
  else if (mathInt <=? 2 ^ 53)%Z then Num (sign * mathInt)
  else Inexact (sign * mathInt).

Definition parseInt (s : string) : JSNumber :=
  let s := trimStart s in
  let '(sign, s) :=
    match s with
    | String "-" s' => ((-1)%Z, s')
    | String "+" s' => (1%Z, s')
    | _ => (1%Z, s)
    end in
  match s with
  | String c _ => if isDigit c then number_of sign (digits_value 0 s) else NaN
  | EmptyString => NaN
  end.

(** [RateLimitError.getRetryAfterFromHeaders].  [parseInt] throws
    nothing, so the [catch] branch is never taken. *)
Definition getRetryAfterFromHeaders (headers : option (gmap string string))
  : option JSNumber :=
  match headers with
  | Some h =>
      match h !! "retry-after" with
      | Some value => Some (parseInt value)
      | None => None
      end
  | None => None
  end.

Definition new_RateLimitError (message : string) (statusCode : option Z)
    (headers : option (gmap string string)) : ErrorObject :=
  {| class := RateLimitError;
     name := "RateLimitError";
     e_message := message;
     statusCode := statusCode;
     headers := headers;
     param := None;
     code := None;
     type := None;
     retryAfter := getRetryAfterFromHeaders headers;
     shouldRetry := None |}.

Definition new_TooManyRequestsError (statusCode : option Z)
    (headers : option (gmap string string)) : ErrorObject :=
  with_class TooManyRequestsError "TooManyRequestsError"
    (new_RateLimitError "Too many requests" statusCode headers).

Definition new_ServiceUnavailableError (statusCode : option Z)
    (headers : option (gmap string string)) : ErrorObject :=
  with_class ServiceUnavailableError "ServiceUnavailableError"
    (new_HAIError "Service temporarily unavailable" statusCode headers).

Definition new_APIError (message : string) (code type : option JSON)
    (statusCode : option Z) (headers : option (gmap string string))
  : ErrorObject :=
  {| class := APIError;
     name := "APIError";
     e_message := message;
     statusCode := statusCode;
     headers := headers;
     param := None;
     code := code;
     type := type;
     retryAfter := None;
     shouldRetry := None |}.

Definition new_ServerError (message : string) (statusCode : option Z)
    (headers : option (gmap string string)) : ErrorObject :=
  with_class ServerError "ServerError"
    (new_APIError message (Some (JStr "server_error")) None statusCode headers).

Definition new_ContentFilterError (message : string) (statusCode : option Z)
    (headers : option (gmap string string)) : ErrorObject :=
  with_class ContentFilterError "ContentFilterError"
    (new_InvalidRequestError message None (Some (JStr "content_filter"))
       statusCode headers).

(** ** [BaseClient.handleErrorResponse]

    The parameter [response] is typed [any].  What the method reads of
    it: what [response.json()] resolves to ([None] when it rejects), the
    status, and the entries [response.headers.forEach] visits ([None]
    when [response.headers] is falsy). *)
Record Response := {
  json : option JSON;
  status : Z;
  response_headers : option (list (string * string))
}.

(** [o || d] for an optional string. *)
Definition or_string (o : option string) (d : string) : string :=
  if truthy_opt o then default d o else d.

(** The callback of [response.headers.forEach]: the assignment
    [headers[key.toLowerCase()] = value].  [headers] is a plain object,
    so for the key [__proto__] the assignment of a string calls the
    setter the object inherits and gives it no property. *)
Definition store_header (headers : gmap string string) (entry : string * string)
  : gmap string string :=
  let key := toLowerCase (fst entry) in
  if String.eqb key "__proto__" then headers else <[key := snd entry]> headers.

(** [BaseClient.extractHeaders]: the own properties of [headers]. *)
Definition extractHeaders (response : Response) : gmap string string :=
  match response_headers response with
  | Some entries => fold_left store_header entries ∅
  | None => ∅
  end.

(** The text before the first single quote of [s] and the text after it. *)
Fixpoint until_quote (s : string) : option (string * string) :=
  match s with
  | EmptyString => None
  | String c s' =>
      if Ascii.eqb c quote then Some (EmptyString, s')
      else
        match until_quote s' with
        | Some (before, after) => Some (String c before, after)
        | None => None
        end
  end.

(** [s.match(re)] reduced to its group 1, where [re] is a single quote, a
    group of any number of characters other than a single quote, and a
    single quote: the search starts at the first quote of [s], and a match
    from there ends at the next one. *)
Definition match_quoted (s : string) : option string :=
  match until_quote s with
  | Some (_, after) =>
      match until_quote after with
      | Some (group1, _) => Some group1
      | None => None
      end
  | None => None
  end.

(** [typeof v === 'object' && v !== null] *)
Definition is_object (v : option JSON) : bool :=
  match v with
  | Some (JObj _) | Some (JArr _) => true
  | _ => false
  end.

(** [errorData] after the [try]: the body, or the stand-in of the
    [catch].  Then, to the end of the [if] on [errorData.error]:
    [errorMessage], [errorType] and [errorCode].  [None] is the
    [TypeError] of reading [errorData.error] when the body is [null]. *)
Definition errorData (response : Response) : JSON :=
  match json response with
  | Some data => data
  | None => JObj [("error", JObj [("message", JStr "Unknown error occurred")])]
  end.

Definition error_envelope (response : Response)
  : option (JSON * option JSON * option JSON) :=
  let errorData := errorData response in
  errorData_error ← get_prop (Some errorData) "error";
  if is_object errorData_error then
    message ← get_prop errorData_error "message";
    type ← get_prop errorData_error "type";
    code ← get_prop errorData_error "code";
    Some (or_value message (JStr "Unknown error"), type, code)
  else
    match errorData_error with
    | Some (JStr text) => Some (JStr text, None, None)
    | _ =>
        message ← get_prop (Some errorData) "message";
        type ← get_prop (Some errorData) "type";
        code ← get_prop (Some errorData) "code";
        Some (or_value message (JStr "Unknown error"), type, code)
    end.

(** The places where [handleErrorResponse] throws a [TypeError]: reading
    [errorData.error], calling [errorMessage.toLowerCase] and calling
    [errorType.toLowerCase]; only a string has that method. *)
Inductive TypeErrorSite : Type :=
  | reading_error
  | message_toLowerCase
  | type_toLowerCase.

(** What [handleErrorResponse] throws: an error of [src/errors.ts], or a
    [TypeError]. *)
Inductive Classification : Type :=
  | Classified (e : ErrorObject)
  | TypeError (site : TypeErrorSite).

Definition classified (c : Classification) : option ErrorObject :=
  match c with
  | Classified e => Some e
  | TypeError _ => None
  end.

Section Classifier.

(** [String(n)] for a number [n]. *)
Variable number_text : Z -> string.

(** [String(v)], which is what [new Error(v)] keeps as [message]: an
    array is its elements joined by commas, [null] among them giving
    nothing. *)
Fixpoint ToString (v : JSON) : string :=
  match v with
  | JNull => "null"
  | JBool true => "true"
  | JBool false => "false"
  | JNum n => number_text n
  | JStr s => s
  | JArr items =>
      (fix join (items : list JSON) : string :=
         match items with
         | [] => EmptyString
         | item :: items' =>
             match item with JNull => EmptyString | _ => ToString item end
             +:+ match items' with
                 | [] => EmptyString
                 | _ :: _ => "," +:+ join items'
                 end
         end) items
  | JObj _ => "[object Object]"
  end.

Definition handleErrorResponse (response : Response) : Classification :=
  match error_envelope response with
  | None => TypeError reading_error
  | Some (errorMessage, errorType, errorCode) =>
      let status := status response in
      let headers := extractHeaders response in
      if (status =? 401)%Z then
        Classified (new_InvalidAPIKeyError (Some status) (Some headers))
      else if (status =? 400)%Z then
        match errorMessage with
        | JStr text =>
            if includes (toLowerCase text) "model" then
              let match_ := match_quoted text in
              let modelName := default "Unknown model" match_ in
              Classified (new_InvalidModelError modelName (Some status) (Some headers))
            else
              Classified (new_InvalidRequestError text None None
                            (Some status) (Some headers))
        | _ => TypeError message_toLowerCase
        end
      else if (status =? 429)%Z then
        Classified (new_TooManyRequestsError (Some status) (Some headers))
      else if (status =? 503)%Z then
        Classified (new_ServiceUnavailableError (Some status) (Some headers))
      else if (status >=? 500)%Z then
        Classified (new_ServerError (ToString errorMessage) (Some status) (Some headers))
      else if js_truthy errorType then
        match errorType with
        | Some (JStr text) =>
            if includes (toLowerCase text) "content_filter" then
              Classified (new_ContentFilterError (ToString errorMessage)
                            (Some status) (Some headers))
            else
              Classified (new_APIError (ToString errorMessage) errorCode errorType
                            (Some status) (Some headers))
        | _ => TypeError type_toLowerCase
        end
      else
        Classified (new_APIError (ToString errorMessage) errorCode errorType
                      (Some status) (Some headers))
  end.

End Classifier.

(** ** [ChatCompletions.handleStreamResponse]

    The chunk is built from whatever [JSON.parse] returns, with no check
    of the types, so its fields hold JSON values.  [None] in a field is
    [undefined]. *)
Record WireFunctionCall := {
  w_name : option JSON;
  w_arguments : option JSON
}.

Record WireToolCall := {
  w_id : JSON;
  w_type : JSON;
  w_function : WireFunctionCall
}.

Record WireDelta := {
  w_content : option JSON;
  w_function_call : option WireFunctionCall;
  w_role : option JSON;
  w_tool_calls : option (list WireToolCall)
}.

Record WireChoice := {
  w_index : JSON;
  w_delta : WireDelta;
  w_finish_reason : option JSON;
  w_logprobs : option JSON
}.

Record WireChunk := {
  w_chunk_id : JSON;
  w_created : JSON;
  w_model : JSON;
  w_choices : list WireChoice;
  w_object : string;
  w_system_fingerprint : option JSON
}.

(** The values [for (const x of v)] visits: the elements of an array, the
    characters of a string; anything else is not iterable, a
    [TypeError]. *)
Definition iterate (v : JSON) : option (list JSON) :=
  match v with
  | JArr items => Some items
  | JStr s =>
      Some (map (fun c => JStr (String c EmptyString)) (list_ascii_of_string s))
  | _ => None
  end.

(** The callback of [deltaData.tool_calls.map]. *)
Definition build_tool_call (tc : JSON) : option WireToolCall :=
  tc_id ← get_prop (Some tc) "id";
  tc_type ← get_prop (Some tc) "type";
  tc_function ← get_prop (Some tc) "function";
  name ← get_prop tc_function "name";
  arguments ← get_prop tc_function "arguments";
  Some {| w_id := or_value tc_id (JStr EmptyString);
          w_type := or_value tc_type (JStr "function");
          w_function := {| w_name := name; w_arguments := arguments |} |}.

(** The body of [for (const choiceData of data.choices || [])]. *)
Definition build_choice (choiceData : JSON) : option WireChoice :=
  choiceData_delta ← get_prop (Some choiceData) "delta";
  let deltaData := or_value choiceData_delta (JObj []) in
  deltaData_tool_calls ← get_prop (Some deltaData) "tool_calls";
  toolCalls ←
    (if js_truthy deltaData_tool_calls then
       match deltaData_tool_calls with
       | Some (JArr items) => Some <$> mapM build_tool_call items
       | _ => None
       end
     else Some None);
  deltaData_function_call ← get_prop (Some deltaData) "function_call";
  functionCall ←
    (if js_truthy deltaData_function_call then
       name ← get_prop deltaData_function_call "name";
       arguments ← get_prop deltaData_function_call "arguments";
       Some (Some {| w_name := name; w_arguments := arguments |})
     else Some None);
  content ← get_prop (Some deltaData) "content";
  role ← get_prop (Some deltaData) "role";
  choiceData_index ← get_prop (Some choiceData) "index";
  finish_reason ← get_prop (Some choiceData) "finish_reason";
  logprobs ← get_prop (Some choiceData) "logprobs";
  Some {| w_index := or_value choiceData_index (JNum 0);
          w_delta := {| w_content := content;
                        w_function_call := functionCall;
                        w_role := role;
                        w_tool_calls := toolCalls |};
          w_finish_reason := finish_reason;
          w_logprobs := logprobs |}.

(** From [const choices: Choice[] = []] to the object yielded. *)
Definition build_chunk (data : JSON) : option WireChunk :=
  data_choices ← get_prop (Some data) "choices";
  items ← iterate (or_value data_choices (JArr []));
  choices ← mapM build_choice items;
  data_id ← get_prop (Some data) "id";
  data_created ← get_prop (Some data) "created";
  data_model ← get_prop (Some data) "model";
  data_system_fingerprint ← get_prop (Some data) "system_fingerprint";
  Some {| w_chunk_id := or_value data_id (JStr EmptyString);
          w_created := or_value data_created (JNum 0);
          w_model := or_value data_model (JStr EmptyString);
          w_choices := choices;
          w_object := "chat.completion.chunk";
          w_system_fingerprint := data_system_fingerprint |}.

(** How the body of [for (const line of lines)] leaves a line: on to the
    next line, [return], or [throw]. *)
Inductive Flow : Type :=
  | Next
  | Return
  | Throw (e : ErrorObject).

(** How the generator ends. *)
Inductive Ending : Type :=
  | Done
  | Failed (e : ErrorObject).

Section Framer.

(** [JSON.parse]: the value, or the [SyntaxError] as a template literal
    prints it. *)
Variable JSON_parse : string -> JSON + string.

(** A [TypeError] as a template literal prints it. *)
Variable TypeError_text : string.

(** The body of the [for] over the lines of one read: what it yields,
    and how it leaves the line. *)
Definition handle_line (line : string) : option WireChunk * Flow :=
  if String.eqb (trim line) EmptyString then (None, Next)
  else if String.eqb (trim line) "data: [DONE]" then (None, Return)
  else if startsWith line "data: " then
    match JSON_parse (slice 6 line) with
    | inl data =>
        match build_chunk data with
        | Some chunk => (Some chunk, Next)
        | None =>
            (None, Throw (new_HAIError ("Error parsing stream: " +:+ TypeError_text)
                                       None None))
        end
    | inr error =>
        (None, Throw (new_HAIError ("Error parsing stream: " +:+ error) None None))
    end
  else (None, Next).

Fixpoint handle_lines (lines : list string) : list WireChunk * Flow :=
  match lines with
  | [] => ([], Next)
  | line :: lines' =>
      match handle_line line with
      | (yielded, Next) =>
          let '(chunks, flow) := handle_lines lines' in
          (match yielded with
           | Some chunk => chunk :: chunks
           | None => chunks
           end, flow)
      | (_, flow) => ([], flow)
      end
  end.

(** The [while (true)] over the reads.  Each element of [reads] is the
    text [decoder.decode(value, { stream: true })] gives for one read;
    after the last one [reader.read()] reports [done]. *)
Fixpoint handle_reads (reads : list string) : list WireChunk * Flow :=
  match reads with
  | [] => ([], Next)
  | chunk :: reads' =>
      let lines := split_lines chunk in
      match handle_lines lines with
      | (chunks, Next) =>
          let '(chunks', flow) := handle_reads reads' in
          (chunks ++ chunks', flow)
      | (chunks, flow) => (chunks, flow)
      end
  end.

(** What one line contributes to the chunks, and how it is left. *)
Definition line_run (line : string) : list WireChunk * Flow :=
  match handle_line line with
  | (Some chunk, Next) => ([chunk], Next)
  | (_, flow) => ([], flow)
  end.

Definition handleStreamResponse (reads : list string)
  : list WireChunk * Ending :=
  let '(chunks, flow) := handle_reads reads in
  (chunks, match flow with
           | Throw e => Failed e
           | _ => Done
           end).

End Framer.

(** A parser for the examples.  It agrees with [JSON.parse] on the texts
    the examples hand to it: an empty object is parsed, a lone opening
    brace and a brace followed by a bare word are syntax errors. *)
Definition example_parse (s : string) : JSON + string :=
  if String.eqb s "{}" then inl (JObj []) else inr "SyntaxError".

(** A chunk with one choice that carries the text fragment [s] and the
    finish reason ["stop"]. *)
Definition stop_choice (i : Z) (s : string) : Choice :=
  {| index := i;
     message := None;
     delta := Some {| d_content := Some s;
                      d_function_call := None;
                      d_role := None;
                      d_tool_calls := None |};
     finish_reason := Some "stop";
     logprobs := None |}.

Definition stop_chunk (i : Z) (s : string) : ChatCompletionChunk :=
  with_choices (text_chunk i s) [stop_choice i s].

(** The number of single quotes in [s]. *)
Fixpoint count_quotes (s : string) : nat :=
  match s with
  | EmptyString => 0
  | String c s' => (if Ascii.eqb c quote then 1 else 0) + count_quotes s'
  end.

(** A failed response with the given status, message and headers: its
    body is an object [error] with the one field [message]. *)
Definition failed_response (status : Z) (message : string)
    (headers : list (string * string)) : Response :=
  {| json := Some (JObj [("error", JObj [("message", JStr message)])]);
     status := status;
     response_headers := Some headers |}.

(** The text of a choice of a completion. *)
Definition message_content (c : Choice) : option string :=
  match message c with
  | Some m => m_content m
  | None => None
  end.

(** A choice with everything of [c] but the content of its message. *)
Definition with_message_content (c : Choice) (content : option string) : Choice :=
  {| index := index c;
     message := match message c with
                | Some m => Some {| m_role := m_role m;
                                    m_content := content;
                                    m_function_call := m_function_call m;
                                    m_tool_calls := m_tool_calls m |}
                | None => None
                end;
     delta := delta c;
     finish_reason := finish_reason c;
     logprobs := logprobs c |}.

(** The line feed as a string. *)
Definition eol : string := String newline EmptyString.

(** A read that stops at a line boundary: it is empty or its last
    character is a line feed. *)
Fixpoint ends_in_newline (s : string) : bool :=
  match s with
  | EmptyString => true
  | String c EmptyString => Ascii.eqb c newline
  | String _ s' => ends_in_newline s'
  end.

(** One run of the framer followed by another: the second is reached
    only if the first has neither returned nor thrown. *)
Definition and_then (first second : list WireChunk * Flow)
  : list WireChunk * Flow :=
  match first with
  | (chunks, Next) => (chunks ++ fst second, snd second)
  | (chunks, flow) => (chunks, flow)
  end.

(** The error a generator ends with, if it ends with one. *)
Definition failure (ending : Ending) : option ErrorObject :=
  match ending with
  | Failed e => Some e
  | Done => None
  end.

(** The white space rules of the streaming filter, read off the last
    branch of the loop body: the output for a text without tags, from
    given [streamStarted], [consecutiveNewlines] and [lastCharWasSpace]. *)
Fixpoint normalized (started : bool) (newlines : nat) (spaced : bool)
    (s : string) : string :=
  match s with
  | EmptyString => EmptyString
  | String c s' =>
      if negb started && isWhiteSpace c then normalized started newlines spaced s'
      else if Ascii.eqb c newline then
        if (S newlines <=? 2)%nat
        then String c (normalized true (S newlines) false s')
        else normalized true (S newlines) false s'
      else if isWhiteSpace c then
        if negb spaced
        then String space (normalized true newlines true s')
        else normalized true newlines true s'
      else String c (normalized true 0 false s')
  end.

Fixpoint repeat_char (c : ascii) (n : nat) : string :=
  match n with
  | O => EmptyString
  | S n' => String c (repeat_char c n')
  end.

(** The text is empty or its last character is no white space. *)
Fixpoint ends_with_text (s : string) : bool :=
  match s with
  | EmptyString => true
  | String c EmptyString => negb (isWhiteSpace c)
  | String _ s' => ends_with_text s'
  end.

(** The text holds no ['<']. *)
Fixpoint tag_free (s : string) : bool :=
  match s with
  | EmptyString => true
  | String c s' => negb (Ascii.eqb c "<") && tag_free s'
  end.

(** A matcher whose matches are never empty. *)
Definition consuming (matcher : string -> option (string * string)) : Prop :=
  forall s replacement rest,
    matcher s = Some (replacement, rest) -> String.length rest < String.length s.

(** ** Shapes of emitted text *)

(** The text is empty or its first character is no white space. *)
Definition starts_with_text (s : string) : bool :=
  match s with
  | EmptyString => true
  | String c _ => negb (isWhiteSpace c)
  end.

(** Every character of the text satisfies [p]. *)
Fixpoint all_chars (p : ascii -> bool) (s : string) : bool :=
  match s with
  | EmptyString => true
  | String c s' => p c && all_chars p s'
  end.

(** No white space, or a space, or a line feed. *)
Definition space_or_newline (c : ascii) : bool :=
  negb (isWhiteSpace c) || Ascii.eqb c space || Ascii.eqb c newline.

(** The run of the character [c] the text ends with and the longest run
    of [c] in it, after a text that ended with [run] of them and had
    [best] as its longest run. *)
Fixpoint char_runs (c : ascii) (run best : nat) (s : string) : nat * nat :=
  match s with
  | EmptyString => (run, best)
  | String d s' =>
      if Ascii.eqb d c
      then char_runs c (S run) (Nat.max best (S run)) s'
      else char_runs c 0 best s'
  end.

Definition longest_run (c : ascii) (s : string) : nat := snd (char_runs c 0 0 s).

(** The text with its white space taken out. *)
Fixpoint without_whitespace (s : string) : string :=
  match s with
  | EmptyString => EmptyString
  | String c s' =>
      if isWhiteSpace c then without_whitespace s'
      else String c (without_whitespace s')
  end.

(** The variables of the generator when it has consumed [stream]. *)
Definition state_after (stream : list ChatCompletionChunk) : FilterVars :=
  fold_left (fun v chunk => fst (filter_chunk v chunk)) stream initialVars.

(** What is known of the variables and of all the text emitted so far,
    at any point of a stream: nothing is emitted before the stream has
    started and the first character emitted is no white space; the only
    white space emitted is the space and the line feed; no more than two
    line feeds are emitted in a row, and no more at the end than
    [consecutiveNewlines] counts. *)
Definition emitted_well (v : FilterVars) (emitted : string) : Prop :=
  (streamStarted v = false <-> emitted = EmptyString)
  /\ starts_with_text emitted = true
  /\ all_chars space_or_newline emitted = true
  /\ fst (char_runs newline 0 0 emitted) <= consecutiveNewlines v
  /\ fst (char_runs newline 0 0 emitted) <= longest_run newline emitted
  /\ longest_run newline emitted <= 2.

(** The two flags are never set together. *)
Definition one_block (v : FilterVars) : Prop :=
  isReasoning (state v) && isSer (state v) = false.

(** ** Blocks *)

(** The two kinds of block: the flag that is set inside, and the tags. *)
Inductive Block : Type := Reasoning | Ser.

Definition open_tag (b : Block) : string :=
  match b with Reasoning => "<think>" | Ser => "<ser>" end.

Definition close_tag (b : Block) : string :=
  match b with Reasoning => "</think>" | Ser => "</ser>" end.

Definition inside (b : Block) (v : FilterVars) : Prop :=
  match b with
  | Reasoning => isReasoning (state v) = true
  | Ser => isReasoning (state v) = false /\ isSer (state v) = true
  end.

Definition enter (b : Block) (v : FilterVars) : FilterVars :=
  match b with
  | Reasoning => set_isReasoning true v
  | Ser => set_isSer true v
  end.

Definition leave (b : Block) (v : FilterVars) : FilterVars :=
  match b with
  | Reasoning => set_lastCharWasSpace true (set_isReasoning false v)
  | Ser => set_lastCharWasSpace true (set_isSer false v)
  end.

(** ** What the filter leaves of a chunk *)

(** The fields of a chunk other than its choices. *)
Definition chunk_header (k : ChatCompletionChunk)
  : string * Z * string * string * option string :=
  (k_id k, k_created k, k_model k, k_object k, k_system_fingerprint k).

(** The fields of a choice that the filter copies: all but the text, and
    but [message], which a chunk of a stream does not have. *)
Definition choice_frame (c : Choice)
  : Z * option string * option JSON
    * option (option string * option FunctionCall * option (list ToolCall)) :=
  (index c, finish_reason c, logprobs c,
   match delta c with
   | Some d => Some (d_role d, d_function_call d, d_tool_calls d)
   | None => None
   end).

(** The emitted chunk [k'] is what is left of the incoming chunk [k]. *)
Definition left_of (k k' : ChatCompletionChunk) : Prop :=
  chunk_header k' = chunk_header k
  /\ k_choices k' <> []
  /\ sublist (map choice_frame (k_choices k')) (map choice_frame (k_choices k)).

(** No choice of the stream bears text. *)
Definition text_free (stream : list ChatCompletionChunk) : Prop :=
  Forall (fun k => Forall (fun c => truthy (choice_text c) = false) (k_choices k))
         stream.

(** ** [ChatCompletions.handleResponse]

    As for a chunk, the completion is built from whatever
    [response.json()] returned, so its fields hold JSON values. *)
Record WireMessage := {
  wm_role : JSON;
  wm_content : option JSON;
  wm_function_call : option WireFunctionCall;
  wm_tool_calls : option (list WireToolCall)
}.

Record WireCompletionChoice := {
  wc_index : JSON;
  wc_message : WireMessage;
  wc_finish_reason : option JSON;
  wc_logprobs : option JSON
}.

Record WireUsage := {
  wu_completion_tokens : JSON;
  wu_prompt_tokens : JSON;
  wu_total_tokens : JSON
}.

Record WireCompletion := {
  wc_id : JSON;
  wc_created : JSON;
  wc_model : JSON;
  wc_choices : list WireCompletionChoice;
  wc_object : string;
  wc_system_fingerprint : option JSON;
  wc_usage : option WireUsage
}.

(** The body of [for (const choiceData of data.choices || [])]. *)
Definition build_message_choice (choiceData : JSON)
  : option WireCompletionChoice :=
  choiceData_message ← get_prop (Some choiceData) "message";
  let messageData := or_value choiceData_message (JObj []) in
  messageData_tool_calls ← get_prop (Some messageData) "tool_calls";
  toolCalls ←
    (if js_truthy messageData_tool_calls then
       match messageData_tool_calls with
       | Some (JArr items) => Some <$> mapM build_tool_call items
       | _ => None
       end
     else Some None);
  messageData_function_call ← get_prop (Some messageData) "function_call";
  functionCall ←
    (if js_truthy messageData_function_call then
       name ← get_prop messageData_function_call "name";
       arguments ← get_prop messageData_function_call "arguments";
       Some (Some {| w_name := name; w_arguments := arguments |})
     else Some None);
  role ← get_prop (Some messageData) "role";
  content ← get_prop (Some messageData) "content";
  choiceData_index ← get_prop (Some choiceData) "index";
  finish_reason ← get_prop (Some choiceData) "finish_reason";
  logprobs ← get_prop (Some choiceData) "logprobs";
  Some {| wc_index := or_value choiceData_index (JNum 0);
          wc_message := {| wm_role := or_value role (JStr EmptyString);
                           wm_content := content;
                           wm_function_call := functionCall;
                           wm_tool_calls := toolCalls |};
          wc_finish_reason := finish_reason;
          wc_logprobs := logprobs |}.

(** [None] is the [TypeError] that leaves [handleResponse]. *)
Definition handleResponse (data : JSON) : option WireCompletion :=
  data_choices ← get_prop (Some data) "choices";
  items ← iterate (or_value data_choices (JArr []));
  choices ← mapM build_message_choice items;
  data_usage ← get_prop (Some data) "usage";
  usage ←
    (if js_truthy data_usage then
       completion_tokens ← get_prop data_usage "completion_tokens";
       prompt_tokens ← get_prop data_usage "prompt_tokens";
       total_tokens ← get_prop data_usage "total_tokens";
       Some (Some {| wu_completion_tokens := or_value completion_tokens (JNum 0);
                     wu_prompt_tokens := or_value prompt_tokens (JNum 0);
                     wu_total_tokens := or_value total_tokens (JNum 0) |})
     else Some None);
  data_id ← get_prop (Some data) "id";
  data_created ← get_prop (Some data) "created";
  data_model ← get_prop (Some data) "model";
  data_system_fingerprint ← get_prop (Some data) "system_fingerprint";
  Some {| wc_id := or_value data_id (JStr EmptyString);
          wc_created := or_value data_created (JNum 0);
          wc_model := or_value data_model (JStr EmptyString);
          wc_choices := choices;
          wc_object := "chat.completion";
          wc_system_fingerprint := data_system_fingerprint;
          wc_usage := usage |}.

(** ** Payloads that can be decoded *)

(** A tool call is an object whose field [function] is there and is not
    [null]. *)
Definition tool_call_shaped (tc : JSON) : bool :=
  match tc with
  | JObj fields =>
      match lookup_field "function" fields with
      | Some JNull | None => false
      | Some _ => true
      end
  | _ => false
  end.

(** The field [tool_calls] of a delta or of a message is falsy, or an
    array of tool calls. *)
Definition tool_calls_shaped (holder : JSON) : bool :=
  match holder with
  | JObj fields =>
      let tool_calls := lookup_field "tool_calls" fields in
      if js_truthy tool_calls then
        match tool_calls with
        | Some (JArr items) => forallb tool_call_shaped items
        | _ => false
        end
      else true
  | _ => true
  end.

(** A choice is not [null], and the object it holds under [field], if it
    holds one, has its tool calls in shape. *)
Definition choice_shaped (field : string) (choiceData : JSON) : bool :=
  match choiceData with
  | JNull => false
  | JObj fields =>
      match lookup_field field fields with
      | Some holder => tool_calls_shaped holder
      | None => true
      end
  | _ => true
  end.

(** A payload is not [null], and its field [choices] is falsy, a string,
    or an array of choices. *)
Definition payload_shaped (field : string) (data : JSON) : bool :=
  match data with
  | JNull => false
  | JObj fields =>
      let choices := lookup_field "choices" fields in
      if js_truthy choices then
        match choices with
        | Some (JArr items) => forallb (choice_shaped field) items
        | Some (JStr _) => true
        | _ => false
        end
      else true
  | _ => true
  end.

(** ** [BaseClient]: the constructor and [request] *)

(** What the [catch] of [request] reads of a caught value that is no
    [HAIError]: its [name], its [code] where that is a string, and its
    [message] as a template literal prints it. *)
Record ForeignError := {
  f_name : option string;
  f_code : option string;
  f_message : string
}.

Inductive Thrown : Type :=
  | ThrownHAI (e : ErrorObject)
  | ThrownOther (e : ForeignError).

Definition thrown_name (error : Thrown) : option string :=
  match error with
  | ThrownHAI e => Some (name e)
  | ThrownOther e => f_name e
  end.

Definition thrown_code (error : Thrown) : option JSON :=
  match error with
  | ThrownHAI e => code e
  | ThrownOther e => JStr <$> f_code e
  end.

(** [v === s] for a string literal [s] *)
Definition is_string (v : option JSON) (s : string) : bool :=
  match v with
  | Some (JStr t) => String.eqb t s
  | _ => false
  end.

Definition thrown_message (error : Thrown) : string :=
  match error with
  | ThrownHAI e => e_message e
  | ThrownOther e => f_message e
  end.

(** A response as [request] uses it: [ok], what [handleErrorResponse]
    reads of it, and what [response.json()] gives on the way out. *)
Record HttpResponse := {
  ok : bool;
  failed_view : Response;
  parsed_body : Thrown + JSON
}.

(** The second argument of [fetch], without its [signal]; [body] is the
    value whose [JSON.stringify] text is sent. *)
Record RequestInit := {
  method : string;
  init_headers : gmap string string;
  body : option JSON
}.

(** A [fetch]: it resolves to a response or rejects.  The timer and the
    caller's signal act through it: an aborted [fetch] rejects with an
    error named [AbortError]. *)
Definition Fetch : Type := string -> RequestInit -> Thrown + HttpResponse.

Record HAIClientOptions := {
  o_apiKey : option string;
  o_organization : option string;
  o_baseURL : option string;
  o_timeout : option Z;
  o_fetch : option Fetch
}.

Record BaseClient := {
  apiKey : string;
  organization : option string;
  baseURL : string;
  timeout : Z;
  fetchImpl : Fetch
}.

Definition double_quote : string := String (ascii_of_nat 34) EmptyString.

Definition new_NoAPIKeyError : ErrorObject :=
  with_class NoAPIKeyError "NoAPIKeyError"
    (new_AuthenticationError
       ("No API key provided. Set your API key using `new HAI({ apiKey: "
        +:+ double_quote +:+ "..." +:+ double_quote +:+ " })` "
        +:+ "or by setting the HAI_API_KEY environment variable. You can generate API keys "
        +:+ "in the HelpingAI dashboard at https://helpingai.co/dashboard")
       None None).

Definition new_TimeoutError (message : string) : ErrorObject :=
  with_class TimeoutError "TimeoutError" (new_HAIError message None None).

Definition new_APIConnectionError (message : string) (shouldRetry : bool)
    (statusCode : option Z) (headers : option (gmap string string))
  : ErrorObject :=
  {| class := APIConnectionError;
     name := "APIConnectionError";
     e_message := message;
     statusCode := statusCode;
     headers := headers;
     param := None;
     code := None;
     type := None;
     retryAfter := None;
     shouldRetry := Some shouldRetry |}.

(** [s.replace(re, '')] where [re] is a slash at the end of the input. *)
Fixpoint replace_final_slash (s : string) : string :=
  match s with
  | EmptyString => EmptyString
  | String c EmptyString => if Ascii.eqb c "/" then EmptyString else s
  | String c s' => String c (replace_final_slash s')
  end.

(** The constructor.  [env_key] is [process.env.HAI_API_KEY] and
    [module_fetch] the [fetchImpl] the module found when it was loaded,
    if it found one. *)
Definition new_BaseClient (env_key : option string)
    (module_fetch : option Fetch) (options : HAIClientOptions)
  : Thrown + BaseClient :=
  let apiKey := or_string (o_apiKey options) (or_string env_key EmptyString) in
  if negb (truthy apiKey) then inl (ThrownHAI new_NoAPIKeyError)
  else
    let organization := o_organization options in
    let baseURL :=
      replace_final_slash
        (or_string (o_baseURL options) "https://api.helpingai.co/v1") in
    let timeout :=
      match o_timeout options with
      | Some t => if (t =? 0)%Z then 60000%Z else t
      | None => 60000%Z
      end in
    match (match o_fetch options with
           | Some f => Some f
           | None => module_fetch
           end) with
    | Some fetchImpl =>
        inr {| apiKey := apiKey;
               organization := organization;
               baseURL := baseURL;
               timeout := timeout;
               fetchImpl := fetchImpl |}
    | None =>
        inl (ThrownOther
               {| f_name := Some "Error";
                  f_code := None;
                  f_message := "No fetch implementation available. Please install node-fetch or use a modern browser." |})
    end.

(** The options of [request], without [signal]. *)
Record RequestOptions := {
  opt_stream : option bool;
  opt_authRequired : option bool
}.

(** What [request] returns: the response itself when [stream] is set,
    the parsed body otherwise. *)
Inductive RequestResult : Type :=
  | Streamed (response : HttpResponse)
  | Parsed (result : JSON).

(** The [catch] block of [request]. *)
Definition request_catch (error : Thrown) : ErrorObject :=
  if bool_decide (thrown_name error = Some "AbortError") then
    new_TimeoutError "Request timed out"
  else if is_string (thrown_code error) "ECONNREFUSED"
          || is_string (thrown_code error) "ENOTFOUND" then
    new_APIConnectionError
      ("Error connecting to HAI API: " +:+ thrown_message error) true None None
  else
    match error with
    | ThrownHAI e => e
    | ThrownOther _ =>
        new_APIError ("Error communicating with HAI API: " +:+ thrown_message error)
                     None None None None
    end.

(** The headers [request] sends. *)
Definition request_headers (c : BaseClient) (authRequired : bool)
  : gmap string string :=
  let headers : gmap string string := {[ "Content-Type" := "application/json" ]} in
  let headers :=
    if authRequired then <["Authorization" := "Bearer " +:+ apiKey c]> headers
    else headers in
  if truthy_opt (organization c)
  then <["HAI-Organization" := default EmptyString (organization c)]> headers
  else headers.

(** The second argument of the call of [fetchImpl]. *)
Definition request_init (c : BaseClient) (method : string)
    (data : option JSON) (authRequired : bool) : RequestInit :=
  {| method := method;
     init_headers := request_headers c authRequired;
     body := if js_truthy data then data else None |}.

Section Request.

(** [String(n)] for a number [n], and the message of the [TypeError]
    thrown at a site, which the engine words. *)
Variable number_text : Z -> string.
Variable TypeError_message : TypeErrorSite -> string.

(** What [await this.handleErrorResponse(response)] throws. *)
Definition thrown_by_classifier (response : Response) : Thrown :=
  match handleErrorResponse number_text response with
  | Classified e => ThrownHAI e
  | TypeError site =>
      ThrownOther {| f_name := Some "TypeError";
                     f_code := None;
                     f_message := TypeError_message site |}
  end.

(** [BaseClient.request]: the error it throws, or what it returns. *)
Definition request (c : BaseClient) (method path : string)
    (data : option JSON) (options : RequestOptions)
  : ErrorObject + RequestResult :=
  let stream := default false (opt_stream options) in
  let authRequired := default true (opt_authRequired options) in
  let url := baseURL c +:+ path in
  let attempt : Thrown + RequestResult :=
    match fetchImpl c url (request_init c method data authRequired) with
    | inl error => inl error
    | inr response =>
        if negb (ok response) then
          inl (thrown_by_classifier (failed_view response))
        else if stream then inr (Streamed response)
        else
          match parsed_body response with
          | inl error => inl error
          | inr result => inr (Parsed result)
          end
    end in
  match attempt with
  | inl error => inl (request_catch error)
  | inr result => inr result
  end.

End Request.

(** A response with a failing status. *)
Definition failing (view : Response) : HttpResponse :=
  {| ok := false;
     failed_view := view;
     parsed_body := inr JNull |}.


(** The options [options] with the base URL [u]. *)
Definition with_baseURL (options : HAIClientOptions) (u : string)
  : HAIClientOptions :=
  {| o_apiKey := o_apiKey options;
     o_organization := o_organization options;
     o_baseURL := Some u;
     o_timeout := o_timeout options;
     o_fetch := o_fetch options |}.

(** A [fetch] that resolves to [response] whatever it is asked. *)
Definition always (response : HttpResponse) : Fetch :=
  fun _ _ => inr response.

(** A client for the examples. *)
Definition example_client (f : Fetch) : BaseClient :=
  {| apiKey := "key";
     organization := None;
     baseURL := "https://api.helpingai.co/v1";
     timeout := 60000;
     fetchImpl := f |}.


(** Options for the examples: nothing but a [fetch]. *)
Definition example_options (f : Fetch) : HAIClientOptions :=
  {| o_apiKey := None;
     o_organization := None;
     o_baseURL := None;
     o_timeout := None;
     o_fetch := Some f |}.

(** Decimal notation, which is [String(n)] for an integer [n] below
    10^21 in magnitude. *)
Definition decimal (n : Z) : string := pretty n.

(** The messages of the [TypeError]s for the examples. *)
Definition example_messages (site : TypeErrorSite) : string :=
  match site with
  | reading_error => "Cannot read properties of null (reading 'error')"
  | message_toLowerCase => "errorMessage.toLowerCase is not a function"
  | type_toLowerCase => "errorType.toLowerCase is not a function"
  end.

(** ** Texts with closed blocks *)

(** A text cut at its blocks: the text before the first block, the
    block, and what follows it, cut in the same way. *)
Inductive Marked : Type :=
  | Plain (s : string)
  | Blocked (s : string) (b : Block) (body : string) (rest : Marked).

(** The text itself, and the text that stands outside the blocks. *)
Fixpoint render (m : Marked) : string :=
  match m with
  | Plain s => s
  | Blocked s b body rest =>
      s +:+ open_tag b +:+ body +:+ close_tag b +:+ render rest
  end.

Fixpoint visible (m : Marked) : string :=
  match m with
  | Plain s => s
  | Blocked s _ _ rest => s +:+ visible rest
  end.

(** The text once the reasoning blocks are taken out. *)
Fixpoint without_reasoning (m : Marked) : string :=
  match m with
  | Plain s => s
  | Blocked s Reasoning _ rest => s +:+ without_reasoning rest
  | Blocked s Ser body rest =>
      s +:+ "<ser>" +:+ body +:+ "</ser>" +:+ without_reasoning rest
  end.

(** No body holds the close tag of its block, so that the block ends
    where the cut says, and no body of a structured block holds the tag
    that opens a reasoning block. *)
Fixpoint bodies_fit (m : Marked) : bool :=
  match m with
  | Plain _ => true
  | Blocked _ b body rest =>
      negb (includes body (close_tag b))
      && match b with
         | Reasoning => true
         | Ser => negb (includes body "<think>")
         end
      && bodies_fit rest
  end.

(** The text ends with the beginning of an open tag. *)
Fixpoint dangling (s : string) : bool :=
  match s with
  | EmptyString => false
  | String _ s' => startsWith "<think>" s || startsWith "<ser>" s || dangling s'
  end.

(** No open tag stands in the text, and none begins at its end. *)
Definition open_tag_free (s : string) : bool :=
  negb (includes s "<think>") && negb (includes s "<ser>") && negb (dangling s).

(** Neither an open tag nor the beginning of one stands at the start of
    [r]; and at no place of [s], when [y] follows [s]. *)
Definition tagless_at (r : string) : bool :=
  negb (startsWith r "<think>") && negb (startsWith r "<ser>")
  && negb (startsWith "<think>" r) && negb (startsWith "<ser>" r).

Fixpoint tagless (s y : string) : bool :=
  match s with
  | EmptyString => true
  | String _ s' => tagless_at (s +:+ y) && tagless s' y
  end.

(** The pass [/\n{3,}/g] of the completion filter read as one scan:
    of the line feeds that stand together the first two are kept;
    [near] line feeds stand directly before [s]. *)
Fixpoint newlines_pass (near : nat) (s : string) : string :=
  match s with
  | EmptyString => EmptyString
  | String c s' =>
      if Ascii.eqb c newline then
        if (near <? 2)%nat
        then String c (newlines_pass (S near) s')
        else newlines_pass (S near) s'
      else String c (newlines_pass 0 s')
  end.

(** The pass [/ {2,}/g] read as one scan: of the spaces that stand
    together the first is kept; [spaced] says that a space stands
    directly before [s]. *)
Fixpoint spaces_pass (spaced : bool) (s : string) : string :=
  match s with
  | EmptyString => EmptyString
  | String c s' =>
      if Ascii.eqb c space then
        if spaced then spaces_pass true s' else String c (spaces_pass true s')
      else String c (spaces_pass false s')
  end.

(** Plain spacing.  Before the first character that is no white space
    anything goes.  After it the only white space is the space and the
    line feed, and a line feed that is the third or a later one of its
    run of white space comes directly after two line feeds.  [run] is
    the number of line feeds of the run of white space so far, [near]
    the number of those that stand directly before [s]. *)
Fixpoint plain_spacing_from (started : bool) (run near : nat) (s : string) : bool :=
  match s with
  | EmptyString => true
  | String c s' =>
      if negb (isWhiteSpace c) then plain_spacing_from true 0 0 s'
      else if negb started then plain_spacing_from false 0 0 s'
      else if Ascii.eqb c newline then
        Bool.eqb (near <? 2)%nat (run <? 2)%nat
        && plain_spacing_from true (S run) (S near) s'
      else if Ascii.eqb c space then plain_spacing_from true run 0 s'
      else false
  end.

(** Moreover the text is nothing but white space, or does not end with
    white space. *)
Definition plain_spacing (s : string) : bool :=
  (all_chars isWhiteSpace s || ends_with_text s)
  && plain_spacing_from false 0 0 s.

(** A blank is white space other than the line feed. *)
Definition isBlank (c : ascii) : bool :=
  isWhiteSpace c && negb (Ascii.eqb c newline).

Definition starts_with_blank (s : string) : bool :=
  match s with
  | EmptyString => false
  | String c _ => isBlank c
  end.

Fixpoint ends_with_blank (s : string) : bool :=
  match s with
  | EmptyString => false
  | String c EmptyString => isBlank c
  | String _ s' => ends_with_blank s'
  end.

(** A blank that follows a block is preceded by one: where the text
    that stands outside the blocks goes on with a blank after a block,
    what stands outside the blocks before it ends with a blank, or is
    nothing but white space.  [before] is the text outside the blocks
    that has gone by. *)
Fixpoint junctions_fit (before : string) (m : Marked) : bool :=
  match m with
  | Plain _ => true
  | Blocked s _ _ rest =>
      let p := before +:+ s in
      (negb (starts_with_blank (visible rest))
       || all_chars isWhiteSpace p || ends_with_blank p)
      && junctions_fit p rest
  end.

(** The variables of the generator agree with the text [p] that has gone
    by outside the blocks: nothing has been emitted if [p] is nothing but
    white space, and [lastCharWasSpace] is set if [p] ends with a blank
    and something has been emitted. *)
Definition in_step (v : FilterVars) (p : string) : Prop :=
  (all_chars isWhiteSpace p = true -> streamStarted v = false)
  /\ (ends_with_blank p = true ->
      lastCharWasSpace v = true \/ streamStarted v = false).

(** Outside a block. *)
Definition outside (v : FilterVars) : Prop :=
  isReasoning (state v) = false /\ isSer (state v) = false.

(** * Properties *)

#[local] Arguments String.append !s1 s2 : simpl nomatch.

(** * Facts about strings *)

Lemma append_empty_r (s : string) : s +:+ EmptyString = s.
Proof. induction s as [|c s IH]; simpl; [reflexivity | now rewrite IH]. Qed.

Lemma append_assoc (s t u : string) : (s +:+ t) +:+ u = s +:+ (t +:+ u).
Proof. induction s as [|c s IH]; simpl; [reflexivity | now rewrite IH]. Qed.

Lemma length_append (s t : string) :
  String.length (s +:+ t) = String.length s + String.length t.
Proof. induction s as [|c s IH]; simpl; [reflexivity | now rewrite IH]. Qed.

Lemma truthy_append (s t : string) :
  truthy (s +:+ t) = truthy s || truthy t.
Proof. destruct s; reflexivity. Qed.

Lemma truthy_false (s : string) : truthy s = false -> s = EmptyString.
Proof. destruct s; [reflexivity | discriminate]. Qed.

Lemma startsWith_length (s t : string) :
  startsWith s t = true -> String.length t <= String.length s.
Proof.
  revert s; induction t as [|c t IH]; intros s H; simpl in *; [lia |].
  destruct s as [|d s]; simpl in *; [discriminate |].
  destruct (Ascii.eqb d c); [| discriminate].
  apply IH in H. lia.
Qed.

Lemma startsWith_append (s t x : string) :
  startsWith s t = true -> startsWith (s +:+ x) t = true.
Proof.
  revert s; induction t as [|c t IH]; intros s H; simpl in *; [reflexivity |].
  destruct s as [|d s]; simpl in *; [discriminate |].
  destruct (Ascii.eqb d c); [auto | discriminate].
Qed.

(** Once [s] and [t] differ at a position both have, no text appended to
    [s] makes one a prefix of the other. *)
Lemma startsWith_apart (s t x : string) :
  startsWith s t = false -> startsWith t s = false ->
  startsWith (s +:+ x) t = false /\ startsWith t (s +:+ x) = false.
Proof.
  revert s; induction t as [|c t IH]; intros s H1 H2; simpl in *.
  - discriminate.
  - destruct s as [|d s]; simpl in *; [discriminate |].
    rewrite (eqb_sym c d) in H2 |- *.
    destruct (Ascii.eqb d c); [auto | split; reflexivity].
Qed.

Lemma slice_append (n : nat) (s x : string) :
  n <= String.length s -> slice n (s +:+ x) = slice n s +:+ x.
Proof.
  revert s; induction n as [|n IH]; intros s H; simpl; [reflexivity |].
  destruct s as [|c s]; simpl in *; [lia |]. apply IH. lia.
Qed.

Lemma length_slice (n : nat) (s : string) :
  String.length (slice n s) = String.length s - n.
Proof.
  revert s; induction n as [|n IH]; intros s; simpl; [lia |].
  destruct s as [|c s]; simpl; [reflexivity | apply IH].
Qed.

(** * The scanning loop *)

(** The loop body reads [buffer] nowhere and leaves it as it is. *)
Lemma loop_body_set_buffer (b : string) (v : FilterVars) (r out : string) :
  loop_body (set_buffer b v) r out =
  match loop_body v r out with
  | Break => Break
  | Continue v' r' out' => Continue (set_buffer b v') r' out'
  end.
Proof.
  unfold loop_body. destruct v as [[re se] bf cn lc ss]; simpl.
  repeat match goal with
         | |- context [if ?c then _ else _] => destruct c; simpl; try reflexivity
         | |- context [match ?r with EmptyString => _ | String _ _ => _ end] =>
             destruct r; simpl; try reflexivity
         end.
Qed.

Lemma startsWith_empty (t : string) : startsWith t EmptyString = true.
Proof. destruct t; reflexivity. Qed.

Lemma startsWith_nonempty (s t : string) :
  startsWith t s = false -> 1 <= String.length s.
Proof. destruct s; simpl; [discriminate | lia]. Qed.

Lemma startsWith_true (s t : string) :
  startsWith s t = true -> s = t +:+ slice (String.length t) s.
Proof.
  revert s; induction t as [|c t IH]; intros s H; simpl in *; [reflexivity |].
  destruct s as [|d s]; simpl in *; [discriminate |].
  destruct (Ascii.eqb_spec d c) as [-> | _]; [| discriminate].
  f_equal. now apply IH.
Qed.

(** A test of the loop body that has come out on [r] comes out the same
    on [r +:+ x], unless [r] is a proper prefix of the tag. *)
Ltac settle_tag r tag x :=
  let Hs := fresh "Hs" in
  let Hp := fresh "Hp" in
  destruct (startsWith r tag) eqn:Hs;
  [ rewrite (startsWith_append r tag x Hs)
  | destruct (startsWith tag r) eqn:Hp;
    [ | destruct (startsWith_apart r tag x Hs Hp) as [-> ->] ] ].

Lemma loop_body_append (v : FilterVars) (r out x : string)
    (v' : FilterVars) (r' out' : string) :
  loop_body v r out = Continue v' r' out' ->
  loop_body v (r +:+ x) out = Continue v' (r' +:+ x) out'.
Proof.
  unfold loop_body.
  destruct (isReasoning (state v)).
  { settle_tag r "</think>" x; intros H; try discriminate;
      injection H as <- <- <-; f_equal; apply slice_append.
    - apply startsWith_length in Hs. exact Hs.
    - eapply startsWith_nonempty; eassumption. }
  destruct (isSer (state v)).
  { settle_tag r "</ser>" x; intros H; try discriminate;
      injection H as <- <- <-; f_equal; apply slice_append.
    - apply startsWith_length in Hs. exact Hs.
    - eapply startsWith_nonempty; eassumption. }
  settle_tag r "<think>" x.
  { intros H; injection H as <- <- <-; f_equal; apply slice_append.
    apply startsWith_length in Hs. exact Hs. }
  { (* a proper prefix of the first open tag *)
    destruct (startsWith r "<ser>") eqn:Hs2.
    - rewrite (startsWith_append r _ x Hs2).
      (* cannot be both *)
      exfalso. clear - Hp Hs2.
      apply startsWith_true in Hp, Hs2. rewrite Hs2 in Hp. discriminate Hp.
    - cbn [orb]. discriminate. }
  settle_tag r "<ser>" x.
  { intros H; injection H as <- <- <-; f_equal; apply slice_append.
    apply startsWith_length in Hs0. exact Hs0. }
  { cbn [orb]. discriminate. }
  cbn [orb].
  destruct r as [|char rest]; [discriminate |].
  change (String char rest +:+ x) with (String char (rest +:+ x)).
  cbv beta iota zeta.
  change (slice 1 (String char rest)) with rest.
  change (slice 1 (String char (rest +:+ x))) with (rest +:+ x).
  repeat match goal with
         | |- context [if ?c then _ else _] => destruct c
         end; intros H; injection H as <- <- <-; reflexivity.
Qed.

(** Every iteration that goes on has consumed at least one code unit. *)
Lemma loop_body_shrinks (v : FilterVars) (r out : string)
    (v' : FilterVars) (r' out' : string) :
  loop_body v r out = Continue v' r' out' ->
  String.length r' < String.length r.
Proof.
  unfold loop_body. intros H.
  assert (Hslice : forall n, 1 <= n -> 1 <= String.length r ->
                     String.length (slice n r) < String.length r)
    by (intros n Hn Hr; rewrite length_slice; lia).
  assert (Htag : forall t, 1 <= String.length t -> startsWith r t = true ->
                   String.length (slice (String.length t) r) < String.length r).
  { intros t Ht Hs. apply startsWith_length in Hs. apply Hslice; lia. }
  repeat match type of H with
         | (if startsWith r ?t then _ else _) = _ =>
             let E := fresh "E" in
             destruct (startsWith r t) eqn:E;
             [ injection H as <- <- <-; apply (Htag t); [simpl; lia | exact E] | ]
         | (if startsWith ?t r then _ else _) = _ =>
             let E := fresh "E" in
             destruct (startsWith t r) eqn:E; [discriminate H |]
         | (if startsWith ?t r || startsWith ?u r then _ else _) = _ =>
             destruct (startsWith t r || startsWith u r); [discriminate H |]
         | (if isReasoning _ then _ else _) = _ => destruct (isReasoning (state v))
         | (if isSer _ then _ else _) = _ => destruct (isSer (state v))
         end;
    try (injection H as <- <- <-; apply (Hslice 1); [lia |];
         eapply startsWith_nonempty; eassumption).
  destruct r as [|char rest]; [discriminate H |].
  assert (String.length (slice 1 (String char rest)) < String.length (String char rest))
    by (simpl; lia).
  cbv zeta in H.
  repeat match type of H with
         | (if ?c then _ else _) = _ => destruct c
         end; injection H as <- <- <-; assumption.
Qed.

(** Fuel beyond the length of the text changes nothing: the loop has
    ended by itself, on the empty text or on a [break]. *)
Lemma while_loop_enough (n m : nat) (v : FilterVars) (r out : string) :
  String.length r <= n -> String.length r <= m ->
  while_loop n v r out = while_loop m v r out.
Proof.
  revert m v r out; induction n as [|n IH]; intros m v r out Hn Hm.
  - destruct r; simpl in Hn; [| lia]. destruct m; reflexivity.
  - destruct m as [|m].
    + destruct r; simpl in Hm; [| lia]. reflexivity.
    + simpl. destruct r as [|c r]; [reflexivity |].
      destruct (loop_body v (String c r) out) as [|v' r' out'] eqn:E; [reflexivity |].
      apply loop_body_shrinks in E. simpl in *. apply IH; lia.
Qed.

Lemma scan_empty (v : FilterVars) (out : string) :
  scan v EmptyString out = (v, EmptyString, out).
Proof. reflexivity. Qed.

Lemma scan_step (v : FilterVars) (c : ascii) (r out : string) :
  scan v (String c r) out =
  match loop_body v (String c r) out with
  | Break => (v, String c r, out)
  | Continue v' r' out' => scan v' r' out'
  end.
Proof.
  unfold scan. simpl.
  destruct (loop_body v (String c r) out) as [|v' r' out'] eqn:E; [reflexivity |].
  apply loop_body_shrinks in E. simpl in E. apply while_loop_enough; lia.
Qed.

(** The loop is left the way the source leaves it: with nothing to scan,
    or on a [break]. *)
Lemma scan_stops (n : nat) :
  forall (v : FilterVars) (r out : string) (v' : FilterVars) (r' out' : string),
    String.length r <= n ->
    scan v r out = (v', r', out') ->
    r' = EmptyString \/ loop_body v' r' out' = Break.
Proof.
  induction n as [|n IH]; intros v r out v' r' out' Hn E.
  - destruct r; simpl in Hn; [| lia]. rewrite scan_empty in E.
    injection E as <- <- <-. left; reflexivity.
  - destruct r as [|c r].
    + rewrite scan_empty in E. injection E as <- <- <-. left; reflexivity.
    + rewrite scan_step in E.
      destruct (loop_body v (String c r) out) as [|v1 r1 out1] eqn:B.
      * injection E as <- <- <-. right; exact B.
      * apply loop_body_shrinks in B as Hlt. simpl in Hlt, Hn.
        apply (IH v1 r1 out1); [lia | exact E].
Qed.

(** Scanning a text and then, with what was left of it, the text that
    follows, is scanning the two texts as one. *)
Lemma scan_append (x : string) (n : nat) :
  forall (v : FilterVars) (r out : string),
    String.length r <= n ->
    scan v (r +:+ x) out =
    let '(v1, r1, out1) := scan v r out in scan v1 (r1 +:+ x) out1.
Proof.
  induction n as [|n IH]; intros v r out Hn.
  - destruct r; simpl in Hn; [| lia]. rewrite scan_empty. reflexivity.
  - destruct r as [|c r]; [rewrite scan_empty; reflexivity |].
    change (String c r +:+ x) with (String c (r +:+ x)).
    rewrite !scan_step.
    change (String c (r +:+ x)) with (String c r +:+ x).
    destruct (loop_body v (String c r) out) as [|v' r' out'] eqn:E.
    + change (String c r +:+ x) with (String c (r +:+ x)).
      rewrite scan_step. reflexivity.
    + rewrite (loop_body_append _ _ _ x _ _ _ E).
      apply loop_body_shrinks in E. simpl in E, Hn. apply IH. lia.
Qed.

(** [outputContent] is only ever appended to. *)
Lemma loop_body_output (v : FilterVars) (r out : string) :
  loop_body v r out =
  match loop_body v r EmptyString with
  | Break => Break
  | Continue v' r' o => Continue v' r' (out +:+ o)
  end.
Proof.
  unfold loop_body.
  repeat match goal with
         | |- context [if ?c then _ else _] => destruct c
         | |- context [match ?s with EmptyString => _ | String _ _ => _ end] =>
             destruct s
         end;
    cbv zeta; rewrite ?append_empty_r; reflexivity.
Qed.

Lemma scan_output (n : nat) :
  forall (v : FilterVars) (r out : string),
    String.length r <= n ->
    scan v r out =
    let '(v', r', o) := scan v r EmptyString in (v', r', out +:+ o).
Proof.
  induction n as [|n IH]; intros v r out Hn.
  - destruct r; simpl in Hn; [| lia]. rewrite !scan_empty, append_empty_r. reflexivity.
  - destruct r as [|c r]; [rewrite !scan_empty, append_empty_r; reflexivity |].
    rewrite !scan_step, (loop_body_output v (String c r) out).
    destruct (loop_body v (String c r) EmptyString) as [|v' r' o] eqn:E.
    + rewrite append_empty_r. reflexivity.
    + apply loop_body_shrinks in E. simpl in E, Hn.
      rewrite (IH v' r' (out +:+ o)), (IH v' r' o) by lia.
      destruct (scan v' r' EmptyString) as [[v2 r2] o2].
      rewrite append_assoc. reflexivity.
Qed.

Lemma set_buffer_twice (a b : string) (v : FilterVars) :
  set_buffer a (set_buffer b v) = set_buffer a v.
Proof. reflexivity. Qed.

Lemma scan_set_buffer (b : string) (n : nat) :
  forall (v : FilterVars) (r out : string),
    String.length r <= n ->
    scan (set_buffer b v) r out =
    let '(v', r', o) := scan v r out in (set_buffer b v', r', o).
Proof.
  induction n as [|n IH]; intros v r out Hn.
  - destruct r; simpl in Hn; [| lia]. reflexivity.
  - destruct r as [|c r]; [reflexivity |].
    rewrite !scan_step, loop_body_set_buffer.
    destruct (loop_body v (String c r) out) as [|v' r' o] eqn:E; [reflexivity |].
    apply loop_body_shrinks in E. simpl in E, Hn. apply IH. lia.
Qed.

Lemma process_fragment_scan (v : FilterVars) (content : string) :
  process_fragment v content =
  let '(v', r, o) := scan v (buffer v +:+ content) EmptyString in
  (set_buffer r v', o).
Proof. reflexivity. Qed.

(** The loop body never assigns [buffer]. *)
Lemma loop_body_buffer (v : FilterVars) (r out : string)
    (v' : FilterVars) (r' out' : string) :
  loop_body v r out = Continue v' r' out' -> buffer v' = buffer v.
Proof.
  unfold loop_body.
  repeat match goal with
         | |- context [if ?c then _ else _] => destruct c
         | |- context [match ?s with EmptyString => _ | String _ _ => _ end] =>
             destruct s
         end;
    cbv zeta; intros H; try discriminate H; injection H as <- _ _; reflexivity.
Qed.

(** Re-chunking, for one split: a fragment handed over in two pieces
    gives the output of the whole fragment, in two pieces, and leaves the
    same variables. *)
Lemma process_fragment_append (v : FilterVars) (a b : string) :
  process_fragment v (a +:+ b) =
  let '(v1, o1) := process_fragment v a in
  let '(v2, o2) := process_fragment v1 b in
  (v2, o1 +:+ o2).
Proof.
  rewrite !process_fragment_scan, <- append_assoc.
  rewrite (scan_append b (String.length (buffer v +:+ a))) by lia.
  destruct (scan v (buffer v +:+ a) EmptyString) as [[v1 r1] o1].
  rewrite process_fragment_scan.
  change (buffer (set_buffer r1 v1)) with r1.
  rewrite (scan_set_buffer r1 (String.length (r1 +:+ b))) by lia.
  rewrite (scan_output (String.length (r1 +:+ b)) v1 _ o1) by lia.
  destruct (scan v1 (r1 +:+ b) EmptyString) as [[v2 r2] o2].
  reflexivity.
Qed.

(** * The generator, read as text *)

#[local] Arguments process_fragment : simpl never.

Lemma join_app (l1 l2 : list string) : join_all (l1 ++ l2) = join_all l1 +:+ join_all l2.
Proof.
  induction l1 as [|s l1 IH]; simpl; [reflexivity |].
  now rewrite IH, append_assoc.
Qed.

Lemma stream_text_fragments (stream : list ChatCompletionChunk) :
  stream_text stream = join_all (fragments_of stream).
Proof.
  unfold stream_text, fragments_of.
  induction stream as [|k stream IH]; simpl; [reflexivity |].
  now rewrite join_app, IH.
Qed.

Lemma outputs_app (fs1 fs2 : list string) (v : FilterVars) :
  outputs v (fs1 ++ fs2) = outputs v fs1 +:+ outputs (vars_after v fs1) fs2.
Proof.
  revert v; induction fs1 as [|f fs1 IH]; intros v; simpl; [reflexivity |].
  destruct (truthy f); [| apply IH].
  destruct (process_fragment v f) as [v' o]; simpl.
  now rewrite IH, append_assoc.
Qed.

Lemma vars_after_app (fs1 fs2 : list string) (v : FilterVars) :
  vars_after v (fs1 ++ fs2) = vars_after (vars_after v fs1) fs2.
Proof.
  revert v; induction fs1 as [|f fs1 IH]; intros v; simpl; [reflexivity |].
  destruct (truthy f); apply IH.
Qed.

(** What one choice contributes: its text filtered, whether the choice is
    re-emitted with that text, re-emitted for its finish reason, passed
    through, or dropped. *)
Lemma filter_choice_text (v : FilterVars) (c : Choice) :
  let '(v', pushed) := filter_choice v c in
  match pushed with
  | Some c' => choice_text c'
  | None => EmptyString
  end = outputs v [choice_text c]
  /\ v' = vars_after v [choice_text c].
Proof.
  destruct c as [i m [[[s|] fc ro tcs]|] fr lp];
    unfold filter_choice, choice_text; simpl;
    try (split; reflexivity).
  destruct (truthy s) eqn:Hs;
    [| apply truthy_false in Hs; subst s; split; reflexivity].
  destruct (process_fragment v s) as [v' o]. simpl.
  rewrite append_empty_r.
  destruct (truthy o) eqn:Ho; [split; reflexivity |].
  apply truthy_false in Ho. subst o.
  destruct (truthy_opt fr); split; reflexivity.
Qed.

Lemma filter_choices_text (cs : list Choice) (v : FilterVars) :
  let '(v', newChoices) := filter_choices v cs in
  join_all (map choice_text newChoices) = outputs v (map choice_text cs)
  /\ v' = vars_after v (map choice_text cs).
Proof.
  revert v; induction cs as [|c cs IH]; intros v; [split; reflexivity |].
  cbn [filter_choices].
  pose proof (filter_choice_text v c) as Hc.
  destruct (filter_choice v c) as [v1 pushed]. destruct Hc as [Hc ->].
  specialize (IH (vars_after v [choice_text c])).
  destruct (filter_choices (vars_after v [choice_text c]) cs) as [v2 newChoices].
  destruct IH as [IH ->].
  change (map choice_text (c :: cs)) with ([choice_text c] ++ map choice_text cs).
  rewrite outputs_app, vars_after_app, <- Hc, <- IH.
  split; [| reflexivity].
  destruct pushed; reflexivity.
Qed.

Lemma filter_chunk_text (v : FilterVars) (k : ChatCompletionChunk) :
  let '(v', yielded) := filter_chunk v k in
  match yielded with
  | Some k' => chunk_text k'
  | None => EmptyString
  end = outputs v (map choice_text (k_choices k))
  /\ v' = vars_after v (map choice_text (k_choices k)).
Proof.
  unfold filter_chunk.
  pose proof (filter_choices_text (k_choices k) v) as H.
  destruct (filter_choices v (k_choices k)) as [v' newChoices].
  destruct H as [H ->]. split; [| reflexivity].
  rewrite <- H. destruct newChoices; reflexivity.
Qed.

(** The text read off the filtered stream is the output of the filter
    over the fragments, whatever chunks and choices they came in. *)
Lemma filtered_from_text (stream : list ChatCompletionChunk) (v : FilterVars) :
  stream_text (filtered_from v stream) = outputs v (fragments_of stream).
Proof.
  revert v; induction stream as [|k stream IH]; intros v; [reflexivity |].
  cbn [filtered_from fragments_of flat_map].
  pose proof (filter_chunk_text v k) as H.
  destruct (filter_chunk v k) as [v' yielded]. destruct H as [H ->].
  rewrite outputs_app, <- H, <- (IH _).
  destruct yielded; reflexivity.
Qed.

(** The output over any fragments is the output over their
    concatenation as one fragment. *)
Lemma outputs_join (fragments : list string) (v : FilterVars) :
  outputs v fragments = outputs v [join_all fragments].
Proof.
  revert v; induction fragments as [|f fs IH]; intros v; [reflexivity |].
  cbn [outputs join_all]. rewrite truthy_append.
  destruct (truthy f) eqn:Hf.
  - cbn [orb]. destruct (process_fragment v f) as [v1 o1] eqn:E1.
    rewrite IH. cbn [outputs].
    destruct (truthy (join_all fs)) eqn:Hj.
    + rewrite process_fragment_append, E1.
      destruct (process_fragment v1 (join_all fs)) as [v2 o2].
      now rewrite !append_empty_r.
    + apply truthy_false in Hj. rewrite Hj, (append_empty_r f), E1. reflexivity.
  - apply truthy_false in Hf. subst f. cbn [orb]. rewrite IH. reflexivity.
Qed.

Lemma stream_text_text_chunks (i : Z) (fragments : list string) :
  stream_text (map (text_chunk i) fragments) = join_all fragments.
Proof.
  unfold stream_text.
  induction fragments as [|f fs IH]; [reflexivity |].
  cbn [map join_all]. rewrite IH.
  unfold chunk_text. cbn. now rewrite append_empty_r.
Qed.

Lemma filtered_text_whole (i : Z) (stream : list ChatCompletionChunk) :
  stream_text (createFilteredStreamGenerator stream) =
  stream_text (createFilteredStreamGenerator [text_chunk i (stream_text stream)]).
Proof.
  unfold createFilteredStreamGenerator. rewrite !filtered_from_text.
  rewrite outputs_join, stream_text_fragments. f_equal.
Qed.

(** C1.  Re-chunking invariance: the text read off the filtered stream is
    the same whether a text arrives as the fragments [fragments], one per
    chunk, or whole as one fragment.  The fragments are any list of
    strings, so a split may fall anywhere, also inside a tag.  More
    generally, any stream of chunks, whatever their choices and the other
    fields of these, gives the filtered text of its whole text handed
    over as one fragment. *)
Theorem rechunking_invariance (fragments : list string) (i : Z)
    (stream : list ChatCompletionChunk) :
  stream_text (createFilteredStreamGenerator (map (text_chunk i) fragments)) =
    stream_text (createFilteredStreamGenerator [text_chunk i (join_all fragments)])
  /\ stream_text (createFilteredStreamGenerator stream) =
       stream_text (createFilteredStreamGenerator [text_chunk i (stream_text stream)]).
Proof.
  split; [| apply filtered_text_whole].
  rewrite (filtered_text_whole i (map (text_chunk i) fragments)).
  now rewrite stream_text_text_chunks.
Qed.

(** C7.  What the code emits for the fragment ["text <thi"] followed by
    the end of the stream is the word and the space that follows it: the
    filter does not trim.  The partial tag is still in [buffer] when the
    stream ends and is emitted nowhere. *)
Theorem dangling_open_tag :
  stream_text (createFilteredStreamGenerator [text_chunk 0 "text <thi"]) = "text "
  /\ buffer (vars_after initialVars (fragments_of [text_chunk 0 "text <thi"])) = "<thi".
Proof. split; vm_compute; reflexivity. Qed.

(** C7 as the specification states it does not hold: the emitted text
    is not exactly ["text"]. *)
Lemma dangling_open_tag_not_text :
  stream_text (createFilteredStreamGenerator [text_chunk 0 "text <thi"]) <> "text".
Proof. vm_compute. discriminate. Qed.

(** Two examples of the specification: a block whose open and close
    tags are each split over two fragments, and a run of four line
    feeds. *)
Example split_tags_removed :
  stream_text (createFilteredStreamGenerator
                 (map (text_chunk 0) ["Hello <thi"; "nk>hidden</thi"; "nk> world"]))
  = "Hello world".
Proof. vm_compute. reflexivity. Qed.

Example newline_run_capped :
  stream_text (createFilteredStreamGenerator
                 [text_chunk 0 ("a" +:+ repeat_char newline 4 +:+ "b")])
  = "a" +:+ repeat_char newline 2 +:+ "b".
Proof. vm_compute. reflexivity. Qed.

(** * One state for all choice indices *)

Lemma filter_choice_reindex (f : Z -> Z) (v : FilterVars) (c : Choice) :
  filter_choice v (reindex_choice f c) =
  let '(v', pushed) := filter_choice v c in (v', reindex_choice f <$> pushed).
Proof.
  destruct c as [i m [d|] fr lp]; unfold filter_choice, reindex_choice; simpl;
    [| reflexivity].
  destruct (truthy_opt (d_content d)); [| reflexivity].
  destruct (process_fragment v (default EmptyString (d_content d))) as [v' o].
  destruct (truthy o); [reflexivity |].
  destruct (truthy_opt fr); reflexivity.
Qed.

Lemma filter_choices_reindex (f : Z -> Z) (cs : list Choice) (v : FilterVars) :
  filter_choices v (map (reindex_choice f) cs) =
  let '(v', newChoices) := filter_choices v cs in
  (v', map (reindex_choice f) newChoices).
Proof.
  revert v; induction cs as [|c cs IH]; intros v; [reflexivity |].
  cbn [map filter_choices]. rewrite filter_choice_reindex.
  destruct (filter_choice v c) as [v1 pushed]. rewrite IH.
  destruct (filter_choices v1 cs) as [v2 newChoices].
  destruct pushed; reflexivity.
Qed.

Lemma filter_chunk_reindex (f : Z -> Z) (v : FilterVars) (k : ChatCompletionChunk) :
  filter_chunk v (reindex f k) =
  let '(v', yielded) := filter_chunk v k in (v', reindex f <$> yielded).
Proof.
  unfold filter_chunk. cbn [reindex k_choices]. rewrite filter_choices_reindex.
  destruct (filter_choices v (k_choices k)) as [v' newChoices].
  destruct newChoices; reflexivity.
Qed.

Lemma filtered_from_reindex (f : Z -> Z) (stream : list ChatCompletionChunk)
    (v : FilterVars) :
  filtered_from v (map (reindex f) stream) = map (reindex f) (filtered_from v stream).
Proof.
  revert v; induction stream as [|k stream IH]; intros v; [reflexivity |].
  cbn [map filtered_from]. rewrite filter_chunk_reindex.
  destruct (filter_chunk v k) as [v' [k'|]]; cbn [fmap option_fmap option_map map];
    now rewrite IH.
Qed.

(** C4, in the form that holds of the code.  The generator keeps one
    set of variables for
    the whole stream and never reads [choice.index]: renaming the indices
    of the incoming choices in any way, also onto one single index,
    renames the indices of the outgoing choices and changes nothing else.
    The text emitted, all indices together, is the filter run over all
    the fragments in arrival order. *)
Theorem one_state_for_all_indices (f : Z -> Z) (stream : list ChatCompletionChunk) :
  createFilteredStreamGenerator (map (reindex f) stream) =
    map (reindex f) (createFilteredStreamGenerator stream)
  /\ stream_text (createFilteredStreamGenerator stream) =
       outputs initialVars (fragments_of stream).
Proof.
  split; [apply filtered_from_reindex | apply filtered_from_text].
Qed.

(** C4 as the specification states it does not hold: a reasoning block
    opened by a
    fragment of index 0 swallows the text of index 1. *)
Lemma per_index_state_fails :
  let stream := [text_chunk 0 "<think>"; text_chunk 1 "hello"] in
  stream_text_at 1 (createFilteredStreamGenerator stream) <>
  stream_text_at 1 (createFilteredStreamGenerator (only_index 1 stream)).
Proof. vm_compute. discriminate. Qed.

(** * The emission policy *)

Lemma filtered_from_vars (stream : list ChatCompletionChunk) (v : FilterVars) :
  forall after,
    filtered_from v (stream ++ after) =
    filtered_from v stream ++
    filtered_from (vars_after v (fragments_of stream)) after.
Proof.
  revert v; induction stream as [|k stream IH]; intros v after; [reflexivity |].
  cbn [app filtered_from fragments_of flat_map].
  pose proof (filter_chunk_text v k) as H.
  destruct (filter_chunk v k) as [v' yielded]. destruct H as [_ ->].
  rewrite vars_after_app, IH.
  destruct yielded; reflexivity.
Qed.

(** What the generator does with one choice is the policy. *)
Lemma filter_choice_kept (v : FilterVars) (c : Choice) :
  filter_choice v c = (vars_after v [choice_text c], kept_choice v c).
Proof.
  destruct c as [i m [[[s|] fc ro tcs]|] fr lp];
    unfold filter_choice, kept_choice, choice_text, re_emitted; simpl;
    try reflexivity.
  destruct (truthy s) eqn:Hs; [| reflexivity].
  destruct (process_fragment v s) as [v' o]. simpl.
  destruct (truthy o); [reflexivity |].
  destruct (truthy_opt fr); reflexivity.
Qed.

Lemma filter_choices_kept (cs : list Choice) (v : FilterVars) :
  filter_choices v cs = (vars_after v (map choice_text cs), kept_choices v cs).
Proof.
  revert v; induction cs as [|c cs IH]; intros v; [reflexivity |].
  cbn [filter_choices kept_choices]. rewrite filter_choice_kept, IH.
  change (map choice_text (c :: cs)) with ([choice_text c] ++ map choice_text cs).
  rewrite vars_after_app. destruct (kept_choice v c); reflexivity.
Qed.

Lemma filter_chunk_kept (v : FilterVars) (k : ChatCompletionChunk) :
  filter_chunk v k =
  (vars_after v (map choice_text (k_choices k)),
   match kept_choices v (k_choices k) with
   | [] => None
   | kept => Some (with_choices k kept)
   end).
Proof.
  unfold filter_chunk. rewrite filter_choices_kept.
  destruct (kept_choices v (k_choices k)); reflexivity.
Qed.

(** C6, in the form that holds of the code.  The filtered stream is the
    incoming stream in arrival order, each chunk giving at most one
    chunk.  The policy is one of choices: a chunk [k], met after the
    chunks [before], is emitted when at least one of its choices is
    kept, and then with the kept choices, in their order, in the place
    of its choices; a chunk none of whose choices is kept, and so a chunk
    without choices, is dropped.  A choice that bears text is kept when
    its filtered text is not empty, with that text, or when it has a
    finish reason, then without text; a choice that bears no text
    ([delta.content] absent, or empty) is kept as it is.  The filtered
    text is the output of the scan from the variables left by what came
    before.  A finish reason is had when [finish_reason] is a non-empty
    string.  For a chunk with the one choice [c] this is the policy of
    the specification. *)
Theorem emission_policy (before after : list ChatCompletionChunk)
    (k : ChatCompletionChunk) :
  let v := vars_after initialVars (fragments_of before) in
  let rest := filtered_from (vars_after v (map choice_text (k_choices k))) after in
  createFilteredStreamGenerator (before ++ k :: after) =
    createFilteredStreamGenerator before
    ++ match kept_choices v (k_choices k) with
       | [] => []
       | kept => [with_choices k kept]
       end
    ++ rest
  /\ forall c : Choice,
       k_choices k = [c] ->
       let filtered := snd (process_fragment v (choice_text c)) in
       createFilteredStreamGenerator (before ++ k :: after) =
         createFilteredStreamGenerator before
         ++ (if truthy (choice_text c) then
               if truthy filtered || truthy_opt (finish_reason c)
               then [with_choices k
                       [re_emitted c (if truthy filtered then Some filtered else None)]]
               else []
             else [k])
         ++ rest.
Proof.
  intros v rest.
  assert (Hall : createFilteredStreamGenerator (before ++ k :: after) =
                 createFilteredStreamGenerator before
                 ++ match kept_choices v (k_choices k) with
                    | [] => []
                    | kept => [with_choices k kept]
                    end
                 ++ rest).
  { unfold createFilteredStreamGenerator.
    rewrite filtered_from_vars. fold v. f_equal.
    cbn [filtered_from]. rewrite (filter_chunk_kept v k). fold rest.
    destruct (kept_choices v (k_choices k)); reflexivity. }
  split; [exact Hall |].
  intros c Hk filtered. rewrite Hall. f_equal. f_equal.
  rewrite Hk. cbn [kept_choices]. unfold kept_choice. fold filtered.
  destruct k as [kid kc km kcs ko kf]. cbn [k_choices] in Hk. subst kcs.
  destruct (truthy (choice_text c)); [| reflexivity].
  destruct (truthy filtered); [reflexivity |].
  destruct (truthy_opt (finish_reason c)); reflexivity.
Qed.

(** A chunk whose text filters to nothing but which has a finish reason
    is emitted, without text. *)
Lemma emission_policy_witness :
  createFilteredStreamGenerator ([text_chunk 0 "<think>"] ++ stop_chunk 0 "x" :: [])
  = [with_choices (stop_chunk 0 "x") [re_emitted (stop_choice 0 "x") None]].
Proof.
  rewrite (proj2 (emission_policy [text_chunk 0 "<think>"] [] (stop_chunk 0 "x"))
             (stop_choice 0 "x") eq_refl).
  vm_compute. reflexivity.
Defined.

(** C6 as the specification states it does not hold of every chunk.  A
    chunk without choices has no [delta.content], and is not emitted.  A
    chunk of two choices whose text filters to nothing and which has no
    finish reason is emitted all the same, for its other choice, and
    without the choice that bore the text. *)
Lemma chunk_without_choices_dropped :
  createFilteredStreamGenerator [with_choices (text_chunk 0 EmptyString) []] = []
  /\ createFilteredStreamGenerator
       [with_choices (text_chunk 0 "<think>") [text_choice 0 "<think>"; bare_choice 1]]
     = [with_choices (text_chunk 0 "<think>") [bare_choice 1]].
Proof. split; vm_compute; reflexivity. Qed.

(** * The completion filter changes the content and nothing else *)

Lemma filterCompletion_choice_frame (c : Choice) :
  filterCompletion_choice c =
  if truthy_opt (message_content c)
  then with_message_content c (filterThinkSerBlocks (message_content c))
  else c.
Proof.
  destruct c as [i [m|] d fr lp];
    unfold filterCompletion_choice, message_content, with_message_content; simpl;
    [| reflexivity].
  destruct (truthy_opt (m_content m)); reflexivity.
Qed.

(** C10.  [filterCompletion] returns the completion with the same [id],
    [created], [model], [object], [system_fingerprint] and [usage], and
    with as many choices, in the same order.  A choice whose message has
    a non-empty content comes back with that content filtered and with
    its [index], [finish_reason], [logprobs], and the [role],
    [tool_calls] and [function_call] of its message as they were; every
    other choice comes back as it was. *)
Theorem filterCompletion_frame (completion : ChatCompletion) :
  let filtered := filterCompletion completion in
  id filtered = id completion
  /\ created filtered = created completion
  /\ model filtered = model completion
  /\ object filtered = object completion
  /\ system_fingerprint filtered = system_fingerprint completion
  /\ usage filtered = usage completion
  /\ Forall2
       (fun c c' =>
          index c' = index c
          /\ finish_reason c' = finish_reason c
          /\ logprobs c' = logprobs c
          /\ m_role <$> message c' = m_role <$> message c
          /\ m_tool_calls <$> message c' = m_tool_calls <$> message c
          /\ m_function_call <$> message c' = m_function_call <$> message c
          /\ if truthy_opt (message_content c)
             then message_content c' = filterThinkSerBlocks (message_content c)
             else c' = c)
       (choices completion) (choices filtered).
Proof.
  cbv zeta. repeat (split; [reflexivity |]).
  unfold filterCompletion. cbn [choices].
  induction (choices completion) as [|c cs IH]; cbn [map]; constructor; [| exact IH].
  rewrite filterCompletion_choice_frame.
  destruct (truthy_opt (message_content c)) eqn:E; [| repeat split; reflexivity].
  unfold with_message_content, message_content in *.
  destruct (message c) as [m|]; [| discriminate E].
  repeat split; reflexivity.
Qed.

(** * The error classifier *)

Lemma until_quote_found (before rest : string) :
  count_quotes before = 0 ->
  until_quote (before +:+ String quote rest) = Some (before, rest).
Proof.
  induction before as [|c before IH]; intros H; [reflexivity |].
  simpl in *. destruct (Ascii.eqb c quote); [discriminate H |].
  now rewrite IH.
Qed.

Lemma until_quote_count (s before rest : string) :
  until_quote s = Some (before, rest) ->
  count_quotes s = S (count_quotes rest).
Proof.
  revert before; induction s as [|c s IH]; intros before H; simpl in *;
    [discriminate H |].
  destruct (Ascii.eqb c quote); [injection H as <- <-; reflexivity |].
  destruct (until_quote s) as [[b r]|]; [| discriminate H].
  injection H as <- <-. now apply (IH b).
Qed.

Lemma match_quoted_found (before group1 after : string) :
  count_quotes before = 0 -> count_quotes group1 = 0 ->
  match_quoted (before +:+ "'" +:+ group1 +:+ "'" +:+ after) = Some group1.
Proof.
  intros Hb Hg. unfold match_quoted.
  change (before +:+ "'" +:+ group1 +:+ "'" +:+ after)
    with (before +:+ String quote (group1 +:+ String quote after)).
  rewrite (until_quote_found _ _ Hb), (until_quote_found _ _ Hg). reflexivity.
Qed.

Lemma match_quoted_none (s : string) :
  count_quotes s < 2 -> match_quoted s = None.
Proof.
  intros H. unfold match_quoted.
  destruct (until_quote s) as [[b r]|] eqn:E1; [| reflexivity].
  destruct (until_quote r) as [[g a]|] eqn:E2; [| reflexivity].
  apply until_quote_count in E1, E2. lia.
Qed.


Lemma error_envelope_read (response : Response) :
  json response <> Some JNull ->
  exists errorMessage errorType errorCode,
    error_envelope response = Some (errorMessage, errorType, errorCode).
Proof.
  intros H. unfold error_envelope, errorData.
  destruct (json response) as [[| | | | |fields]|]; try congruence;
    try (simpl; eauto; fail).
  simpl. destruct (lookup_field "error" fields) as [[| | | | |]|]; simpl; eauto.
Qed.

Section ClassifierFacts.

Variable number_text : Z -> string.

#[local] Abbreviation classify := (handleErrorResponse number_text).

(** C8.  A response with status 400 whose message mentions a model is
    classified as [InvalidModelError], with [param] set to ["model"] and
    the status kept.  The error carries the model in its message: the
    name put there is the text between the first two single quotes of
    the message of the response; with fewer than two single quotes in
    that message it is ["Unknown model"], and the classification is the
    same otherwise. *)
Theorem invalid_model_extraction (response : Response) (errorMessage : string)
    (errorType errorCode : option JSON) :
  status response = 400%Z ->
  error_envelope response = Some (JStr errorMessage, errorType, errorCode) ->
  includes (toLowerCase errorMessage) "model" = true ->
  exists e,
    classify response = Classified e
    /\ class e = InvalidModelError
    /\ name e = "InvalidModelError"
    /\ param e = Some "model"
    /\ statusCode e = Some 400%Z
    /\ headers e = Some (extractHeaders response)
    /\ (forall before model after : string,
          count_quotes before = 0 -> count_quotes model = 0 ->
          errorMessage = before +:+ "'" +:+ model +:+ "'" +:+ after ->
          e_message e =
          "Model '" +:+ model
          +:+ "' not found. Available models can be found at https://api.helpingai.co/v1/models")
    /\ (count_quotes errorMessage < 2 ->
        e_message e =
        "Model 'Unknown model' not found. Available models can be found at https://api.helpingai.co/v1/models").
Proof.
  intros Hs Hm Hi. unfold handleErrorResponse.
  rewrite Hm, Hs, Hi. cbn [Z.eqb Pos.eqb]. cbv zeta.
  eexists. split; [reflexivity |].
  repeat (split; [reflexivity |]). split.
  - intros before model after Hb Hg ->. now rewrite match_quoted_found.
  - intros Hq. now rewrite match_quoted_none.
Qed.

(** Status 429 gives a [TooManyRequestsError], which is a
    [RateLimitError], unless the body is [null]; its [retryAfter] is
    [parseInt] of the header [retry-after] when the response has one, and
    absent when it has none. *)
Lemma rate_limit_classification (response : Response) :
  status response = 429%Z ->
  json response <> Some JNull ->
  let e := new_TooManyRequestsError (Some 429%Z) (Some (extractHeaders response)) in
  classify response = Classified e
  /\ instanceof (class e) RateLimitError = true
  /\ retryAfter e = parseInt <$> (extractHeaders response !! "retry-after").
Proof.
  intros Hs Hj. cbv zeta. unfold handleErrorResponse.
  destruct (error_envelope_read response Hj) as (msg & ty & co & ->).
  rewrite Hs. cbn [Z.eqb Pos.eqb].
  split; [reflexivity |]. split; [reflexivity |].
  unfold new_TooManyRequestsError, new_RateLimitError, getRetryAfterFromHeaders.
  cbn [with_class retryAfter].
  destruct (extractHeaders response !! "retry-after"); reflexivity.
Qed.

Example retry_after_60 :
  retryAfter <$> classified (classify
                               (failed_response 429 "slow down" [("retry-after", "60")]))
  = Some (Some (Num 60))
  /\ retryAfter <$> classified (classify (failed_response 429 "slow down" []))
     = Some None.
Proof. split; vm_compute; reflexivity. Qed.

(** C9.  With a [retry-after] header that holds no number, here an HTTP
    date, [retryAfter] is not absent: it is [NaN].  [parseInt] throws
    nothing, so the [catch] of [getRetryAfterFromHeaders], which would
    return [undefined], is never entered. *)
Theorem retry_after_unparsable :
  retryAfter <$> classified
                   (classify
                      (failed_response 429 "slow down"
                         [("retry-after", "Wed, 21 Oct 2015 07:28:00 GMT")]))
  = Some (Some NaN).
Proof. vm_compute. reflexivity. Qed.

End ClassifierFacts.

(** The message [Model 'gpt-x' not found] gives the model [gpt-x]. *)
Lemma invalid_model_extraction_witness :
  exists e,
    handleErrorResponse decimal (failed_response 400 "Model 'gpt-x' not found" [])
    = Classified e
    /\ e_message e =
       "Model 'gpt-x' not found. Available models can be found at https://api.helpingai.co/v1/models".
Proof.
  destruct (invalid_model_extraction decimal
              (failed_response 400 "Model 'gpt-x' not found" [])
              "Model 'gpt-x' not found" None None eq_refl eq_refl eq_refl)
    as (e & He & _ & _ & _ & _ & _ & H & _).
  exists e. split; [exact He |].
  apply (H "Model " "gpt-x" " not found"); reflexivity.
Defined.

(** * The event framer *)

Section FramerFacts.

Variable JSON_parse : string -> JSON + string.
Variable TypeError_text : string.

#[local] Abbreviation on_line := (handle_line JSON_parse TypeError_text).
#[local] Abbreviation on_lines := (handle_lines JSON_parse TypeError_text).
#[local] Abbreviation on_reads := (handle_reads JSON_parse TypeError_text).
#[local] Abbreviation line_run := (line_run JSON_parse TypeError_text).

Lemma and_then_next_l (p : list WireChunk * Flow) : and_then ([], Next) p = p.
Proof. destruct p; reflexivity. Qed.

Lemma and_then_next_r (p : list WireChunk * Flow) : and_then p ([], Next) = p.
Proof.
  destruct p as [cs [| |e]]; unfold and_then; cbn [fst snd];
    rewrite ?app_nil_r; reflexivity.
Qed.

Lemma and_then_assoc (p q r : list WireChunk * Flow) :
  and_then (and_then p q) r = and_then p (and_then q r).
Proof.
  destruct p as [cs1 [| |e1]]; [| reflexivity | reflexivity].
  destruct q as [cs2 [| |e2]]; unfold and_then; cbn [fst snd];
    rewrite ?app_assoc; reflexivity.
Qed.

Lemma handle_lines_cons (line : string) (lines : list string) :
  on_lines (line :: lines) = and_then (line_run line) (on_lines lines).
Proof.
  cbn [handle_lines]. unfold line_run.
  destruct (on_line line) as [[chunk|] [| |e]];
    destruct (on_lines lines) as [cs fl]; reflexivity.
Qed.

Lemma handle_lines_app (lines1 lines2 : list string) :
  on_lines (lines1 ++ lines2) = and_then (on_lines lines1) (on_lines lines2).
Proof.
  induction lines1 as [|l lines1 IH].
  - cbn [app handle_lines]. now rewrite and_then_next_l.
  - cbn [app]. now rewrite !handle_lines_cons, IH, and_then_assoc.
Qed.

Lemma handle_reads_cons (read : string) (reads : list string) :
  on_reads (read :: reads) =
  and_then (on_lines (split_lines read)) (on_reads reads).
Proof.
  cbn [handle_reads].
  destruct (on_lines (split_lines read)) as [cs [| |e]];
    destruct (on_reads reads) as [cs' fl]; reflexivity.
Qed.

Lemma handle_reads_app (reads1 reads2 : list string) :
  on_reads (reads1 ++ reads2) = and_then (on_reads reads1) (on_reads reads2).
Proof.
  induction reads1 as [|r reads1 IH].
  - cbn [app handle_reads]. now rewrite and_then_next_l.
  - cbn [app]. now rewrite !handle_reads_cons, IH, and_then_assoc.
Qed.

Lemma blank_line : line_run EmptyString = ([], Next).
Proof. reflexivity. Qed.

(** A read that ends in a line feed splits into its lines and one
    last empty piece, and text put after it splits on its own. *)
Lemma split_lines_aligned (a : string) :
  ends_in_newline a = true -> a <> EmptyString ->
  exists l ls,
    split_lines a = (l :: ls) ++ [EmptyString]
    /\ forall b, split_lines (a +:+ b) = (l :: ls) ++ split_lines b.
Proof.
  induction a as [|c a IH]; intros Ha Hne; [congruence |].
  destruct a as [|c' a'].
  - cbn [ends_in_newline] in Ha. cbn [split_lines String.append]. rewrite Ha.
    exists EmptyString, []. split; [reflexivity |]. intros b. reflexivity.
  - destruct IH as (l & ls & E1 & E2); [exact Ha | discriminate |].
    assert (Hsplit : forall s, split_lines (String c s) =
              if Ascii.eqb c newline then EmptyString :: split_lines s
              else match split_lines s with
                   | [] => [String c EmptyString]
                   | l :: ls => String c l :: ls
                   end) by reflexivity.
    destruct (Ascii.eqb c newline) eqn:Ec.
    + exists EmptyString, (l :: ls). split.
      * rewrite Hsplit, ?Ec, E1. reflexivity.
      * intros b. change (String c (String c' a') +:+ b)
          with (String c (String c' a' +:+ b)).
        rewrite Hsplit, ?Ec, E2. reflexivity.
    + exists (String c l), ls. split.
      * rewrite Hsplit, ?Ec, E1. reflexivity.
      * intros b. change (String c (String c' a') +:+ b)
          with (String c (String c' a' +:+ b)).
        rewrite Hsplit, ?Ec, E2. reflexivity.
Qed.

Lemma handle_reads_aligned (read : string) (rest : string) :
  ends_in_newline read = true ->
  on_lines (split_lines (read +:+ rest)) =
  and_then (on_lines (split_lines read)) (on_lines (split_lines rest)).
Proof.
  intros Ha. destruct read as [|c read].
  - cbn [String.append split_lines]. rewrite handle_lines_cons, blank_line.
    cbn [handle_lines]. now rewrite and_then_next_l.
  - destruct (split_lines_aligned (String c read) Ha) as (l & ls & E1 & E2);
      [discriminate |].
    rewrite E1, E2, !handle_lines_app, (handle_lines_cons EmptyString []), blank_line.
    cbn [handle_lines]. now rewrite and_then_next_l, and_then_next_r.
Qed.

(** C2, in the form that holds of the code.  The framer keeps nothing
    from one read
    to the next; each read is split into lines by itself.  When every
    read stops at a line boundary, the chunks decoded and the way the
    generator ends are those of the whole stream handed over in one
    read. *)
Theorem whole_line_reads (reads : list string) :
  Forall (fun read => ends_in_newline read = true) reads ->
  handleStreamResponse JSON_parse TypeError_text reads =
  handleStreamResponse JSON_parse TypeError_text [join_all reads].
Proof.
  intros H. unfold handleStreamResponse.
  assert (E : on_reads reads = on_reads [join_all reads]).
  { rewrite (handle_reads_cons (join_all reads) []).
    cbn [handle_reads]. rewrite and_then_next_r.
    induction H as [|r reads Hr _ IH].
    - reflexivity.
    - rewrite handle_reads_cons, IH. cbn [join_all].
      now rewrite handle_reads_aligned. }
  now rewrite E.
Qed.

Lemma trimEnd_nonempty (c : ascii) (s : string) :
  isWhiteSpace c = false -> trimEnd (String c s) <> EmptyString.
Proof.
  intros Hc. cbn [trimEnd]. rewrite Hc.
  destruct (trimEnd s); discriminate.
Qed.

Lemma data_line_not_blank (line : string) :
  startsWith line "data: " = true -> trim line <> EmptyString.
Proof.
  intros H. apply startsWith_true in H. rewrite H.
  unfold trim. apply trimEnd_nonempty. reflexivity.
Qed.

(** C5, in the form that holds of the code.  A line that starts with
    [data: ], is not
    the [DONE] line, and whose payload [JSON.parse] rejects makes the
    generator throw, if the generator gets to it: the reads and the
    lines before it have neither returned nor thrown.  What is thrown
    is a plain [HAIError], the base class, with the parse error in its
    message.  The chunks yielded are those of the lines before; no line
    and no read after it is looked at. *)
Theorem malformed_payload_fails
    (reads_before reads_after : list string) (read : string)
    (lines_before lines_after : list string) (line error : string)
    (chunks1 chunks2 : list WireChunk) :
  handle_reads JSON_parse TypeError_text reads_before = (chunks1, Next) ->
  split_lines read = lines_before ++ line :: lines_after ->
  handle_lines JSON_parse TypeError_text lines_before = (chunks2, Next) ->
  startsWith line "data: " = true ->
  trim line <> "data: [DONE]" ->
  JSON_parse (slice 6 line) = inr error ->
  let e := new_HAIError ("Error parsing stream: " +:+ error) None None in
  handleStreamResponse JSON_parse TypeError_text
    (reads_before ++ read :: reads_after)
  = (chunks1 ++ chunks2, Failed e)
  /\ class e = HAIError
  /\ name e = "HAIError".
Proof.
  intros H1 Hsplit H2 Hdata Hdone Hparse e.
  split; [| split; reflexivity].
  unfold handleStreamResponse.
  rewrite handle_reads_app, H1, handle_reads_cons, Hsplit, handle_lines_app, H2.
  rewrite handle_lines_cons.
  assert (El : line_run line = ([], Throw e)).
  { unfold line_run, handle_line.
    apply data_line_not_blank in Hdata as Hblank.
    apply String.eqb_neq in Hblank, Hdone.
    now rewrite Hblank, Hdone, Hdata, Hparse. }
  rewrite El. cbn [and_then fst snd]. now rewrite app_nil_r.
Qed.

End FramerFacts.

(** Two reads that each hold a whole line give what the one read of both
    lines gives. *)
Lemma whole_line_reads_witness :
  handleStreamResponse example_parse "TypeError"
    ["data: {}" +:+ eol; "data: {}" +:+ eol] =
  handleStreamResponse example_parse "TypeError"
    [join_all ["data: {}" +:+ eol; "data: {}" +:+ eol]].
Proof.
  apply (whole_line_reads example_parse "TypeError").
  repeat constructor.
Defined.

(** C2 as the specification states it does not hold: a line cut in two
    by the reads is
    not put together again.  Whole, the line gives a chunk; cut after
    the opening brace, its first piece is parsed alone and the stream
    fails. *)
Lemma split_line_not_buffered :
  handleStreamResponse example_parse "TypeError" ["data: {"; "}" +:+ eol] <>
  handleStreamResponse example_parse "TypeError" ["data: {}" +:+ eol].
Proof. vm_compute. discriminate. Qed.

(** A stream of one line with the payload [{bad]. *)
Lemma malformed_payload_fails_witness :
  handleStreamResponse example_parse "TypeError" ([] ++ ("data: {bad" +:+ eol) :: []) =
  ([] ++ [], Failed (new_HAIError "Error parsing stream: SyntaxError" None None)).
Proof.
  apply (malformed_payload_fails example_parse "TypeError" [] []
           ("data: {bad" +:+ eol) [] [EmptyString] "data: {bad" "SyntaxError" [] []);
    try reflexivity.
  vm_compute. discriminate.
Defined.

(** C5 as the specification states it does not hold: the error thrown
    for a malformed
    payload is of the class [HAIError] and bears that name, not the name
    of a stream decode error; [src/errors.ts] has no such class. *)
Lemma malformed_payload_error_is_generic :
  (name <$> failure (snd (handleStreamResponse example_parse "TypeError"
                            ["data: {bad" +:+ eol]))) = Some "HAIError"
  /\ (name <$> failure (snd (handleStreamResponse example_parse "TypeError"
                               ["data: {bad" +:+ eol]))) <> Some "StreamDecodeError".
Proof. split; vm_compute; [reflexivity | discriminate]. Qed.

(** * The completion filter against the streaming filter *)

Lemma replace_all_enough (matcher : string -> option (string * string)) :
  consuming matcher ->
  forall n m s, String.length s <= n -> String.length s <= m ->
    replace_all matcher n s = replace_all matcher m s.
Proof.
  intros Hm. induction n as [|n IH]; intros m s Hn Hlm.
  - destruct s; simpl in Hn; [| lia]. destruct m; reflexivity.
  - destruct m as [|m]; [destruct s; simpl in Hlm; [reflexivity | lia] |].
    destruct s as [|c s]; [reflexivity |]. cbn [replace_all].
    destruct (matcher (String c s)) as [[rep rest]|] eqn:E.
    + apply Hm in E. simpl in *. f_equal. apply IH; lia.
    + simpl in *. f_equal. apply IH; lia.
Qed.

Lemma replace_empty (matcher : string -> option (string * string)) :
  replace matcher EmptyString = EmptyString.
Proof. reflexivity. Qed.

Lemma replace_none (matcher : string -> option (string * string)) (c : ascii) (s : string) :
  consuming matcher -> matcher (String c s) = None ->
  replace matcher (String c s) = String c (replace matcher s).
Proof.
  intros Hm E. unfold replace. cbn [String.length replace_all]. now rewrite E.
Qed.

Lemma replace_some (matcher : string -> option (string * string)) (c : ascii)
    (s replacement rest : string) :
  consuming matcher -> matcher (String c s) = Some (replacement, rest) ->
  replace matcher (String c s) = replacement +:+ replace matcher rest.
Proof.
  intros Hm E. unfold replace. cbn [String.length replace_all]. rewrite E.
  f_equal. apply Hm in E. simpl in E. apply replace_all_enough; [exact Hm | lia | lia].
Qed.

(** Where the pattern matches at no position, the text is unchanged. *)
Lemma replace_all_unmatched (matcher : string -> option (string * string))
    (P : string -> Prop) :
  (forall c s, P (String c s) -> matcher (String c s) = None /\ P s) ->
  forall n s, P s -> replace_all matcher n s = s.
Proof.
  intros HP. induction n as [|n IH]; intros s Hs; [reflexivity |].
  destruct s as [|c s]; [reflexivity |]. cbn [replace_all].
  destruct (HP c s Hs) as [-> Hs']. f_equal. now apply IH.
Qed.

Lemma span_char_length (c : ascii) (s : string) :
  String.length s = fst (span_char c s) + String.length (snd (span_char c s)).
Proof.
  induction s as [|d s IH]; [reflexivity |]. cbn [span_char].
  destruct (Ascii.eqb d c); [| reflexivity].
  destruct (span_char c s) as [n rest]. simpl in *. lia.
Qed.

Lemma match_newlines_consuming : consuming match_newlines.
Proof.
  intros s rep rest. unfold match_newlines.
  pose proof (span_char_length newline s) as H.
  destruct (span_char newline s) as [n r]. cbn [fst snd] in H.
  destruct (Nat.leb_spec 3 n); [| discriminate].
  intros E; injection E as <- <-. lia.
Qed.

Lemma match_spaces_consuming : consuming match_spaces.
Proof.
  intros s rep rest. unfold match_spaces.
  pose proof (span_char_length space s) as H.
  destruct (span_char space s) as [n r]. cbn [fst snd] in H.
  destruct (Nat.leb_spec 2 n); [| discriminate].
  intros E; injection E as <- <-. lia.
Qed.

Lemma after_first_length (s t rest : string) :
  after_first s t = Some rest -> String.length rest <= String.length s.
Proof.
  induction s as [|c s IH]; cbn [after_first].
  - destruct (startsWith EmptyString t); [| discriminate].
    intros E; injection E as <-. rewrite length_slice. simpl. lia.
  - destruct (startsWith (String c s) t).
    + intros E; injection E as <-. rewrite length_slice. lia.
    + intros E. apply IH in E. simpl. lia.
Qed.

Lemma match_block_consuming (open close : string) :
  1 <= String.length open -> consuming (match_block open close).
Proof.
  intros Ho s rep rest. unfold match_block.
  destruct (startsWith s open) eqn:E; [| discriminate].
  apply startsWith_length in E.
  destruct (after_first (slice (String.length open) s) close) as [r|] eqn:A;
    [| discriminate].
  intros H; injection H as <- <-.
  apply after_first_length in A. rewrite length_slice in A. lia.
Qed.

Lemma span_space_length (s : string) :
  String.length (snd (span_space s)) <= String.length s.
Proof.
  induction s as [|c s IH]; [reflexivity |]. cbn [span_space].
  destruct (isWhiteSpace c); [| reflexivity].
  destruct (span_space s) as [run rest]. simpl in *. lia.
Qed.

Lemma match_broken_word_consuming : consuming match_broken_word.
Proof.
  intros s rep rest. unfold match_broken_word.
  destruct s as [|w1 [|h s']]; try discriminate.
  destruct (isWordChar w1 && Ascii.eqb h hyphen); [| discriminate].
  pose proof (span_space_length s') as H.
  destruct (span_space s') as [run r]. cbn [snd] in H.
  destruct (has_newline run); [| discriminate].
  destruct r as [|w2 r']; [discriminate |].
  destruct (isWordChar w2); [| discriminate].
  intros E; injection E as <- <-. simpl in *. lia.
Qed.

(** Every pass of the completion filter has fuel enough: more fuel than
    the length of the text gives the same result. *)
Lemma filter_passes_total (n : nat) (s : string) :
  String.length s <= n ->
  replace_all (match_block "<think>" "</think>") n s
    = replace (match_block "<think>" "</think>") s
  /\ replace_all (match_block "<ser>" "</ser>") n s
      = replace (match_block "<ser>" "</ser>") s
  /\ replace_all match_broken_word n s = replace match_broken_word s
  /\ replace_all match_newlines n s = replace match_newlines s
  /\ replace_all match_spaces n s = replace match_spaces s.
Proof.
  intros Hn. unfold replace.
  repeat split; apply replace_all_enough; try lia;
    auto using match_newlines_consuming, match_spaces_consuming,
               match_broken_word_consuming;
    apply match_block_consuming; simpl; lia.
Qed.

Lemma tag_free_no_block (open close : string) (c : ascii) (s : string) :
  startsWith open "<" = true ->
  tag_free (String c s) = true ->
  match_block open close (String c s) = None /\ tag_free s = true.
Proof.
  intros Ho H. cbn [tag_free] in H. apply andb_prop in H as [Hc Hs].
  split; [| exact Hs]. unfold match_block.
  destruct (startsWith (String c s) open) eqn:E; [| reflexivity].
  exfalso. apply startsWith_true in E, Ho. rewrite Ho in E.
  injection E as E _. rewrite E, Ascii.eqb_refl in Hc. discriminate.
Qed.

Lemma tag_free_blocks_kept (open close s : string) :
  startsWith open "<" = true -> tag_free s = true ->
  replace (match_block open close) s = s.
Proof.
  intros Ho Hs. unfold replace.
  apply (replace_all_unmatched _ (fun s => tag_free s = true)); [| exact Hs].
  intros c s'. now apply tag_free_no_block.
Qed.

(** Outside a block, a character other than ['<'] goes through the white
    space rules. *)
Lemma loop_body_text (v : FilterVars) (c : ascii) (s out : string) :
  isReasoning (state v) = false -> isSer (state v) = false ->
  Ascii.eqb c "<" = false ->
  exists v' o,
    loop_body v (String c s) out = Continue v' s (out +:+ o)
    /\ isReasoning (state v') = false /\ isSer (state v') = false
    /\ forall s',
         normalized (streamStarted v) (consecutiveNewlines v) (lastCharWasSpace v)
                    (String c s') =
         o +:+ normalized (streamStarted v') (consecutiveNewlines v')
                          (lastCharWasSpace v') s'.
Proof.
  intros Hr Hs Hc. unfold loop_body. rewrite Hr, Hs.
  cbn [startsWith]. rewrite (eqb_sym "<" c), Hc. cbn [orb slice].
  destruct v as [[re se] bf cn lc ss]. cbn in Hr, Hs. subst re se.
  cbn [streamStarted consecutiveNewlines lastCharWasSpace normalized
       set_streamStarted set_consecutiveNewlines set_lastCharWasSpace state].
  destruct (negb ss && isWhiteSpace c) eqn:E1.
  { eexists _, EmptyString. rewrite append_empty_r.
    split; [reflexivity |]. split; [reflexivity |]. split; [reflexivity |].
    intros s'. reflexivity. }
  destruct (Ascii.eqb c newline) eqn:E2.
  { destruct (S cn <=? 2)%nat eqn:E3.
    - eexists _, (String c EmptyString).
      split; [reflexivity |]. split; [reflexivity |]. split; [reflexivity |].
      intros s'. reflexivity.
    - eexists _, EmptyString. rewrite append_empty_r.
      split; [reflexivity |]. split; [reflexivity |]. split; [reflexivity |].
      intros s'. reflexivity. }
  destruct (isWhiteSpace c) eqn:E3.
  { destruct lc.
    - eexists _, EmptyString. rewrite append_empty_r.
      split; [reflexivity |]. split; [reflexivity |]. split; [reflexivity |].
      intros s'. reflexivity.
    - eexists _, (String space EmptyString).
      split; [reflexivity |]. split; [reflexivity |]. split; [reflexivity |].
      intros s'. reflexivity. }
  eexists _, (String c EmptyString).
  split; [reflexivity |]. split; [reflexivity |]. split; [reflexivity |].
  intros s'. reflexivity.
Qed.

(** On a text without ['<'] the scan leaves nothing in the buffer, and
    its output is the text with the white space rules applied. *)
Lemma scan_tag_free (s : string) :
  forall (v : FilterVars) (out : string),
    isReasoning (state v) = false -> isSer (state v) = false ->
    tag_free s = true ->
    exists v',
      scan v s out =
      (v', EmptyString,
       out +:+ normalized (streamStarted v) (consecutiveNewlines v)
                          (lastCharWasSpace v) s).
Proof.
  induction s as [|c s IH]; intros v out Hr Hs Ht.
  - exists v. rewrite scan_empty, append_empty_r. reflexivity.
  - cbn [tag_free] in Ht. apply andb_prop in Ht as [Hc Ht].
    apply negb_true_iff in Hc.
    destruct (loop_body_text v c s out Hr Hs Hc) as (v1 & o & E & Hr1 & Hs1 & Hn).
    rewrite scan_step, E.
    destruct (IH v1 (out +:+ o) Hr1 Hs1 Ht) as [v' E'].
    exists v'. rewrite E', Hn, append_assoc. reflexivity.
Qed.

(** The streaming filter on a text without ['<'], handed over as one
    fragment. *)
Lemma streamed_tag_free (i : Z) (text : string) :
  tag_free text = true ->
  stream_text (createFilteredStreamGenerator [text_chunk i text]) =
  normalized false 0 false text.
Proof.
  intros Ht. unfold createFilteredStreamGenerator. rewrite filtered_from_text.
  unfold fragments_of. cbn [flat_map text_chunk k_choices map app].
  change (choice_text (text_choice i text)) with text. cbn [outputs].
  destruct text as [|c s]; [reflexivity |]. cbn [truthy].
  rewrite process_fragment_scan.
  destruct (scan_tag_free (String c s) initialVars EmptyString eq_refl eq_refl Ht)
    as [v' E].
  change (buffer initialVars +:+ String c s) with (String c s).
  rewrite E. now rewrite append_empty_r.
Qed.

(** ** The passes of the completion filter on runs *)

Lemma span_char_run (w : ascii) (n : nat) (d : ascii) (s : string) :
  Ascii.eqb d w = false ->
  span_char w (repeat_char w n +:+ String d s) = (n, String d s).
Proof.
  intros Hd. induction n as [|n IH]; cbn [repeat_char String.append span_char].
  - now rewrite Hd.
  - now rewrite Ascii.eqb_refl, IH.
Qed.

Lemma newlines_text (d : ascii) (s : string) :
  Ascii.eqb d newline = false ->
  replace match_newlines (String d s) = String d (replace match_newlines s).
Proof.
  intros Hd. apply replace_none; [apply match_newlines_consuming |].
  unfold match_newlines. cbn [span_char]. now rewrite Hd.
Qed.

Lemma newlines_run (n : nat) (d : ascii) (s : string) :
  Ascii.eqb d newline = false ->
  replace match_newlines (repeat_char newline n +:+ String d s) =
  repeat_char newline (Nat.min n 2) +:+ String d (replace match_newlines s).
Proof.
  intros Hd.
  assert (Hshort : forall k, k < 3 ->
            replace match_newlines (repeat_char newline k +:+ String d s) =
            repeat_char newline k +:+ String d (replace match_newlines s)).
  { induction k as [|k IHk]; intros Hk; cbn [repeat_char String.append].
    - now apply newlines_text.
    - rewrite replace_none; [now rewrite IHk by lia | apply match_newlines_consuming |].
      unfold match_newlines.
      change (String newline (repeat_char newline k +:+ String d s))
        with (repeat_char newline (S k) +:+ String d s).
      rewrite (span_char_run _ _ _ _ Hd).
      destruct (Nat.leb_spec 3 (S k)); [lia | reflexivity]. }
  destruct (Nat.lt_ge_cases n 3) as [Hn|Hn].
  - rewrite Hshort by exact Hn. now rewrite Nat.min_l by lia.
  - rewrite Nat.min_r by lia.
    destruct n as [|n]; [lia |]. cbn [repeat_char String.append].
    rewrite (replace_some _ _ _ (String newline (String newline EmptyString)) (String d s)).
    + now rewrite newlines_text.
    + apply match_newlines_consuming.
    + unfold match_newlines.
      change (String newline (repeat_char newline n +:+ String d s))
        with (repeat_char newline (S n) +:+ String d s).
      rewrite (span_char_run _ _ _ _ Hd).
      destruct (Nat.leb_spec 3 (S n)); [reflexivity | lia].
Qed.

Lemma spaces_text (d : ascii) (s : string) :
  Ascii.eqb d space = false ->
  replace match_spaces (String d s) = String d (replace match_spaces s).
Proof.
  intros Hd. apply replace_none; [apply match_spaces_consuming |].
  unfold match_spaces. cbn [span_char]. now rewrite Hd.
Qed.

Lemma spaces_run (n : nat) (d : ascii) (s : string) :
  Ascii.eqb d space = false ->
  replace match_spaces (repeat_char space (S n) +:+ String d s) =
  String space (String d (replace match_spaces s)).
Proof.
  intros Hd. destruct n as [|n]; cbn [repeat_char String.append].
  - rewrite replace_none; [now rewrite spaces_text | apply match_spaces_consuming |].
    unfold match_spaces. cbn [span_char]. rewrite Ascii.eqb_refl, Hd. reflexivity.
  - rewrite (replace_some _ _ _ (String space EmptyString) (String d s)).
    + now rewrite spaces_text.
    + apply match_spaces_consuming.
    + unfold match_spaces.
      change (String space (String space (repeat_char space n +:+ String d s)))
        with (repeat_char space (S (S n)) +:+ String d s).
      rewrite (span_char_run _ _ _ _ Hd). reflexivity.
Qed.

Lemma spaces_after_newlines (n : nat) (s : string) :
  replace match_spaces (repeat_char newline n +:+ s) =
  repeat_char newline n +:+ replace match_spaces s.
Proof.
  induction n as [|n IH]; cbn [repeat_char String.append]; [reflexivity |].
  rewrite spaces_text by reflexivity. now rewrite IH.
Qed.

(** ** The white space rules on runs *)

Lemma not_space_not_newline (d : ascii) :
  isWhiteSpace d = false -> Ascii.eqb d space = false /\ Ascii.eqb d newline = false.
Proof.
  intros H. split.
  - destruct (Ascii.eqb_spec d space) as [->|]; [discriminate H | reflexivity].
  - destruct (Ascii.eqb_spec d newline) as [->|]; [discriminate H | reflexivity].
Qed.

Lemma normalized_word (newlines : nat) (spaced : bool) (d : ascii) (s : string) :
  isWhiteSpace d = false ->
  forall started,
    normalized started newlines spaced (String d s) =
    String d (normalized true 0 false s).
Proof.
  intros Hd started. destruct (not_space_not_newline d Hd) as [_ Hn].
  cbn [normalized]. rewrite Hd, Hn, andb_false_r. reflexivity.
Qed.

Lemma normalized_leading (w : ascii) (n : nat) (s : string) :
  isWhiteSpace w = true ->
  normalized false 0 false (repeat_char w n +:+ s) = normalized false 0 false s.
Proof.
  intros Hw. induction n as [|n IH]; cbn [repeat_char String.append]; [reflexivity |].
  cbn [normalized]. rewrite Hw. cbn [negb andb]. exact IH.
Qed.

Lemma normalized_spaces (n newlines : nat) (d : ascii) (s : string) :
  isWhiteSpace d = false ->
  normalized true newlines false (repeat_char space (S n) +:+ String d s) =
  String space (String d (normalized true 0 false s)).
Proof.
  intros Hd.
  assert (Hrest : forall k,
            normalized true newlines true (repeat_char space k +:+ String d s) =
            String d (normalized true 0 false s)).
  { induction k as [|k IHk]; cbn [repeat_char String.append].
    - now apply normalized_word.
    - cbn [normalized]. exact IHk. }
  cbn [repeat_char String.append normalized]. cbn. f_equal. apply Hrest.
Qed.

Lemma normalized_newlines (n : nat) (d : ascii) (s : string) :
  isWhiteSpace d = false ->
  forall newlines spaced,
    normalized true newlines spaced (repeat_char newline n +:+ String d s) =
    repeat_char newline (Nat.min n (2 - newlines))
    +:+ String d (normalized true 0 false s).
Proof.
  intros Hd. induction n as [|n IH]; intros newlines spaced;
    cbn [repeat_char String.append].
  - now apply normalized_word.
  - cbn [normalized negb andb]. rewrite Ascii.eqb_refl, IH.
    destruct (Nat.leb_spec (S newlines) 2) as [Hle|Hgt].
    + replace (2 - newlines) with (S (2 - S newlines)) by lia.
      reflexivity.
    + replace (2 - newlines) with 0 by lia.
      replace (2 - S newlines) with 0 by lia.
      now rewrite !Nat.min_0_r.
Qed.

Lemma trimEnd_kept (s : string) : ends_with_text s = true -> trimEnd s = s.
Proof.
  induction s as [|c s IH]; [reflexivity |]. cbn [ends_with_text trimEnd].
  destruct s as [|c' s'].
  - intros H. cbn [trimEnd]. now rewrite (negb_true_iff _) in H; rewrite H.
  - intros H. rewrite (IH H). reflexivity.
Qed.

Lemma ends_with_text_word (d : ascii) (s : string) :
  isWhiteSpace d = false -> ends_with_text s = true ->
  ends_with_text (String d s) = true.
Proof.
  intros Hd Hs. cbn [ends_with_text]. destruct s; [now rewrite Hd | exact Hs].
Qed.

Lemma ends_with_text_after (r : string) (d : ascii) (s : string) :
  ends_with_text (String d s) = true -> ends_with_text (r +:+ String d s) = true.
Proof.
  intros H. induction r as [|c r IH]; [exact H |].
  change (String c r +:+ String d s) with (String c (r +:+ String d s)).
  cbn [ends_with_text].
  destruct (r +:+ String d s) eqn:E; [destruct r; discriminate E | exact IH].
Qed.

Lemma trimStart_run (w : ascii) (n : nat) (d : ascii) (s : string) :
  isWhiteSpace w = true -> isWhiteSpace d = false ->
  trimStart (repeat_char w n +:+ String d s) = String d s.
Proof.
  intros Hw Hd. induction n as [|n IH]; cbn [repeat_char String.append trimStart].
  - now rewrite Hd.
  - now rewrite Hw.
Qed.

(** * What the streaming filter emits, whatever the stream *)

Lemma all_chars_append (p : ascii -> bool) (s t : string) :
  all_chars p (s +:+ t) = all_chars p s && all_chars p t.
Proof.
  induction s as [|c s IH]; [reflexivity |].
  change (String c s +:+ t) with (String c (s +:+ t)).
  cbn [all_chars]. now rewrite IH, andb_assoc.
Qed.

Lemma char_runs_append (c : ascii) (s t : string) :
  forall run best,
    char_runs c run best (s +:+ t) =
    char_runs c (fst (char_runs c run best s)) (snd (char_runs c run best s)) t.
Proof.
  induction s as [|d s IH]; intros run best; [reflexivity |].
  change (String d s +:+ t) with (String d (s +:+ t)).
  cbn [char_runs]. destruct (Ascii.eqb d c); apply IH.
Qed.

Lemma starts_with_text_append (s t : string) :
  s <> EmptyString -> starts_with_text (s +:+ t) = starts_with_text s.
Proof. destruct s; [congruence | reflexivity]. Qed.

Lemma append_nonempty (s : string) (c : ascii) :
  s +:+ String c EmptyString <> EmptyString.
Proof. destruct s; discriminate. Qed.

(** Emitting one more character keeps the emitted text well formed, if
    the character is one the white space rules let through. *)
Lemma emitted_well_char (v v' : FilterVars) (emitted : string) (c : ascii) :
  emitted_well v emitted ->
  streamStarted v' = true ->
  (streamStarted v = false -> isWhiteSpace c = false) ->
  space_or_newline c = true ->
  (if Ascii.eqb c newline
   then consecutiveNewlines v' = S (consecutiveNewlines v)
        /\ consecutiveNewlines v' <= 2
   else True) ->
  emitted_well v' (emitted +:+ String c EmptyString).
Proof.
  intros (Hs & Hf & Ha & Ht & Htm & Hm) Hs' Hfirst Hc Hn.
  unfold emitted_well, longest_run in *.
  rewrite all_chars_append, Ha, char_runs_append. cbn [all_chars char_runs].
  rewrite Hc. cbn [andb].
  split; [split; [congruence | intros E; now apply append_nonempty in E] |].
  split.
  { destruct emitted as [|d emitted]; [| exact Hf].
    cbn [String.append starts_with_text].
    rewrite Hfirst; [reflexivity | now apply Hs]. }
  split; [reflexivity |].
  destruct (Ascii.eqb c newline); cbn [fst snd]; [destruct Hn; lia | lia].
Qed.

(** Going on without emitting keeps it well formed as long as the stream
    does not start and the count of line feeds does not go down. *)
Lemma emitted_well_silent (v v' : FilterVars) (emitted : string) :
  emitted_well v emitted ->
  streamStarted v' = streamStarted v ->
  consecutiveNewlines v <= consecutiveNewlines v' ->
  emitted_well v' emitted.
Proof.
  intros (Hs & Hf & Ha & Ht & Htm & Hm) Hs' Hn. unfold emitted_well.
  rewrite Hs'. repeat split; try tauto; try lia.
Qed.

Lemma space_not_newline_char (c : ascii) :
  isWhiteSpace c = false -> space_or_newline c = true.
Proof. intros H. unfold space_or_newline. now rewrite H. Qed.

(** The loop body keeps the emitted text well formed. *)
Lemma loop_body_emitted_well (v : FilterVars) (r out : string)
    (v' : FilterVars) (r' out' : string) :
  loop_body v r out = Continue v' r' out' ->
  emitted_well v out -> emitted_well v' out'.
Proof.
  unfold loop_body. intros H W.
  repeat match type of H with
         | (if startsWith ?a ?b then _ else _) = _ => destruct (startsWith a b)
         | (if startsWith ?a ?b || startsWith ?c ?d then _ else _) = _ =>
             destruct (startsWith a b || startsWith c d)
         | (if isReasoning _ then _ else _) = _ => destruct (isReasoning (state v))
         | (if isSer _ then _ else _) = _ => destruct (isSer (state v))
         end;
    try discriminate H;
    try (injection H as <- <- <-;
         apply (emitted_well_silent v); [exact W | reflexivity | cbn; lia]).
  destruct r as [|char rest]; [discriminate H |].
  destruct (negb (streamStarted v) && isWhiteSpace char) eqn:E1.
  { injection H as <- <- <-.
    apply (emitted_well_silent v); [exact W | reflexivity | lia]. }
  cbv zeta in H.
  destruct (Ascii.eqb char newline) eqn:E2.
  { assert (Hss : streamStarted v = true).
    { apply Ascii.eqb_eq in E2. subst char.
      destruct (streamStarted v); [reflexivity | discriminate E1]. }
    cbn [consecutiveNewlines set_consecutiveNewlines set_streamStarted] in H.
    destruct (Nat.leb_spec (S (consecutiveNewlines v)) 2) as [Hle|Hgt];
      injection H as <- <- <-.
    - apply (emitted_well_char v); [exact W | reflexivity | congruence | |].
      + apply Ascii.eqb_eq in E2. subst char. reflexivity.
      + rewrite E2. cbn. lia.
    - apply (emitted_well_silent v); [exact W | cbn; now rewrite Hss | cbn; lia]. }
  destruct (isWhiteSpace char) eqn:E3.
  { assert (Hss : streamStarted v = true).
    { destruct (streamStarted v); [reflexivity | discriminate E1]. }
    cbn [lastCharWasSpace set_streamStarted] in H.
    destruct (lastCharWasSpace v); injection H as <- <- <-.
    - apply (emitted_well_silent v); [exact W | cbn; now rewrite Hss | cbn; lia].
    - apply (emitted_well_char v); [exact W | reflexivity | congruence | reflexivity |].
      exact I. }
  injection H as <- <- <-.
  apply (emitted_well_char v); [exact W | reflexivity | auto | |].
  - now apply space_not_newline_char.
  - rewrite E2. exact I.
Qed.

Lemma scan_emitted_well (n : nat) :
  forall (v : FilterVars) (r out : string) (v' : FilterVars) (r' out' : string),
    String.length r <= n ->
    scan v r out = (v', r', out') ->
    emitted_well v out -> emitted_well v' out'.
Proof.
  induction n as [|n IH]; intros v r out v' r' out' Hn E W.
  - destruct r; simpl in Hn; [| lia]. rewrite scan_empty in E.
    now injection E as <- <- <-.
  - destruct r as [|c r]; [rewrite scan_empty in E; now injection E as <- <- <- |].
    rewrite scan_step in E.
    destruct (loop_body v (String c r) out) as [|v1 r1 out1] eqn:B;
      [now injection E as <- <- <- |].
    apply loop_body_shrinks in B as Hlt. simpl in Hlt, Hn.
    apply (IH v1 r1 out1 v' r' out'); [lia | exact E |].
    now apply (loop_body_emitted_well _ _ _ _ _ _ B).
Qed.

Lemma emitted_well_set_buffer (b : string) (v : FilterVars) (emitted : string) :
  emitted_well v emitted -> emitted_well (set_buffer b v) emitted.
Proof. intros W. exact W. Qed.

Lemma process_fragment_emitted_well (v : FilterVars) (content emitted : string) :
  emitted_well v emitted ->
  emitted_well (fst (process_fragment v content))
               (emitted +:+ snd (process_fragment v content)).
Proof.
  intros W. rewrite process_fragment_scan.
  pose proof (scan_output (String.length (buffer v +:+ content)) v
                (buffer v +:+ content) emitted (Nat.le_refl _)) as E.
  destruct (scan v (buffer v +:+ content) EmptyString) as [[v' r'] o].
  cbn [fst snd]. apply emitted_well_set_buffer.
  now apply (scan_emitted_well _ _ _ _ _ _ _ (Nat.le_refl _) E).
Qed.

Lemma outputs_emitted_well (fragments : list string) :
  forall (v : FilterVars) (emitted : string),
    emitted_well v emitted ->
    emitted_well (vars_after v fragments) (emitted +:+ outputs v fragments).
Proof.
  induction fragments as [|f fs IH]; intros v emitted W.
  - cbn [vars_after outputs]. now rewrite append_empty_r.
  - cbn [vars_after outputs]. destruct (truthy f); [| now apply IH].
    pose proof (process_fragment_emitted_well v f emitted W) as W1.
    destruct (process_fragment v f) as [v1 o]. cbn [fst snd] in *.
    rewrite <- append_assoc. now apply IH.
Qed.

Lemma emitted_well_initially : emitted_well initialVars EmptyString.
Proof. unfold emitted_well. cbn. repeat split; auto. Qed.

Lemma filtered_text_well (stream : list ChatCompletionChunk) :
  emitted_well (vars_after initialVars (fragments_of stream))
               (stream_text (createFilteredStreamGenerator stream)).
Proof.
  unfold createFilteredStreamGenerator. rewrite filtered_from_text.
  apply (outputs_emitted_well _ initialVars EmptyString emitted_well_initially).
Qed.

(** X1.  The text emitted over a whole stream never starts with white
    space: the filter emits nothing before the first character that is
    no white space. *)
Theorem emitted_text_starts_with_text (stream : list ChatCompletionChunk) :
  starts_with_text (stream_text (createFilteredStreamGenerator stream)) = true.
Proof. apply (filtered_text_well stream). Qed.

(** X2.  The text emitted over a whole stream never has three line feeds
    in a row, wherever the fragments are cut and whatever markup lies
    between the line feeds of the input. *)
Theorem emitted_text_newlines_capped (stream : list ChatCompletionChunk) :
  longest_run newline (stream_text (createFilteredStreamGenerator stream)) <= 2.
Proof. apply (filtered_text_well stream). Qed.

(** X3.  The only white space in the text emitted is the space and the
    line feed: a tab, a carriage return or any other white space of the
    input comes out as a space or not at all. *)
Theorem emitted_whitespace_is_plain (stream : list ChatCompletionChunk) :
  all_chars space_or_newline (stream_text (createFilteredStreamGenerator stream))
  = true.
Proof. apply (filtered_text_well stream). Qed.

(** * Text without markup *)

Lemma without_whitespace_normalized (s : string) :
  forall started newlines spaced,
    without_whitespace (normalized started newlines spaced s) = without_whitespace s.
Proof.
  induction s as [|c s IH]; intros started newlines spaced; [reflexivity |].
  cbn [normalized without_whitespace].
  destruct (isWhiteSpace c) eqn:Hc.
  - destruct (negb started); cbn [andb]; [apply IH |].
    destruct (Ascii.eqb c newline) eqn:Hn.
    + apply Ascii.eqb_eq in Hn. subst c.
      destruct (S newlines <=? 2)%nat; cbn [without_whitespace]; rewrite ?Hc; apply IH.
    + destruct (negb spaced); cbn [without_whitespace];
        change (isWhiteSpace space) with true; cbv iota; apply IH.
  - rewrite andb_false_r.
    destruct (not_space_not_newline c Hc) as [_ Hn]. rewrite Hn.
    cbn [without_whitespace]. rewrite Hc. f_equal. apply IH.
Qed.

(** X4.  On a stream whose text holds no ['<'], the filter changes white
    space and nothing else: the characters that are no white space come
    out all, in their order, however the text is cut into fragments. *)
Theorem plain_text_kept (stream : list ChatCompletionChunk) :
  tag_free (stream_text stream) = true ->
  without_whitespace (stream_text (createFilteredStreamGenerator stream)) =
  without_whitespace (stream_text stream).
Proof.
  intros Ht. rewrite (filtered_text_whole 0 stream), (streamed_tag_free 0 _ Ht).
  apply without_whitespace_normalized.
Qed.

Lemma plain_text_kept_witness :
  without_whitespace
    (stream_text (createFilteredStreamGenerator
                    (map (text_chunk 0) ["  Hel"; "lo " +:+ eol; "wor"; "ld "]))) =
  without_whitespace
    (stream_text (map (text_chunk 0) ["  Hel"; "lo " +:+ eol; "wor"; "ld "])).
Proof.
  apply (plain_text_kept (map (text_chunk 0) ["  Hel"; "lo " +:+ eol; "wor"; "ld "])).
  reflexivity.
Defined.

(** * Blocks *)

Lemma startsWith_self (t y : string) : startsWith (t +:+ y) t = true.
Proof.
  induction t as [|c t IH]; [reflexivity |].
  change (String c t +:+ y) with (String c (t +:+ y)).
  cbn [startsWith]. now rewrite Ascii.eqb_refl.
Qed.

Lemma slice_self (t y : string) : slice (String.length t) (t +:+ y) = y.
Proof. induction t as [|c t IH]; [reflexivity | exact IH]. Qed.

(** On a text without ['<'], from outside a block, the scan ends outside
    a block with nothing left over. *)
Lemma scan_tag_free_plain (s : string) :
  forall (v : FilterVars) (out : string),
    isReasoning (state v) = false -> isSer (state v) = false ->
    tag_free s = true ->
    exists v',
      scan v s out =
      (v', EmptyString,
       out +:+ normalized (streamStarted v) (consecutiveNewlines v)
                          (lastCharWasSpace v) s)
      /\ isReasoning (state v') = false /\ isSer (state v') = false.
Proof.
  induction s as [|c s IH]; intros v out Hr Hs Ht.
  - exists v. rewrite scan_empty, append_empty_r. auto.
  - cbn [tag_free] in Ht. apply andb_prop in Ht as [Hc Ht].
    apply negb_true_iff in Hc.
    destruct (loop_body_text v c s out Hr Hs Hc) as (v1 & o & E & Hr1 & Hs1 & Hn).
    rewrite scan_step, E.
    destruct (IH v1 (out +:+ o) Hr1 Hs1 Ht) as (v' & E' & Hr' & Hs').
    exists v'. rewrite E', Hn, append_assoc. auto.
Qed.

Lemma loop_body_open (b : Block) (v : FilterVars) (y out : string) :
  isReasoning (state v) = false -> isSer (state v) = false ->
  loop_body v (open_tag b +:+ y) out = Continue (enter b v) y out.
Proof.
  intros Hr Hs. unfold loop_body. rewrite Hr, Hs. destruct b; reflexivity.
Qed.

Lemma loop_body_close (b : Block) (v : FilterVars) (y out : string) :
  inside b v ->
  loop_body v (close_tag b +:+ y) out = Continue (leave b v) y out.
Proof.
  intros Hin. unfold loop_body. destruct b; cbn [inside] in Hin.
  - rewrite Hin. reflexivity.
  - destruct Hin as [-> ->]. reflexivity.
Qed.

(** Inside a block, a character other than ['<'] is passed over. *)
Lemma loop_body_hidden (b : Block) (v : FilterVars) (c : ascii) (s out : string) :
  inside b v -> Ascii.eqb c "<" = false ->
  loop_body v (String c s) out = Continue v s out.
Proof.
  intros Hin Hc. unfold loop_body. destruct b; cbn [inside] in Hin.
  - rewrite Hin. cbn [startsWith]. rewrite (eqb_sym "<" c), Hc. reflexivity.
  - destruct Hin as [-> ->]. cbn [startsWith]. rewrite (eqb_sym "<" c), Hc. reflexivity.
Qed.

(** A body without ['<'] and the close tag after it are passed over
    whole; the scan goes on behind the close tag. *)
Lemma scan_hidden (b : Block) (body : string) :
  forall (v : FilterVars) (rest out : string),
    inside b v -> tag_free body = true ->
    scan v (body +:+ close_tag b +:+ rest) out = scan (leave b v) rest out.
Proof.
  induction body as [|c body IH]; intros v rest out Hin Ht.
  - change (EmptyString +:+ close_tag b +:+ rest) with (close_tag b +:+ rest).
    assert (E : exists c s, close_tag b +:+ rest = String c s)
      by (destruct b; eexists _, _; reflexivity).
    destruct E as (c & s & E). rewrite E, scan_step, <- E.
    now rewrite loop_body_close.
  - cbn [tag_free] in Ht. apply andb_prop in Ht as [Hc Ht].
    apply negb_true_iff in Hc.
    change (String c body +:+ close_tag b +:+ rest)
      with (String c (body +:+ close_tag b +:+ rest)).
    rewrite scan_step, (loop_body_hidden b v c _ out Hin Hc). now apply IH.
Qed.

(** From outside a block: text without ['<'], a block with a body without
    ['<'], and any text after it.  The body leaves no trace. *)
Lemma scan_block (b : Block) (a body rest : string) (v : FilterVars) (out : string) :
  isReasoning (state v) = false -> isSer (state v) = false ->
  tag_free a = true -> tag_free body = true ->
  exists v',
    scan v (a +:+ open_tag b +:+ body +:+ close_tag b +:+ rest) out =
    scan (leave b (enter b v')) rest
         (out +:+ normalized (streamStarted v) (consecutiveNewlines v)
                             (lastCharWasSpace v) a)
    /\ scan v a out =
       (v', EmptyString,
        out +:+ normalized (streamStarted v) (consecutiveNewlines v)
                           (lastCharWasSpace v) a).
Proof.
  intros Hr Hs Ha Hb.
  destruct (scan_tag_free_plain a v out Hr Hs Ha) as (v' & E & Hr' & Hs').
  exists v'. split; [| exact E].
  rewrite (scan_append _ (String.length a)) by lia. rewrite E.
  change (EmptyString +:+ ?x) with x.
  assert (Eo : exists c s, open_tag b +:+ body +:+ close_tag b +:+ rest = String c s)
    by (destruct b; eexists _, _; reflexivity).
  destruct Eo as (c & s & Eo). rewrite Eo, scan_step, <- Eo.
  rewrite (loop_body_open b v' _ _ Hr' Hs').
  apply scan_hidden; [| exact Hb].
  destruct b; cbn; auto.
Qed.

Lemma truthy_with_tag (b : Block) (a y : string) :
  truthy (a +:+ open_tag b +:+ y) = true.
Proof. rewrite truthy_append. destruct b; apply orb_true_r. Qed.

Lemma filtered_text_scan (stream : list ChatCompletionChunk) :
  truthy (stream_text stream) = true ->
  stream_text (createFilteredStreamGenerator stream) =
  snd (scan initialVars (stream_text stream) EmptyString).
Proof.
  intros Ht. rewrite (filtered_text_whole 0 stream).
  unfold createFilteredStreamGenerator. rewrite filtered_from_text.
  unfold fragments_of. cbn [flat_map text_chunk k_choices map app].
  change (choice_text (text_choice 0 (stream_text stream))) with (stream_text stream).
  cbn [outputs]. rewrite Ht, process_fragment_scan.
  change (buffer initialVars +:+ stream_text stream) with (stream_text stream).
  destruct (scan initialVars (stream_text stream) EmptyString) as [[v r] o].
  cbn [snd]. apply append_empty_r.
Qed.

(** X5.  What is inside a closed block has no effect on what is emitted:
    two streams whose texts differ only in the body of a block, the body
    holding no ['<'] and the text before the block holding none, give the
    same text, however each is cut into fragments.  [b] is one of the two
    kinds of block. *)
Theorem block_body_has_no_effect (b : Block)
    (stream1 stream2 : list ChatCompletionChunk) (a body1 body2 rest : string) :
  tag_free a = true -> tag_free body1 = true -> tag_free body2 = true ->
  stream_text stream1 = a +:+ open_tag b +:+ body1 +:+ close_tag b +:+ rest ->
  stream_text stream2 = a +:+ open_tag b +:+ body2 +:+ close_tag b +:+ rest ->
  stream_text (createFilteredStreamGenerator stream1) =
  stream_text (createFilteredStreamGenerator stream2).
Proof.
  intros Ha H1 H2 E1 E2.
  rewrite !filtered_text_scan by (rewrite ?E1, ?E2; apply truthy_with_tag).
  rewrite E1, E2.
  destruct (scan_block b a body1 rest initialVars EmptyString eq_refl eq_refl Ha H1)
    as (v1 & -> & S1).
  destruct (scan_block b a body2 rest initialVars EmptyString eq_refl eq_refl Ha H2)
    as (v2 & -> & S2).
  rewrite S1 in S2. injection S2 as ->. reflexivity.
Qed.

Lemma block_body_has_no_effect_witness :
  stream_text (createFilteredStreamGenerator
                 (map (text_chunk 0) ["Hi <thi"; "nk>secret</th"; "ink> there"])) =
  stream_text (createFilteredStreamGenerator
                 (map (text_chunk 0) ["Hi <think>"; "</think> there"])).
Proof.
  apply (block_body_has_no_effect Reasoning _ _ "Hi " "secret" EmptyString " there");
    reflexivity.
Defined.

Lemma loop_body_inside (b : Block) (v : FilterVars) (r out : string) :
  inside b v -> startsWith r (close_tag b) = false ->
  loop_body v r out = Break \/ loop_body v r out = Continue v (slice 1 r) out.
Proof.
  intros Hin Hs. unfold loop_body. destruct b; cbn [inside close_tag] in *.
  - rewrite Hin, Hs. destruct (startsWith "</think>" r); auto.
  - destruct Hin as [-> ->]. rewrite Hs. destruct (startsWith "</ser>" r); auto.
Qed.

(** Inside a block, a text in which the close tag does not occur is
    passed over: nothing is emitted and the block stays open. *)
Lemma scan_unclosed (b : Block) (n : nat) :
  forall (v : FilterVars) (body out : string),
    String.length body <= n -> inside b v ->
    includes body (close_tag b) = false ->
    exists r', scan v body out = (v, r', out).
Proof.
  induction n as [|n IH]; intros v body out Hn Hin Hc.
  - destruct body; simpl in Hn; [| lia]. exists EmptyString. apply scan_empty.
  - destruct body as [|c body]; [exists EmptyString; apply scan_empty |].
    cbn [includes] in Hc. apply orb_false_elim in Hc as [Hs Hc].
    rewrite scan_step.
    destruct (loop_body_inside b v (String c body) out Hin Hs) as [-> | ->].
    + eexists. reflexivity.
    + cbn [slice]. simpl in Hn. apply IH; [lia | exact Hin | exact Hc].
Qed.

Lemma inside_enter (b : Block) (v : FilterVars) :
  isReasoning (state v) = false -> isSer (state v) = false -> inside b (enter b v).
Proof. intros Hr Hs. destruct b; cbn; auto. Qed.

(** X6.  A block that is opened and never closed hides all that follows:
    with no ['<'] before the open tag and no close tag after it, the
    text emitted is the text emitted for what stands before the open
    tag. *)
Theorem unclosed_block_hides_the_rest (b : Block)
    (stream : list ChatCompletionChunk) (a body : string) :
  tag_free a = true ->
  includes body (close_tag b) = false ->
  stream_text stream = a +:+ open_tag b +:+ body ->
  stream_text (createFilteredStreamGenerator stream) =
  stream_text (createFilteredStreamGenerator [text_chunk 0 a]).
Proof.
  intros Ha Hb E.
  rewrite (streamed_tag_free 0 a Ha).
  rewrite filtered_text_scan by (rewrite E; apply truthy_with_tag).
  rewrite E, (scan_append _ (String.length a)) by lia.
  destruct (scan_tag_free_plain a initialVars EmptyString eq_refl eq_refl Ha)
    as (v' & -> & Hr' & Hs').
  change (EmptyString +:+ ?x) with x.
  assert (Eo : exists c s, open_tag b +:+ body = String c s)
    by (destruct b; eexists _, _; reflexivity).
  destruct Eo as (c & s & Eo). rewrite Eo, scan_step, <- Eo.
  rewrite (loop_body_open b v' body _ Hr' Hs').
  match goal with
  | |- snd (scan _ _ ?o) = _ =>
      destruct (scan_unclosed b _ (enter b v') body o (Nat.le_refl _)
                  (inside_enter b v' Hr' Hs') Hb) as [r' ->]
  end.
  reflexivity.
Qed.

Lemma unclosed_block_hides_the_rest_witness :
  stream_text (createFilteredStreamGenerator
                 (map (text_chunk 0) ["Hi <se"; "r>never </think> closed"])) =
  stream_text (createFilteredStreamGenerator [text_chunk 0 "Hi "]).
Proof.
  apply (unclosed_block_hides_the_rest Ser _ "Hi " "never </think> closed");
    reflexivity.
Defined.

(** * The variables of the generator *)

Lemma state_after_vars (stream : list ChatCompletionChunk) :
  forall v,
    fold_left (fun v chunk => fst (filter_chunk v chunk)) stream v =
    vars_after v (fragments_of stream).
Proof.
  induction stream as [|k stream IH]; intros v; [reflexivity |].
  cbn [fold_left fragments_of flat_map]. rewrite vars_after_app, IH.
  pose proof (filter_chunk_text v k) as H.
  destruct (filter_chunk v k) as [v' yielded]. destruct H as [_ ->]. reflexivity.
Qed.

Lemma startsWith_shorter (t r : string) :
  startsWith t r = true -> startsWith r t = false ->
  String.length r < String.length t.
Proof.
  intros Hp Hn. pose proof (startsWith_length _ _ Hp) as Hle.
  destruct (Nat.eq_dec (String.length r) (String.length t)) as [E|]; [| lia].
  exfalso. apply startsWith_true in Hp.
  assert (Hs : slice (String.length r) t = EmptyString).
  { pose proof (length_slice (String.length r) t) as L.
    destruct (slice (String.length r) t); [reflexivity | simpl in L; lia]. }
  rewrite Hs, append_empty_r in Hp. subst t.
  pose proof (startsWith_self r EmptyString) as S. rewrite append_empty_r in S.
  congruence.
Qed.

(** The scan stops early only on a proper prefix of a tag. *)
Lemma break_is_short (v : FilterVars) (r out : string) :
  loop_body v r out = Break -> String.length r <= 7.
Proof.
  unfold loop_body. intros H.
  repeat match type of H with
         | (if startsWith r ?t then _ else _) = _ =>
             let E := fresh "E" in destruct (startsWith r t) eqn:E; [discriminate H |]
         | (if startsWith ?t r then _ else _) = _ =>
             let E := fresh "E" in destruct (startsWith t r) eqn:E;
             [ match goal with
               | Hn : startsWith r t = false |- _ =>
                   pose proof (startsWith_shorter t r E Hn) as L; simpl in L; lia
               end
             | discriminate H ]
         | (if isReasoning _ then _ else _) = _ => destruct (isReasoning (state v))
         | (if isSer _ then _ else _) = _ => destruct (isSer (state v))
         end.
  destruct (startsWith "<think>" r) eqn:P1.
  { pose proof (startsWith_shorter _ _ P1 E) as L. simpl in L. lia. }
  destruct (startsWith "<ser>" r) eqn:P2.
  { pose proof (startsWith_shorter _ _ P2 E0) as L. simpl in L. lia. }
  cbn [orb] in H. destruct r as [|c r]; [simpl; lia |].
  cbv zeta in H.
  repeat match type of H with
         | (if ?c then _ else _) = _ => destruct c
         end; discriminate H.
Qed.

Lemma process_fragment_buffer (v : FilterVars) (content : string) :
  String.length (buffer (fst (process_fragment v content))) <= 7.
Proof.
  rewrite process_fragment_scan.
  destruct (scan v (buffer v +:+ content) EmptyString) as [[v' r'] o] eqn:E.
  cbn [fst buffer set_buffer].
  destruct (scan_stops _ _ _ _ _ _ _ (Nat.le_refl _) E) as [-> | B]; [simpl; lia |].
  now apply break_is_short in B.
Qed.

Lemma loop_body_one_block (v : FilterVars) (r out : string)
    (v' : FilterVars) (r' out' : string) :
  loop_body v r out = Continue v' r' out' -> one_block v -> one_block v'.
Proof.
  unfold loop_body, one_block. intros H.
  destruct (isReasoning (state v)) eqn:Hr; destruct (isSer (state v)) eqn:Hs;
    try (intros Hboth; discriminate Hboth); intros _;
    repeat match type of H with
           | (if ?c then _ else _) = _ => destruct c
           | match ?s with EmptyString => _ | String _ _ => _ end = _ => destruct s
           end;
    cbv zeta in H;
    repeat match type of H with
           | (if ?c then _ else _) = _ => destruct c
           end;
    try discriminate H;
    injection H as <- _ _; cbn; rewrite ?Hr, ?Hs; reflexivity.
Qed.

Lemma scan_one_block (n : nat) :
  forall (v : FilterVars) (r out : string) (v' : FilterVars) (r' out' : string),
    String.length r <= n ->
    scan v r out = (v', r', out') -> one_block v -> one_block v'.
Proof.
  induction n as [|n IH]; intros v r out v' r' out' Hn E W.
  - destruct r; simpl in Hn; [| lia]. rewrite scan_empty in E.
    now injection E as <- <- <-.
  - destruct r as [|c r]; [rewrite scan_empty in E; now injection E as <- <- <- |].
    rewrite scan_step in E.
    destruct (loop_body v (String c r) out) as [|v1 r1 out1] eqn:B;
      [now injection E as <- <- <- |].
    apply loop_body_shrinks in B as Hlt. simpl in Hlt, Hn.
    apply (IH v1 r1 out1 v' r' out'); [lia | exact E |].
    now apply (loop_body_one_block _ _ _ _ _ _ B).
Qed.

Lemma vars_after_small (fragments : list string) :
  forall v,
    String.length (buffer v) <= 7 -> one_block v ->
    String.length (buffer (vars_after v fragments)) <= 7
    /\ one_block (vars_after v fragments).
Proof.
  induction fragments as [|f fs IH]; intros v Hb Ho; [auto |].
  cbn [vars_after]. destruct (truthy f); [| now apply IH].
  apply IH; [apply process_fragment_buffer |].
  rewrite process_fragment_scan.
  destruct (scan v (buffer v +:+ f) EmptyString) as [[v' r'] o] eqn:E.
  cbn [fst]. apply (scan_one_block _ _ _ _ _ _ _ (Nat.le_refl _) E) in Ho.
  exact Ho.
Qed.

(** X7.  Whatever the stream, the text the generator carries over from
    one fragment to the next is never longer than seven code units (a
    proper prefix of a tag), and the generator is never inside a
    reasoning block and a structured block at once. *)
Theorem carry_over_is_bounded (stream : list ChatCompletionChunk) :
  String.length (buffer (state_after stream)) <= 7
  /\ isReasoning (state (state_after stream))
     && isSer (state (state_after stream)) = false.
Proof.
  unfold state_after. rewrite state_after_vars.
  apply vars_after_small; [simpl; lia | reflexivity].
Qed.

(** * What the filter leaves of the chunks *)

Lemma filter_choice_frame (v : FilterVars) (c : Choice) :
  match snd (filter_choice v c) with
  | Some c' => choice_frame c' = choice_frame c
  | None => True
  end.
Proof.
  destruct c as [i m [d|] fr lp]; unfold filter_choice; cbn [delta];
    [| reflexivity].
  destruct (truthy_opt (d_content d)); [| reflexivity].
  destruct (process_fragment v (default EmptyString (d_content d))) as [v' o].
  destruct (truthy o); [reflexivity |].
  cbn [finish_reason]. destruct (truthy_opt fr); [reflexivity | exact I].
Qed.

Lemma filter_choices_frames (cs : list Choice) :
  forall v,
    sublist (map choice_frame (snd (filter_choices v cs))) (map choice_frame cs).
Proof.
  induction cs as [|c cs IH]; intros v; [constructor |].
  cbn [filter_choices].
  pose proof (filter_choice_frame v c) as Hc.
  destruct (filter_choice v c) as [v1 pushed]. cbn [snd] in Hc.
  specialize (IH v1). destruct (filter_choices v1 cs) as [v2 newChoices].
  cbn [snd map] in *. destruct pushed as [c'|].
  - cbn [map]. cbv beta iota in Hc. rewrite Hc. now constructor.
  - now constructor.
Qed.

Lemma filter_chunk_left (v : FilterVars) (k : ChatCompletionChunk) :
  match snd (filter_chunk v k) with
  | Some k' => left_of k k'
  | None => True
  end.
Proof.
  unfold filter_chunk. pose proof (filter_choices_frames (k_choices k) v) as H.
  destruct (filter_choices v (k_choices k)) as [v' newChoices]. cbn [snd] in *.
  destruct newChoices as [|c cs]; [exact I |].
  cbn [shouldYieldChunk]. repeat split; [discriminate | exact H].
Qed.

(** X8.  The filter reorders, merges and invents nothing.  The chunks it
    emits correspond, one to one and in order, to some of the incoming
    chunks; each has the [id], [created], [model], [object] and
    [system_fingerprint] of its incoming chunk and at least one choice,
    and its choices are, in order, choices of the incoming chunk with
    [index], [finish_reason], [logprobs], [role], [function_call] and
    [tool_calls] unchanged. *)
Theorem filter_keeps_chunks_in_order (stream : list ChatCompletionChunk) :
  exists kept,
    sublist kept stream
    /\ Forall2 left_of kept (createFilteredStreamGenerator stream).
Proof.
  unfold createFilteredStreamGenerator. generalize initialVars.
  induction stream as [|k stream IH]; intros v.
  - exists []. split; constructor.
  - cbn [filtered_from]. pose proof (filter_chunk_left v k) as Hk.
    destruct (filter_chunk v k) as [v' yielded]. cbn [snd] in Hk.
    destruct (IH v') as (kept & Hsub & Hall).
    destruct yielded as [k'|].
    + exists (k :: kept). split; [now constructor | now constructor].
    + exists kept. split; [now constructor | exact Hall].
Qed.

Lemma filter_choices_text_free (cs : list Choice) (v : FilterVars) :
  Forall (fun c => truthy (choice_text c) = false) cs ->
  filter_choices v cs = (v, cs).
Proof.
  induction 1 as [|c cs Hc _ IH]; [reflexivity |].
  cbn [filter_choices].
  assert (E : filter_choice v c = (v, Some c)).
  { destruct c as [i m [[[s|] fc ro tcs]|] fr lp]; unfold filter_choice;
      cbn in *; try reflexivity. now rewrite Hc. }
  now rewrite E, IH.
Qed.

(** X9.  A stream in which no choice bears text (role, tool call and
    finish reason chunks) comes out as it went in, except for the chunks
    with an empty list of choices, which are dropped. *)
Theorem text_free_stream_passes (stream : list ChatCompletionChunk) :
  text_free stream ->
  createFilteredStreamGenerator stream =
  List.filter (fun k => shouldYieldChunk (k_choices k)) stream.
Proof.
  unfold createFilteredStreamGenerator. generalize initialVars.
  induction 1 as [|k stream Hk _ IH]; [reflexivity |].
  cbn [filtered_from List.filter]. unfold filter_chunk.
  rewrite (filter_choices_text_free _ _ Hk).
  destruct (shouldYieldChunk (k_choices k)); [| exact IH].
  rewrite IH. f_equal. now destruct k.
Qed.

Lemma text_free_stream_passes_witness :
  createFilteredStreamGenerator
    [with_choices (text_chunk 0 EmptyString) []; text_chunk 0 EmptyString] =
  List.filter (fun k => shouldYieldChunk (k_choices k))
    [with_choices (text_chunk 0 EmptyString) []; text_chunk 0 EmptyString].
Proof.
  apply (text_free_stream_passes
           [with_choices (text_chunk 0 EmptyString) []; text_chunk 0 EmptyString]).
  repeat constructor.
Defined.

(** * More on the event framer *)

Section FramerMore.

Variable JSON_parse : string -> JSON + string.
Variable TypeError_text : string.

(** X10.  The [DONE] line ends the stream: a line that is [data: [DONE]]
    once the white space around it is trimmed makes the generator return
    with the chunks of the lines before it, if the generator gets to it.
    Nothing after it is decoded, be it malformed. *)
Theorem done_ends_the_stream
    (reads_before reads_after : list string) (read : string)
    (lines_before lines_after : list string) (line : string)
    (chunks1 chunks2 : list WireChunk) :
  handle_reads JSON_parse TypeError_text reads_before = (chunks1, Next) ->
  split_lines read = lines_before ++ line :: lines_after ->
  handle_lines JSON_parse TypeError_text lines_before = (chunks2, Next) ->
  trim line = "data: [DONE]" ->
  handleStreamResponse JSON_parse TypeError_text
    (reads_before ++ read :: reads_after)
  = (chunks1 ++ chunks2, Done).
Proof.
  intros H1 Hsplit H2 Hdone. unfold handleStreamResponse.
  rewrite handle_reads_app, H1, handle_reads_cons, Hsplit, handle_lines_app, H2.
  rewrite handle_lines_cons.
  assert (El : line_run JSON_parse TypeError_text line = ([], Return)).
  { unfold line_run, handle_line. rewrite Hdone. reflexivity. }
  rewrite El. cbn [and_then fst snd]. now rewrite app_nil_r.
Qed.

(** A line the framer passes over. *)
Lemma passed_over (line : string) :
  startsWith line "data: " = false -> trim line <> "data: [DONE]" ->
  line_run JSON_parse TypeError_text line = ([], Next).
Proof.
  intros Hd Hn. unfold line_run, handle_line.
  apply String.eqb_neq in Hn. rewrite Hn, Hd.
  destruct (String.eqb (trim line) EmptyString); reflexivity.
Qed.

(** X11.  A line that does not start with [data: ] and is not the [DONE]
    line is passed over without a trace: a comment, an [event:] or [id:]
    field, a data line without the space after the colon, a data line
    that is indented.  The stream with the line and the stream without it
    give the same chunks and end the same way. *)
Theorem other_lines_are_ignored
    (reads_before reads_after : list string) (read read' : string)
    (lines_before lines_after : list string) (line : string) :
  startsWith line "data: " = false ->
  trim line <> "data: [DONE]" ->
  split_lines read = lines_before ++ line :: lines_after ->
  split_lines read' = lines_before ++ lines_after ->
  handleStreamResponse JSON_parse TypeError_text
    (reads_before ++ read :: reads_after) =
  handleStreamResponse JSON_parse TypeError_text
    (reads_before ++ read' :: reads_after).
Proof.
  intros Hd Hn Hs Hs'. unfold handleStreamResponse.
  rewrite !handle_reads_app, !handle_reads_cons, Hs, Hs', !handle_lines_app.
  rewrite handle_lines_cons, (passed_over line Hd Hn), and_then_next_l.
  reflexivity.
Qed.

End FramerMore.

(** The [DONE] line of a stream with carriage returns, followed by a
    line that could not be decoded. *)
Lemma done_ends_the_stream_witness :
  handleStreamResponse example_parse "TypeError"
    ([] ++ ("data: {}" +:+ eol +:+ "data: [DONE]" +:+ String "013" eol
            +:+ "data: {bad" +:+ eol) :: []) =
  ([] ++ [{| w_chunk_id := JStr EmptyString;
             w_created := JNum 0;
             w_model := JStr EmptyString;
             w_choices := [];
             w_object := "chat.completion.chunk";
             w_system_fingerprint := None |}], Done).
Proof.
  apply (done_ends_the_stream example_parse "TypeError" [] []
           _ ["data: {}"] ["data: {bad"; EmptyString]
           ("data: [DONE]" +:+ String "013" EmptyString));
    reflexivity.
Defined.

(** A comment line between two data lines. *)
Lemma other_lines_are_ignored_witness :
  handleStreamResponse example_parse "TypeError"
    ([] ++ ("data: {}" +:+ eol +:+ ": keep-alive" +:+ eol +:+ "data: {}") :: []) =
  handleStreamResponse example_parse "TypeError"
    ([] ++ ("data: {}" +:+ eol +:+ "data: {}") :: []).
Proof.
  apply (other_lines_are_ignored example_parse "TypeError" [] [] _ _
           ["data: {}"] ["data: {}"] ": keep-alive");
    try reflexivity.
  vm_compute. discriminate.
Defined.

(** * The shape of what the completion filter returns *)

Lemma trimStart_starts (s : string) : starts_with_text (trimStart s) = true.
Proof.
  induction s as [|c s IH]; [reflexivity |]. cbn [trimStart].
  destruct (isWhiteSpace c) eqn:Hc; [exact IH |]. cbn. now rewrite Hc.
Qed.

Lemma trimEnd_ends (s : string) : ends_with_text (trimEnd s) = true.
Proof.
  induction s as [|c s IH]; [reflexivity |]. cbn [trimEnd].
  destruct (trimEnd s) as [|d t].
  - destruct (isWhiteSpace c) eqn:Hc; [reflexivity |]. cbn. now rewrite Hc.
  - exact IH.
Qed.

Lemma trimEnd_starts (s : string) :
  starts_with_text s = true -> starts_with_text (trimEnd s) = true.
Proof.
  destruct s as [|c s]; [reflexivity |]. cbn [starts_with_text trimEnd].
  intros Hc. destruct (trimEnd s); [| exact Hc].
  apply negb_true_iff in Hc. rewrite Hc. cbn. now rewrite Hc.
Qed.

(** [trimStart] keeps an end of the text, [trimEnd] a beginning. *)
Lemma trimStart_suffix (s : string) : exists pre, s = pre +:+ trimStart s.
Proof.
  induction s as [|c s [pre IH]]; [exists EmptyString; reflexivity |].
  cbn [trimStart]. destruct (isWhiteSpace c).
  - exists (String c pre). change (String c pre +:+ ?x) with (String c (pre +:+ x)).
    now rewrite <- IH.
  - exists EmptyString. reflexivity.
Qed.

Lemma trimEnd_prefix (s : string) : exists post, s = trimEnd s +:+ post.
Proof.
  induction s as [|c s [post IH]]; [exists EmptyString; reflexivity |].
  cbn [trimEnd]. destruct (trimEnd s) as [|d t] eqn:E.
  - change (EmptyString +:+ post) with post in IH.
    destruct (isWhiteSpace c).
    + exists (String c s). reflexivity.
    + exists s. reflexivity.
  - exists post. change (String c (String d t) +:+ post)
      with (String c (String d t +:+ post)). now rewrite <- IH.
Qed.

(** The counters of runs only grow. *)
Lemma char_runs_grow (c : ascii) (s : string) :
  forall run best run' best',
    run <= run' -> best <= best' ->
    fst (char_runs c run best s) <= fst (char_runs c run' best' s)
    /\ snd (char_runs c run best s) <= snd (char_runs c run' best' s)
    /\ best <= snd (char_runs c run best s).
Proof.
  induction s as [|d s IH]; intros run best run' best' Hr Hb; [cbn; lia |].
  cbn [char_runs]. destruct (Ascii.eqb d c).
  - destruct (IH (S run) (Nat.max best (S run)) (S run') (Nat.max best' (S run')))
      as (H1 & H2 & H3); lia.
  - destruct (IH 0 best 0 best') as (H1 & H2 & H3); lia.
Qed.

(** A piece of a text has no longer runs than the text. *)
Lemma longest_run_piece (c : ascii) (pre s post : string) :
  longest_run c s <= longest_run c (pre +:+ s +:+ post).
Proof.
  unfold longest_run. rewrite !char_runs_append.
  destruct (char_runs c 0 0 pre) as [r b]. cbn [fst snd].
  destruct (char_runs_grow c s 0 0 r b ltac:(lia) ltac:(lia)) as (_ & H & _).
  destruct (char_runs c r b s) as [r1 b1]. cbn [fst snd] in *.
  destruct (char_runs_grow c post r1 b1 r1 b1 ltac:(lia) ltac:(lia)) as (_ & _ & H').
  lia.
Qed.

Lemma longest_run_trim (c : ascii) (s : string) :
  longest_run c (trim s) <= longest_run c s.
Proof.
  unfold trim. destruct (trimStart_suffix s) as [pre E1].
  destruct (trimEnd_prefix (trimStart s)) as [post E2].
  rewrite E1 at 2. rewrite E2 at 2. apply longest_run_piece.
Qed.

(** A text is a run of [c] followed by nothing or by another character. *)
Lemma span_char_spec (c : ascii) (s : string) :
  s = repeat_char c (fst (span_char c s)) +:+ snd (span_char c s)
  /\ (snd (span_char c s) = EmptyString
      \/ exists d r, snd (span_char c s) = String d r /\ Ascii.eqb d c = false).
Proof.
  induction s as [|d s [IH1 IH2]]; [split; [reflexivity | left; reflexivity] |].
  cbn [span_char]. destruct (Ascii.eqb d c) eqn:E.
  - apply Ascii.eqb_eq in E. subst d.
    destruct (span_char c s) as [n rest]. cbn [fst snd] in *.
    split; [| exact IH2]. cbn [repeat_char].
    change (String c (repeat_char c n) +:+ rest)
      with (String c (repeat_char c n +:+ rest)). now rewrite <- IH1.
  - cbn [fst snd repeat_char]. split; [reflexivity |]. right. eauto.
Qed.

Lemma span_char_all (c : ascii) (n : nat) :
  span_char c (repeat_char c n) = (n, EmptyString).
Proof.
  induction n as [|n IH]; [reflexivity |]. cbn [repeat_char span_char].
  now rewrite Ascii.eqb_refl, IH.
Qed.

Lemma spaces_run_end (n : nat) :
  replace match_spaces (repeat_char space (S n)) = String space EmptyString.
Proof.
  destruct n as [|n]; [reflexivity |].
  cbn [repeat_char].
  rewrite (replace_some _ _ _ (String space EmptyString) EmptyString).
  - reflexivity.
  - apply match_spaces_consuming.
  - unfold match_spaces.
    change (String space (String space (repeat_char space n)))
      with (repeat_char space (S (S n))).
    now rewrite span_char_all.
Qed.

Lemma newlines_run_end (n : nat) :
  replace match_newlines (repeat_char newline n) = repeat_char newline (Nat.min n 2).
Proof.
  destruct n as [|[|[|n]]]; try reflexivity.
  cbn [repeat_char].
  rewrite (replace_some _ _ _ (String newline (String newline EmptyString)) EmptyString).
  - reflexivity.
  - apply match_newlines_consuming.
  - unfold match_newlines.
    change (String newline (String newline (String newline (repeat_char newline n))))
      with (repeat_char newline (S (S (S n)))).
    now rewrite span_char_all.
Qed.

Lemma char_runs_repeat (c : ascii) (n : nat) :
  forall run best s,
    run <= best ->
    char_runs c run best (repeat_char c n +:+ s) =
    char_runs c (run + n) (Nat.max best (run + n)) s.
Proof.
  induction n as [|n IH]; intros run best s Hrb.
  - cbn [repeat_char]. change (EmptyString +:+ s) with s.
    rewrite Nat.add_0_r, Nat.max_l by lia. reflexivity.
  - cbn [repeat_char].
    change (String c (repeat_char c n) +:+ s) with (String c (repeat_char c n +:+ s)).
    cbn [char_runs]. rewrite Ascii.eqb_refl, IH by lia.
    f_equal; lia.
Qed.

Lemma char_runs_other (c d : ascii) (n : nat) (s : string) :
  Ascii.eqb d c = false ->
  forall run best,
    char_runs c run best (repeat_char d (S n) +:+ s) = char_runs c 0 best s.
Proof.
  intros Hd. induction n as [|n IH]; intros run best.
  - cbn [repeat_char]. change (String d EmptyString +:+ s) with (String d s).
    cbn [char_runs]. now rewrite Hd.
  - change (repeat_char d (S (S n)) +:+ s)
      with (String d (repeat_char d (S n) +:+ s)).
    cbn [char_runs]. rewrite Hd. apply IH.
Qed.

(** A text that starts with [c] is a run of at least one [c] followed by
    nothing or by another character. *)
Lemma leading_run (c : ascii) (s : string) :
  exists k rest,
    String c s = repeat_char c (S k) +:+ rest
    /\ (rest = EmptyString \/ exists d r, rest = String d r /\ Ascii.eqb d c = false).
Proof.
  destruct (span_char_spec c s) as [E H].
  exists (fst (span_char c s)), (snd (span_char c s)). split; [| exact H].
  cbn [repeat_char].
  change (String c (repeat_char c (fst (span_char c s))) +:+ ?x)
    with (String c (repeat_char c (fst (span_char c s)) +:+ x)).
  now rewrite <- E.
Qed.

Lemma length_repeat_char (c : ascii) (n : nat) : String.length (repeat_char c n) = n.
Proof. induction n as [|n IH]; [reflexivity | simpl; now rewrite IH]. Qed.

(** After the pass on spaces no two spaces stand together. *)
Lemma spaces_pass_runs (n : nat) :
  forall s best,
    String.length s <= n ->
    snd (char_runs space 0 best (replace match_spaces s)) <= Nat.max best 1.
Proof.
  induction n as [|n IH]; intros s best Hn.
  - destruct s; simpl in Hn; [cbn; lia | lia].
  - destruct s as [|c s]; [cbn; lia |].
    destruct (Ascii.eqb c space) eqn:Hc.
    + apply Ascii.eqb_eq in Hc. subst c.
      destruct (leading_run space s) as (k & rest & E & [-> | (d & r & -> & Hd)]).
      * rewrite E, append_empty_r, spaces_run_end. cbn. lia.
      * assert (Hlen : String.length r <= n).
        { apply (f_equal String.length) in E.
          rewrite length_append, length_repeat_char in E. simpl in E, Hn. lia. }
        rewrite E, spaces_run by exact Hd.
        cbn [char_runs]. rewrite Ascii.eqb_refl, Hd.
        specialize (IH r (Nat.max best 1) Hlen). lia.
    + rewrite spaces_text by exact Hc. cbn [char_runs]. rewrite Hc.
      simpl in Hn. apply IH. lia.
Qed.

(** The pass on spaces leaves the runs of line feeds as they are. *)
Lemma spaces_pass_newlines (n : nat) :
  forall s run best,
    String.length s <= n ->
    char_runs newline run best (replace match_spaces s) = char_runs newline run best s.
Proof.
  induction n as [|n IH]; intros s run best Hn.
  - destruct s; simpl in Hn; [reflexivity | lia].
  - destruct s as [|c s]; [reflexivity |].
    destruct (Ascii.eqb c space) eqn:Hc.
    + apply Ascii.eqb_eq in Hc. subst c.
      destruct (leading_run space s) as (k & rest & E & [-> | (d & r & -> & Hd)]).
      * rewrite E, append_empty_r, spaces_run_end.
        rewrite <- (append_empty_r (repeat_char space (S k))).
        rewrite (char_runs_other newline space k EmptyString eq_refl). reflexivity.
      * assert (Hlen : String.length r <= n).
        { apply (f_equal String.length) in E.
          rewrite length_append, length_repeat_char in E. simpl in E, Hn. lia. }
        rewrite E, spaces_run by exact Hd.
        rewrite (char_runs_other newline space k _ eq_refl).
        cbn [char_runs]. change (Ascii.eqb space newline) with false. cbv iota.
        destruct (Ascii.eqb d newline); now rewrite IH.
    + rewrite spaces_text by exact Hc. cbn [char_runs]. simpl in Hn.
      destruct (Ascii.eqb c newline); apply IH; lia.
Qed.

(** After the pass on line feeds no three line feeds stand together. *)
Lemma newlines_pass_runs (n : nat) :
  forall s best,
    String.length s <= n ->
    snd (char_runs newline 0 best (replace match_newlines s)) <= Nat.max best 2.
Proof.
  induction n as [|n IH]; intros s best Hn.
  - destruct s; simpl in Hn; [cbn; lia | lia].
  - destruct s as [|c s]; [cbn; lia |].
    destruct (Ascii.eqb c newline) eqn:Hc.
    + apply Ascii.eqb_eq in Hc. subst c.
      destruct (leading_run newline s) as (k & rest & E & [-> | (d & r & -> & Hd)]).
      * rewrite E, append_empty_r, newlines_run_end.
        rewrite <- (append_empty_r (repeat_char newline _)).
        rewrite char_runs_repeat by lia. cbn [char_runs snd]. lia.
      * assert (Hlen : String.length r <= n).
        { apply (f_equal String.length) in E.
          rewrite length_append, length_repeat_char in E. simpl in E, Hn. lia. }
        rewrite E, newlines_run by exact Hd.
        rewrite char_runs_repeat by lia. cbn [char_runs]. rewrite Hd.
        specialize (IH r (Nat.max best (0 + Nat.min (S k) 2)) Hlen). lia.
    + rewrite newlines_text by exact Hc. cbn [char_runs]. rewrite Hc.
      simpl in Hn. apply IH. lia.
Qed.

(** X12.  What the completion filter returns for a text is trimmed: it
    is empty or starts and ends with a character that is no white
    space. *)
Theorem completion_filter_trims (text : string) :
  exists result,
    filterThinkSerBlocks (Some text) = Some result
    /\ starts_with_text result = true
    /\ ends_with_text result = true.
Proof.
  unfold filterThinkSerBlocks. cbn [truthy_opt default].
  destruct (truthy text) eqn:Ht; cbn [negb].
  - eexists. split; [reflexivity |]. unfold trim. split.
    + apply trimEnd_starts, trimStart_starts.
    + apply trimEnd_ends.
  - apply truthy_false in Ht. subst text. exists EmptyString. auto.
Qed.

(** X13.  What the completion filter returns never has two spaces in a
    row nor three line feeds in a row. *)
Theorem completion_filter_collapses_runs (text : string) :
  exists result,
    filterThinkSerBlocks (Some text) = Some result
    /\ longest_run space result <= 1
    /\ longest_run newline result <= 2.
Proof.
  unfold filterThinkSerBlocks. cbn [truthy_opt default].
  destruct (truthy text) eqn:Ht; cbn [negb].
  - eexists. split; [reflexivity |]. cbv zeta. split.
    + etransitivity; [apply longest_run_trim |].
      unfold longest_run.
      etransitivity; [apply (spaces_pass_runs _ _ 0 (Nat.le_refl _)) | lia].
    + etransitivity; [apply longest_run_trim |].
      unfold longest_run.
      rewrite (spaces_pass_newlines _ _ 0 0 (Nat.le_refl _)).
      etransitivity; [apply (newlines_pass_runs _ _ 0 (Nat.le_refl _)) | lia].
  - apply truthy_false in Ht. subst text. exists EmptyString. cbn. auto.
Qed.

(** * Blocks and the completion filter *)

Lemma filterThinkSerBlocks_passes (text : string) :
  filterThinkSerBlocks (Some text) =
  Some (trim (replace match_spaces (replace match_newlines (replace match_broken_word
          (replace (match_block "<ser>" "</ser>")
             (replace (match_block "<think>" "</think>") text)))))).
Proof.
  unfold filterThinkSerBlocks. cbn [truthy_opt default].
  destruct (truthy text) eqn:Ht; [reflexivity |].
  apply truthy_false in Ht. subst text. reflexivity.
Qed.

Lemma startsWith_first_differs (t : string) (c : ascii) (s : string) :
  startsWith t "<" = true -> Ascii.eqb c "<" = false ->
  startsWith (String c s) t = false.
Proof.
  intros Ht Hc. destruct t as [|d t]; [discriminate Ht |].
  cbn [startsWith] in *. destruct (Ascii.eqb_spec d "<") as [-> |]; [| discriminate Ht].
  now rewrite Hc.
Qed.

Lemma after_first_unfold (s t : string) :
  after_first s t =
  if startsWith s t then Some (slice (String.length t) s)
  else match s with
       | EmptyString => None
       | String _ s' => after_first s' t
       end.
Proof. destruct s; reflexivity. Qed.

Lemma after_first_body (close body rest : string) :
  startsWith close "<" = true -> tag_free body = true ->
  after_first (body +:+ close +:+ rest) close = Some rest.
Proof.
  intros Hc. induction body as [|c body IH]; intros Hb.
  - change (EmptyString +:+ close +:+ rest) with (close +:+ rest).
    now rewrite after_first_unfold, startsWith_self, slice_self.
  - cbn [tag_free] in Hb. apply andb_prop in Hb as [Hc' Hb].
    apply negb_true_iff in Hc'.
    change (String c body +:+ close +:+ rest)
      with (String c (body +:+ close +:+ rest)).
    rewrite after_first_unfold, (startsWith_first_differs close c _ Hc Hc').
    now apply IH.
Qed.

(** A pass that removes blocks copies a text without ['<'] and goes on
    behind it. *)
Lemma block_pass_prefix (open close a x : string) :
  startsWith open "<" = true -> tag_free a = true ->
  replace (match_block open close) (a +:+ x) =
  a +:+ replace (match_block open close) x.
Proof.
  intros Ho. induction a as [|c a IH]; intros Ha; [reflexivity |].
  cbn [tag_free] in Ha. apply andb_prop in Ha as [Hc Ha]. apply negb_true_iff in Hc.
  change (String c a +:+ ?y) with (String c (a +:+ y)).
  rewrite replace_none.
  - now rewrite IH.
  - apply match_block_consuming. destruct open; [discriminate Ho | simpl; lia].
  - unfold match_block. now rewrite (startsWith_first_differs open c _ Ho Hc).
Qed.

(** The pass for a kind of block removes a block of that kind with a body
    without ['<']. *)
Lemma block_pass_removes (b : Block) (body rest : string) :
  tag_free body = true ->
  replace (match_block (open_tag b) (close_tag b))
          (open_tag b +:+ body +:+ close_tag b +:+ rest) =
  replace (match_block (open_tag b) (close_tag b)) rest.
Proof.
  intros Hb.
  assert (E : exists c s, open_tag b +:+ body +:+ close_tag b +:+ rest = String c s)
    by (destruct b; eexists _, _; reflexivity).
  destruct E as (c & s & E). rewrite E.
  rewrite (replace_some _ c s EmptyString rest); [reflexivity | |].
  - apply match_block_consuming. destruct b; simpl; lia.
  - rewrite <- E. unfold match_block.
    rewrite startsWith_self, slice_self, after_first_body;
      [reflexivity | destruct b; reflexivity | exact Hb].
Qed.

Lemma tag_free_append (s t : string) :
  tag_free (s +:+ t) = tag_free s && tag_free t.
Proof.
  induction s as [|c s IH]; [reflexivity |].
  change (String c s +:+ t) with (String c (s +:+ t)).
  cbn [tag_free]. now rewrite IH, andb_assoc.
Qed.

(** The pass for reasoning blocks copies a structured block with a body
    without ['<']. *)
Lemma think_pass_skips_ser (body rest : string) :
  tag_free body = true ->
  replace (match_block "<think>" "</think>") ("<ser>" +:+ body +:+ "</ser>" +:+ rest) =
  "<ser>" +:+ body +:+ "</ser>"
  +:+ replace (match_block "<think>" "</think>") rest.
Proof.
  intros Hb.
  change ("<ser>" +:+ body +:+ "</ser>" +:+ rest)
    with (String "<" ("ser>" +:+ body +:+ "</ser>" +:+ rest)).
  rewrite replace_none;
    [| apply match_block_consuming; simpl; lia | reflexivity].
  rewrite <- append_assoc, block_pass_prefix;
    [| reflexivity | rewrite tag_free_append; now rewrite Hb].
  change ("</ser>" +:+ rest) with (String "<" ("/ser>" +:+ rest)).
  rewrite replace_none;
    [| apply match_block_consuming; simpl; lia | reflexivity].
  rewrite (block_pass_prefix "<think>" "</think>" "/ser>" rest eq_refl eq_refl).
  rewrite !append_assoc. reflexivity.
Qed.

(** X14.  The completion filter removes a closed block of either kind
    whole: with no ['<'] before the block and none in its body, the
    result is the result for the text without the block, whatever
    follows the block. *)
Theorem completion_filter_removes_block (b : Block) (a body rest : string) :
  tag_free a = true -> tag_free body = true ->
  filterThinkSerBlocks (Some (a +:+ open_tag b +:+ body +:+ close_tag b +:+ rest)) =
  filterThinkSerBlocks (Some (a +:+ rest)).
Proof.
  intros Ha Hb. rewrite !filterThinkSerBlocks_passes. do 5 f_equal.
  rewrite !(block_pass_prefix "<think>" "</think>" a) by (reflexivity || exact Ha).
  destruct b; cbn [open_tag close_tag].
  - pose proof (block_pass_removes Reasoning body rest Hb) as E.
    cbn [open_tag close_tag] in E. now rewrite E.
  - rewrite (think_pass_skips_ser body rest Hb).
    rewrite !(block_pass_prefix "<ser>" "</ser>" a) by (reflexivity || exact Ha).
    pose proof (block_pass_removes Ser body
                  (replace (match_block "<think>" "</think>") rest) Hb) as E.
    cbn [open_tag close_tag] in E. now rewrite E.
Qed.

Lemma completion_filter_removes_block_witness :
  filterThinkSerBlocks (Some ("Hi " +:+ "<ser>" +:+ "joy" +:+ "</ser>" +:+ "you")) =
  filterThinkSerBlocks (Some ("Hi " +:+ "you")).
Proof.
  apply (completion_filter_removes_block Ser "Hi " "joy" "you"); reflexivity.
Defined.

(** * More on the error classifier *)

Section ClassifierMore.

Variable number_text : Z -> string.

#[local] Abbreviation classify := (handleErrorResponse number_text).


(** X16.  For the statuses 401, 429 and 503 the body of the response
    plays no part, but for a body that is [null]: two responses with the
    same status and headers whose bodies are not [null] give the same
    error, whatever these bodies are and whether or not they can be
    parsed. *)
Theorem body_is_not_read (r1 r2 : Response) :
  status r1 = status r2 ->
  response_headers r1 = response_headers r2 ->
  status r1 = 401%Z \/ status r1 = 429%Z \/ status r1 = 503%Z ->
  json r1 <> Some JNull -> json r2 <> Some JNull ->
  classify r1 = classify r2.
Proof.
  intros Hs Hh Hc H1 H2. unfold handleErrorResponse, extractHeaders.
  rewrite <- Hs, <- Hh.
  destruct (error_envelope_read r1 H1) as (m1 & t1 & c1 & ->).
  destruct (error_envelope_read r2 H2) as (m2 & t2 & c2 & ->).
  destruct Hc as [-> | [-> | ->]]; reflexivity.
Qed.


Lemma or_value_default_text (v : option JSON) (d text : string) :
  or_value v (JStr d) = JStr text -> truthy d = true -> truthy text = true.
Proof.
  unfold or_value. destruct (js_truthy v) eqn:Hv.
  - destruct v as [[| | |s| |]|]; try discriminate; cbn [default].
    intros E _. injection E as <-. exact Hv.
  - intros E H. injection E as <-. exact H.
Qed.

(** Where the field [error] is not the empty string, a message that is a
    string is not empty. *)
Lemma envelope_text (response : Response) (text : string)
    (errorType errorCode : option JSON) :
  error_envelope response = Some (JStr text, errorType, errorCode) ->
  get_prop (Some (errorData response)) "error" <> Some (Some (JStr EmptyString)) ->
  truthy text = true.
Proof.
  unfold error_envelope. cbv zeta.
  destruct (get_prop (Some (errorData response)) "error") as [err|];
    cbn [mbind option_bind]; [| discriminate].
  assert (Hread : forall v : option JSON,
            (message ← get_prop v "message";
             type ← get_prop v "type";
             code ← get_prop v "code";
             Some (or_value message (JStr "Unknown error"), type, code))
            = Some (JStr text, errorType, errorCode) -> truthy text = true).
  { intros v H.
    destruct (get_prop v "message") as [m|]; cbn [mbind option_bind] in H;
      [| discriminate H].
    destruct (get_prop v "type") as [ty|]; cbn [mbind option_bind] in H;
      [| discriminate H].
    destruct (get_prop v "code") as [co|]; cbn [mbind option_bind] in H;
      [| discriminate H].
    injection H as H _ _. now apply (or_value_default_text m "Unknown error"). }
  destruct (is_object err) eqn:Ho; [intros H _; now apply (Hread err) |].
  destruct err as [[| | |s| |]|]; try discriminate Ho;
    try (intros H _; now apply (Hread (Some (errorData response)))).
  intros H Hflat. injection H as <- _ _.
  destruct s; [congruence | reflexivity].
Qed.

(** X18.  Where the response gives its message as a string, or gives
    none, so that a default stands in, the error the classifier builds
    has a message that is not empty, unless the field [error] of the
    body is itself the empty string. *)
Theorem classified_error_has_message (response : Response) (text : string)
    (errorType errorCode : option JSON) (e : ErrorObject) :
  error_envelope response = Some (JStr text, errorType, errorCode) ->
  get_prop (Some (errorData response)) "error" <> Some (Some (JStr EmptyString)) ->
  classify response = Classified e ->
  truthy (e_message e) = true.
Proof.
  intros He Hflat. pose proof (envelope_text _ _ _ _ He Hflat) as Hm.
  unfold handleErrorResponse. rewrite He. cbv zeta. cbn [ToString].
  repeat match goal with
         | |- context [if ?c then _ else _] => destruct c
         | |- context [match ?x with _ => _ end] => destruct x
         end;
    intros H; try discriminate H; injection H as <-; try reflexivity; exact Hm.
Qed.

End ClassifierMore.

Lemma body_is_not_read_witness :
  handleErrorResponse decimal (failed_response 503 "down for maintenance" []) =
  handleErrorResponse decimal
    {| json := None; status := 503; response_headers := Some [] |}.
Proof.
  apply body_is_not_read;
    [reflexivity | reflexivity | right; right; reflexivity
     | discriminate | discriminate].
Defined.

Lemma classified_error_has_message_witness :
  truthy "Internal trouble" = true.
Proof.
  apply (classified_error_has_message decimal
           (failed_response 500 "Internal trouble" []) "Internal trouble" None None
           (new_ServerError "Internal trouble" (Some 500%Z) (Some ∅)));
    [reflexivity | discriminate | reflexivity].
Defined.

(** * Headers *)

Lemma lowerChar_twice (c : ascii) : lowerChar (lowerChar c) = lowerChar c.
Proof. destruct c as [[] [] [] [] [] [] [] []]; reflexivity. Qed.

Lemma toLowerCase_twice (s : string) : toLowerCase (toLowerCase s) = toLowerCase s.
Proof.
  induction s as [|c s IH]; [reflexivity |].
  cbn [toLowerCase]. now rewrite lowerChar_twice, IH.
Qed.

Lemma headers_fold_keeps (entries : list (string * string)) :
  forall (m : gmap string string) (key value : string),
    m !! key = Some value ->
    Forall (fun entry => toLowerCase (fst entry) <> key) entries ->
    fold_left store_header entries m !! key = Some value.
Proof.
  induction entries as [|e entries IH]; intros m key value Hm Hall; [exact Hm |].
  inversion Hall as [|? ? He Hrest]; subst. cbn [fold_left].
  apply IH; [| exact Hrest]. unfold store_header. cbv zeta.
  destruct (String.eqb (toLowerCase (fst e)) "__proto__"); [exact Hm |].
  now rewrite lookup_insert_ne.
Qed.

Lemma headers_fold_lowercase (entries : list (string * string)) :
  forall (m : gmap string string),
    (forall key value, m !! key = Some value -> toLowerCase key = key) ->
    forall key value,
      fold_left store_header entries m !! key = Some value ->
      toLowerCase key = key.
Proof.
  induction entries as [|e entries IH]; intros m Hm key value; [apply Hm |].
  cbn [fold_left]. apply IH. intros k v. unfold store_header. cbv zeta.
  destruct (String.eqb (toLowerCase (fst e)) "__proto__"); [apply Hm |].
  destruct (decide (toLowerCase (fst e) = k)) as [<- | Hne].
  - intros _. apply toLowerCase_twice.
  - rewrite lookup_insert_ne by exact Hne. apply Hm.
Qed.

Lemma extractHeaders_fold (response : Response) :
  extractHeaders response =
  match response_headers response with
  | Some entries => fold_left store_header entries ∅
  | None => ∅
  end.
Proof. reflexivity. Qed.

Lemma extractHeaders_last (response : Response)
    (before after : list (string * string)) (name value : string) :
  response_headers response = Some (before ++ (name, value) :: after) ->
  toLowerCase name <> "__proto__" ->
  Forall (fun entry => toLowerCase (fst entry) <> toLowerCase name) after ->
  extractHeaders response !! toLowerCase name = Some value.
Proof.
  intros Hh Hp Hafter. rewrite extractHeaders_fold, Hh, fold_left_app.
  cbn [fold_left].
  apply headers_fold_keeps; [| exact Hafter].
  unfold store_header. cbn [fst snd]. cbv zeta.
  apply String.eqb_neq in Hp. rewrite Hp. apply lookup_insert_eq.
Qed.

(** X19.  [extractHeaders] matches header names without regard to case,
    and of several headers of one name the last one wins: the value
    found under the lowercase name is that of the last entry whose name
    is that name in any case.  The one name this does not hold for is
    [__proto__], which is never stored. *)
Theorem header_names_ignore_case (response : Response)
    (before after : list (string * string)) (name value : string) :
  response_headers response = Some (before ++ (name, value) :: after) ->
  toLowerCase name <> "__proto__" ->
  Forall (fun entry => toLowerCase (fst entry) <> toLowerCase name) after ->
  extractHeaders response !! toLowerCase name = Some value.
Proof. apply extractHeaders_last. Qed.

Lemma header_names_ignore_case_witness :
  extractHeaders (failed_response 429 "slow down"
                    ([("Retry-After", "5")] ++ ("RETRY-AFTER", "60")
                       :: [("Content-Type", "text/plain")]))
  !! toLowerCase "RETRY-AFTER" = Some "60".
Proof.
  apply (header_names_ignore_case _ [("Retry-After", "5")]
           [("Content-Type", "text/plain")] "RETRY-AFTER" "60");
    [reflexivity | vm_compute; discriminate |].
  repeat constructor. vm_compute. discriminate.
Defined.

(** X20.  Every name in the map [extractHeaders] builds is lowercase, so
    a lookup under a name with a capital letter finds nothing. *)
Theorem extracted_names_are_lowercase (response : Response) (key value : string) :
  extractHeaders response !! key = Some value -> toLowerCase key = key.
Proof.
  rewrite extractHeaders_fold. destruct (response_headers response) as [entries|].
  - apply headers_fold_lowercase. intros k v H. rewrite lookup_empty in H.
    discriminate H.
  - intros H. rewrite lookup_empty in H. discriminate H.
Qed.

Lemma extracted_names_are_lowercase_witness :
  toLowerCase "retry-after" = "retry-after".
Proof.
  apply (extracted_names_are_lowercase
           (failed_response 429 "slow down" [("Retry-After", "60")])
           "retry-after" "60").
  vm_compute. reflexivity.
Defined.

(** X21.  A rate limit response whose body is not [null] and whose
    [Retry-After] header is written in any case gives an error whose
    [retryAfter] is [parseInt] of the value of the last such header:
    the integer the value starts with when that is at most 2^53, a
    double near it beyond. *)
Theorem retry_after_in_any_case (number_text : Z -> string) (response : Response)
    (before after : list (string * string)) (name value : string) :
  status response = 429%Z ->
  json response <> Some JNull ->
  response_headers response = Some (before ++ (name, value) :: after) ->
  toLowerCase name = "retry-after" ->
  Forall (fun entry => toLowerCase (fst entry) <> "retry-after") after ->
  retryAfter <$> classified (handleErrorResponse number_text response)
  = Some (Some (parseInt value)).
Proof.
  intros Hs Hj Hh Hn Hafter.
  destruct (rate_limit_classification number_text response Hs Hj) as (-> & _ & E).
  cbn [classified fmap option_fmap option_map]. rewrite E.
  rewrite <- Hn in Hafter |- *.
  rewrite (extractHeaders_last response before after name value Hh); try assumption.
  - reflexivity.
  - rewrite Hn. discriminate.
Qed.

Lemma retry_after_in_any_case_witness :
  retryAfter <$> classified
                   (handleErrorResponse decimal
                      (failed_response 429 "slow down"
                         ([] ++ ("Retry-After", "120") :: [])))
  = Some (Some (parseInt "120")).
Proof.
  apply (retry_after_in_any_case decimal _ [] [] "Retry-After" "120");
    (reflexivity || discriminate || constructor).
Defined.

(** ** Decoding a payload *)

Lemma get_prop_is_Some (v : JSON) (k : string) :
  v <> JNull -> is_Some (get_prop (Some v) k).
Proof. destruct v; simpl; eauto; congruence. Qed.

Lemma truthy_get_prop (v : option JSON) (k : string) :
  js_truthy v = true -> is_Some (get_prop v k).
Proof. destruct v as [[]|]; simpl; eauto; discriminate. Qed.

Lemma truthy_not_null (v : JSON) : js_truthy (Some v) = true -> v <> JNull.
Proof. intros H ->. discriminate H. Qed.

Lemma or_value_truthy (v : JSON) (d : JSON) :
  js_truthy (Some v) = true -> or_value (Some v) d = v.
Proof. unfold or_value. now intros ->. Qed.

Lemma or_value_falsy (v : option JSON) (d : JSON) :
  js_truthy v = false -> or_value v d = d.
Proof. unfold or_value. now intros ->. Qed.

Lemma falsy_tool_calls_shaped (v : JSON) :
  js_truthy (Some v) = false -> tool_calls_shaped v = true.
Proof. destruct v; simpl; trivial; discriminate. Qed.

Lemma bind_is_Some {A B : Type} (m : option A) (f : A -> option B) :
  (forall a, is_Some (f a)) -> is_Some (m ≫= f) <-> is_Some m.
Proof.
  intros Hf. destruct m as [a|]; simpl.
  - split; eauto.
  - split; intros [? H]; discriminate H.
Qed.

Lemma is_Some_None_false {A : Type} (b : bool) :
  b = false -> is_Some (@None A) <-> b = true.
Proof. intros ->. split; [intros [? H]|intros H]; discriminate H. Qed.

Lemma build_tool_call_is_Some (tc : JSON) :
  is_Some (build_tool_call tc) <-> tool_call_shaped tc = true.
Proof.
  unfold build_tool_call, tool_call_shaped.
  destruct tc as [| | | | |fields]; simpl;
    try (now apply is_Some_None_false).
  destruct (lookup_field "function" fields) as [[]|]; simpl;
    try (now apply is_Some_None_false);
    (split; [reflexivity | eauto]).
Qed.

Lemma tool_calls_decode (items : list JSON) :
  is_Some (mapM build_tool_call items)
  <-> forallb tool_call_shaped items = true.
Proof.
  rewrite mapM_is_Some, forallb_forall, Forall_forall.
  split; intros H tc Hin.
  - apply build_tool_call_is_Some, H. now apply list_elem_of_In.
  - apply build_tool_call_is_Some, H. now apply list_elem_of_In.
Qed.

(** The reads of [tool_calls] and [function_call] off a delta or a
    message. *)
Lemma tool_calls_read (holder : JSON) :
  holder <> JNull ->
  is_Some (tool_calls ← get_prop (Some holder) "tool_calls";
           if js_truthy tool_calls then
             match tool_calls with
             | Some (JArr items) => Some <$> mapM build_tool_call items
             | _ => None
             end
           else Some None)
  <-> tool_calls_shaped holder = true.
Proof.
  intros Hn. destruct holder as [| | | | |fields]; simpl;
    try congruence; try solve [split; eauto].
  destruct (js_truthy (lookup_field "tool_calls" fields)) eqn:Ht.
  - destruct (lookup_field "tool_calls" fields) as [[]|];
      try (now apply is_Some_None_false).
    rewrite <- tool_calls_decode.
    destruct (mapM build_tool_call items); simpl; split; eauto;
      intros [? H]; discriminate H.
  - split; eauto.
Qed.

Lemma function_call_read (holder : JSON) :
  holder <> JNull ->
  is_Some (function_call ← get_prop (Some holder) "function_call";
           if js_truthy function_call then
             name ← get_prop function_call "name";
             arguments ← get_prop function_call "arguments";
             Some (Some {| w_name := name; w_arguments := arguments |})
           else Some None).
Proof.
  intros Hn. destruct (get_prop_is_Some holder "function_call" Hn) as [fc ->].
  simpl. destruct (js_truthy fc) eqn:Hfc; [|eauto].
  destruct (truthy_get_prop fc "name" Hfc) as [? ->].
  destruct (truthy_get_prop fc "arguments" Hfc) as [? ->].
  simpl. eauto.
Qed.

Lemma null_or_not (v : JSON) : v = JNull \/ v <> JNull.
Proof. destruct v; (now left) || (right; congruence). Qed.

(** The object a choice is read from: the one it holds under [field] if
    that is truthy, an empty one otherwise. *)
Lemma holder_read (field : string) (c : JSON) :
  c <> JNull ->
  exists d,
    get_prop (Some c) field = Some d
    /\ or_value d (JObj []) <> JNull
    /\ choice_shaped field c = tool_calls_shaped (or_value d (JObj [])).
Proof.
  intros Hc.
  destruct c as [| | | | |fields]; try congruence;
    try (exists None; repeat split; vm_compute; congruence).
  exists (lookup_field field fields). simpl. split; [reflexivity|].
  destruct (lookup_field field fields) as [h|].
  - destruct (js_truthy (Some h)) eqn:Hh.
    + rewrite (or_value_truthy h _ Hh). split; [|reflexivity].
      now apply truthy_not_null.
    + rewrite (or_value_falsy _ _ Hh). split; [congruence|].
      now rewrite falsy_tool_calls_shaped.
  - split; [|reflexivity]. unfold or_value. simpl. congruence.
Qed.

Lemma tool_calls_result (holder : JSON) :
  holder <> JNull ->
  exists tool_calls,
    get_prop (Some holder) "tool_calls" = Some tool_calls
    /\ (is_Some (if js_truthy tool_calls then
                   match tool_calls with
                   | Some (JArr items) => Some <$> mapM build_tool_call items
                   | _ => None
                   end
                 else Some None)
        <-> tool_calls_shaped holder = true).
Proof.
  intros Hn. pose proof (tool_calls_read holder Hn) as H.
  destruct (get_prop_is_Some holder "tool_calls" Hn) as [tcs E].
  rewrite E in H. exists tcs. split; [exact E | exact H].
Qed.

Lemma function_call_result (holder : JSON) :
  holder <> JNull ->
  exists function_call,
    get_prop (Some holder) "function_call" = Some function_call
    /\ is_Some (if js_truthy function_call then
                  name ← get_prop function_call "name";
                  arguments ← get_prop function_call "arguments";
                  Some (Some {| w_name := name; w_arguments := arguments |})
                else Some None).
Proof.
  intros Hn. pose proof (function_call_read holder Hn) as H.
  destruct (get_prop_is_Some holder "function_call" Hn) as [fc E].
  rewrite E in H. exists fc. split; [exact E | exact H].
Qed.

Ltac read_prop v k H :=
  let E := fresh "E" in
  destruct (get_prop_is_Some v k H) as [? E]; rewrite E; clear E;
  cbn [mbind option_bind].

Lemma build_choice_is_Some (c : JSON) :
  is_Some (build_choice c) <-> choice_shaped "delta" c = true.
Proof.
  unfold build_choice.
  destruct (null_or_not c) as [->|Hc].
  { now apply is_Some_None_false. }
  destruct (holder_read "delta" c Hc) as (d & -> & Hn & ->).
  cbn [mbind option_bind]. cbv zeta.
  set (deltaData := or_value d (JObj [])) in *. clearbody deltaData.
  destruct (tool_calls_result deltaData Hn) as (tcs & -> & <-).
  cbn [mbind option_bind].
  apply bind_is_Some. intros toolCalls.
  destruct (function_call_result deltaData Hn) as (fc & E1 & [functionCall E2]).
  rewrite E1. cbn [mbind option_bind]. rewrite E2. cbn [mbind option_bind].
  read_prop deltaData "content" Hn.
  read_prop deltaData "role" Hn.
  read_prop c "index" Hc.
  read_prop c "finish_reason" Hc.
  read_prop c "logprobs" Hc.
  eauto.
Qed.

Lemma build_message_choice_is_Some (c : JSON) :
  is_Some (build_message_choice c) <-> choice_shaped "message" c = true.
Proof.
  unfold build_message_choice.
  destruct (null_or_not c) as [->|Hc].
  { now apply is_Some_None_false. }
  destruct (holder_read "message" c Hc) as (d & -> & Hn & ->).
  cbn [mbind option_bind]. cbv zeta.
  set (messageData := or_value d (JObj [])) in *. clearbody messageData.
  destruct (tool_calls_result messageData Hn) as (tcs & -> & <-).
  cbn [mbind option_bind].
  apply bind_is_Some. intros toolCalls.
  destruct (function_call_result messageData Hn) as (fc & E1 & [functionCall E2]).
  rewrite E1. cbn [mbind option_bind]. rewrite E2. cbn [mbind option_bind].
  read_prop messageData "role" Hn.
  read_prop messageData "content" Hn.
  read_prop c "index" Hc.
  read_prop c "finish_reason" Hc.
  read_prop c "logprobs" Hc.
  eauto.
Qed.

Lemma choices_decode {A : Type} (f : JSON -> option A) (field : string)
    (items : list JSON) :
  (forall c, is_Some (f c) <-> choice_shaped field c = true) ->
  is_Some (mapM f items) <-> forallb (choice_shaped field) items = true.
Proof.
  intros Hf. rewrite mapM_is_Some, forallb_forall, Forall_forall.
  split; intros H c Hin; apply Hf, H; now apply list_elem_of_In.
Qed.

(** A one character string is a choice without fields. *)
Lemma characters_are_choices (field : string) (s : string) :
  forallb (choice_shaped field)
          (map (fun c => JStr (String c EmptyString)) (list_ascii_of_string s))
  = true.
Proof. induction s as [|c s IH]; simpl; trivial. Qed.

(** The choices of a payload that is not [null]. *)
Lemma choices_read {A : Type} (f : JSON -> option A) (field : string)
    (data : JSON) :
  data <> JNull ->
  (forall c, is_Some (f c) <-> choice_shaped field c = true) ->
  exists data_choices,
    get_prop (Some data) "choices" = Some data_choices
    /\ (is_Some (items ← iterate (or_value data_choices (JArr []));
                 mapM f items)
        <-> payload_shaped field data = true).
Proof.
  intros Hd Hf.
  destruct data as [| | | | |fields]; try congruence;
    try (exists None; split; [reflexivity|]; simpl; split; eauto).
  exists (lookup_field "choices" fields). split; [reflexivity|].
  simpl. unfold or_value.
  destruct (js_truthy (lookup_field "choices" fields)) eqn:Ht.
  - destruct (lookup_field "choices" fields) as [[| | |s|items|]|];
      try discriminate Ht; simpl; try (now apply is_Some_None_false).
    + rewrite (choices_decode f field _ Hf).
      split; [reflexivity | intros _; apply characters_are_choices].
    + apply (choices_decode f field _ Hf).
  - simpl. split; eauto.
Qed.

Lemma build_chunk_is_Some (data : JSON) :
  is_Some (build_chunk data) <-> payload_shaped "delta" data = true.
Proof.
  unfold build_chunk.
  destruct (null_or_not data) as [->|Hd].
  { now apply is_Some_None_false. }
  destruct (choices_read build_choice "delta" data Hd build_choice_is_Some)
    as (cs & -> & <-).
  cbn [mbind option_bind].
  destruct (iterate (or_value cs (JArr []))) as [items|];
    cbn [mbind option_bind]; [|split; intros [? H]; discriminate H].
  apply bind_is_Some. intros choices.
  read_prop data "id" Hd.
  read_prop data "created" Hd.
  read_prop data "model" Hd.
  read_prop data "system_fingerprint" Hd.
  eauto.
Qed.

(** X22.  A payload of the stream is decoded into a chunk exactly when
    it is in shape: it is not [null]; its [choices] are falsy, a string
    or an array; no choice is [null]; the [tool_calls] of a delta are
    falsy or an array; and every tool call is an object with a [function]
    that is not [null]. *)
Theorem chunk_decodes_iff_shaped (data : JSON) :
  is_Some (build_chunk data) <-> payload_shaped "delta" data = true.
Proof. apply build_chunk_is_Some. Qed.

Lemma usage_read (data : JSON) :
  data <> JNull ->
  exists data_usage,
    get_prop (Some data) "usage" = Some data_usage
    /\ is_Some (if js_truthy data_usage then
                  completion_tokens ← get_prop data_usage "completion_tokens";
                  prompt_tokens ← get_prop data_usage "prompt_tokens";
                  total_tokens ← get_prop data_usage "total_tokens";
                  Some (Some {| wu_completion_tokens := or_value completion_tokens (JNum 0);
                                wu_prompt_tokens := or_value prompt_tokens (JNum 0);
                                wu_total_tokens := or_value total_tokens (JNum 0) |})
                else Some None).
Proof.
  intros Hd. destruct (get_prop_is_Some data "usage" Hd) as [u E].
  exists u. split; [exact E|].
  destruct (js_truthy u) eqn:Hu; [|eauto].
  destruct (truthy_get_prop u "completion_tokens" Hu) as [? ->].
  destruct (truthy_get_prop u "prompt_tokens" Hu) as [? ->].
  destruct (truthy_get_prop u "total_tokens" Hu) as [? ->].
  simpl. eauto.
Qed.

(** X23.  The body of a completion is decoded exactly when it is in
    shape, with [message] in the place of [delta]; the field [usage]
    never makes the decoding fail. *)
Theorem completion_decodes_iff_shaped (data : JSON) :
  is_Some (handleResponse data) <-> payload_shaped "message" data = true.
Proof.
  unfold handleResponse.
  destruct (null_or_not data) as [->|Hd].
  { now apply is_Some_None_false. }
  destruct (choices_read build_message_choice "message" data Hd
              build_message_choice_is_Some) as (cs & -> & <-).
  cbn [mbind option_bind].
  destruct (iterate (or_value cs (JArr []))) as [items|];
    cbn [mbind option_bind]; [|split; intros [? H]; discriminate H].
  apply bind_is_Some. intros choices.
  destruct (usage_read data Hd) as (u & E1 & [usage E2]).
  rewrite E1. cbn [mbind option_bind]. rewrite E2. cbn [mbind option_bind].
  read_prop data "id" Hd.
  read_prop data "created" Hd.
  read_prop data "model" Hd.
  read_prop data "system_fingerprint" Hd.
  eauto.
Qed.

(** ** A payload on a line of the stream *)

Section FramerShapes.

Variable JSON_parse : string -> JSON + string.
Variable TypeError_text : string.

#[local] Abbreviation run_of_line := (line_run JSON_parse TypeError_text).

(** X24.  A [data: ] line whose payload is parsed gives one chunk, with
    as many choices as the payload has when its [choices] are an array,
    if the payload is in shape; if it is not, the line ends the stream
    with a plain [HAIError] that bears the text of the [TypeError]. *)
Theorem parsed_line_outcome (line : string) (data : JSON) :
  startsWith line "data: " = true ->
  trim line <> "data: [DONE]" ->
  JSON_parse (slice 6 line) = inl data ->
  if payload_shaped "delta" data then
    exists chunk,
      run_of_line line = ([chunk], Next)
      /\ forall fields items,
           data = JObj fields ->
           lookup_field "choices" fields = Some (JArr items) ->
           length (w_choices chunk) = length items
  else
    run_of_line line
    = ([], Throw (new_HAIError ("Error parsing stream: " +:+ TypeError_text)
                               None None)).
Proof.
  intros Hdata Hdone Hparse.
  unfold line_run, handle_line.
  apply data_line_not_blank in Hdata as Hblank.
  apply String.eqb_neq in Hblank, Hdone.
  rewrite Hblank, Hdone, Hdata, Hparse.
  destruct (payload_shaped "delta" data) eqn:Hshape.
  - destruct (proj2 (build_chunk_is_Some data) Hshape) as [chunk Hchunk].
    rewrite Hchunk. exists chunk. split; [reflexivity|].
    intros fields items -> Hitems.
    unfold build_chunk in Hchunk. simpl in Hchunk. rewrite Hitems in Hchunk.
    unfold or_value in Hchunk. simpl in Hchunk.
    destruct (mapM build_choice items) as [choices|] eqn:Hm;
      simpl in Hchunk; [|discriminate Hchunk].
    injection Hchunk as <-. simpl. symmetry. eapply length_mapM, Hm.
  - destruct (build_chunk data) as [chunk|] eqn:Hchunk; [|reflexivity].
    assert (Hsome : is_Some (build_chunk data)) by eauto.
    apply build_chunk_is_Some in Hsome. congruence.
Qed.

End FramerShapes.

Lemma parsed_line_outcome_witness :
  exists chunk, line_run example_parse "TypeError" "data: {}" = ([chunk], Next).
Proof.
  pose proof (parsed_line_outcome example_parse "TypeError" "data: {}" (JObj []))
    as H.
  destruct H as (chunk & H & _); [reflexivity | discriminate | reflexivity |].
  exists chunk. exact H.
Defined.

(** ** The constructor of [BaseClient] *)

Lemma or_string_truthy (o : option string) (d : string) :
  truthy (or_string o d) = truthy_opt o || truthy d.
Proof.
  unfold or_string. destruct o as [s|]; simpl; [|reflexivity].
  destruct s; reflexivity.
Qed.

(** X25.  The constructor throws [NoAPIKeyError] exactly when neither
    the options nor the environment hold a key that is not empty,
    whatever the other options are; and a client it returns has a key
    that is not empty and a timeout that is not zero. *)
Theorem client_needs_a_key (env_key : option string)
    (module_fetch : option Fetch) (options : HAIClientOptions) :
  (new_BaseClient env_key module_fetch options = inl (ThrownHAI new_NoAPIKeyError)
   <-> truthy_opt (o_apiKey options) = false /\ truthy_opt env_key = false)
  /\ forall c, new_BaseClient env_key module_fetch options = inr c ->
       truthy (apiKey c) = true /\ timeout c <> 0%Z.
Proof.
  unfold new_BaseClient.
  pose proof (or_string_truthy (o_apiKey options) (or_string env_key EmptyString))
    as Hkey.
  rewrite (or_string_truthy env_key EmptyString) in Hkey.
  cbn [truthy] in Hkey. rewrite orb_false_r in Hkey.
  destruct (truthy (or_string (o_apiKey options) (or_string env_key EmptyString)))
    eqn:Ht; cbn [negb].
  - split.
    + split.
      * destruct (o_fetch options); [discriminate|].
        destruct module_fetch; discriminate.
      * intros [H1 H2]. rewrite H1, H2 in Hkey. discriminate Hkey.
    + intros c Hc.
      destruct (match o_fetch options with
                | Some f => Some f
                | None => module_fetch
                end); [|discriminate Hc].
      injection Hc as <-. cbn [apiKey timeout]. split; [exact Ht|].
      destruct (o_timeout options) as [t|]; [|discriminate].
      destruct (Z.eqb_spec t 0); [discriminate | assumption].
  - split; [|discriminate].
    split; [intros _ | reflexivity].
    symmetry in Hkey. now apply orb_false_iff in Hkey.
Qed.

Lemma client_needs_a_key_witness :
  truthy "key" = true /\ 60000%Z <> 0%Z.
Proof.
  apply (proj2 (client_needs_a_key (Some "key") None
                  (example_options (always (failing (failed_response 500 "down" [])))))
               (example_client (always (failing (failed_response 500 "down" []))))).
  reflexivity.
Defined.

Lemma replace_final_slash_added (u : string) :
  replace_final_slash (u +:+ "/") = u.
Proof.
  induction u as [|c u IH]; [reflexivity|].
  change (String c u +:+ "/") with (String c (u +:+ "/")).
  assert (E : exists d r, u +:+ "/" = String d r)
    by (destruct u; cbn [String.append]; eauto).
  destruct E as (d & r & E). rewrite E in IH |- *.
  change (replace_final_slash (String c (String d r)))
    with (String c (replace_final_slash (String d r))).
  now rewrite IH.
Qed.

Lemma replace_final_slash_none (u : string) :
  (forall v, u <> v +:+ "/") -> replace_final_slash u = u.
Proof.
  induction u as [|c u IH]; intros H; [reflexivity|].
  destruct u as [|d u].
  - cbn [replace_final_slash].
    destruct (Ascii.eqb_spec c "/") as [->|]; [|reflexivity].
    now destruct (H EmptyString).
  - change (replace_final_slash (String c (String d u)))
      with (String c (replace_final_slash (String d u))).
    f_equal. apply IH. intros v E. apply (H (String c v)).
    cbn [String.append]. now rewrite E.
Qed.

Lemma no_final_slash (u : string) :
  replace_final_slash u = u -> forall v, u <> v +:+ "/".
Proof.
  intros H v ->. rewrite replace_final_slash_added in H.
  apply (f_equal String.length) in H. rewrite length_append in H.
  simpl in H. lia.
Qed.

(** X26.  A base URL may be given with or without a slash at its end:
    for a URL that is not empty and ends with no slash, both give the
    same client, or the same error. *)
Theorem trailing_slash_is_optional (env_key : option string)
    (module_fetch : option Fetch) (options : HAIClientOptions) (u : string) :
  u <> EmptyString ->
  (forall v, u <> v +:+ "/") ->
  new_BaseClient env_key module_fetch (with_baseURL options (u +:+ "/"))
  = new_BaseClient env_key module_fetch (with_baseURL options u).
Proof.
  intros Hu Hslash. unfold new_BaseClient, with_baseURL.
  cbn [o_apiKey o_organization o_baseURL o_timeout o_fetch].
  assert (E1 : or_string (Some (u +:+ "/")) "https://api.helpingai.co/v1"
               = u +:+ "/").
  { destruct u; [congruence | reflexivity]. }
  assert (E2 : or_string (Some u) "https://api.helpingai.co/v1" = u).
  { destruct u; [congruence | reflexivity]. }
  rewrite E1, E2, replace_final_slash_added, (replace_final_slash_none u Hslash).
  reflexivity.
Qed.

Lemma trailing_slash_is_optional_witness :
  new_BaseClient (Some "key") None
    (with_baseURL (example_options (always (failing (failed_response 500 "down" []))))
                  ("http://localhost:8080" +:+ "/"))
  = new_BaseClient (Some "key") None
      (with_baseURL (example_options (always (failing (failed_response 500 "down" []))))
                    "http://localhost:8080").
Proof.
  apply trailing_slash_is_optional.
  - discriminate.
  - now apply no_final_slash.
Defined.

(** ** [BaseClient.request] *)

Section RequestFacts.

Variable number_text : Z -> string.
Variable TypeError_message : TypeErrorSite -> string.

#[local] Abbreviation send := (request number_text TypeError_message).



(** X28.  [request] returns only for a response whose [ok] is true: the
    response itself when [stream] is set, and otherwise the value its
    body parses to, which then did parse. *)
Theorem request_returns_only_ok (c : BaseClient) (method path : string)
    (data : option JSON) (options : RequestOptions) (result : RequestResult) :
  send c method path data options = inr result ->
  exists response,
    fetchImpl c (baseURL c +:+ path)
      (request_init c method data (default true (opt_authRequired options)))
    = inr response
    /\ ok response = true
    /\ if default false (opt_stream options)
       then result = Streamed response
       else exists value,
              parsed_body response = inr value /\ result = Parsed value.
Proof.
  unfold request. cbv zeta.
  destruct (fetchImpl c (baseURL c +:+ path)
              (request_init c method data (default true (opt_authRequired options))))
    as [error|response]; [discriminate|].
  intros H. exists response. split; [reflexivity|].
  destruct (ok response); cbn [negb] in H; [|discriminate H].
  split; [reflexivity|].
  destruct (default false (opt_stream options)).
  - now injection H as <-.
  - destruct (parsed_body response) as [error|value]; [discriminate H|].
    injection H as <-. eauto.
Qed.

End RequestFacts.


Lemma request_returns_only_ok_witness :
  exists response,
    ok response = true
    /\ Streamed {| ok := true;
                   failed_view := failed_response 200 "fine" [];
                   parsed_body := inr (JObj []) |} = Streamed response.
Proof.
  destruct (request_returns_only_ok decimal example_messages
              (example_client (always {| ok := true;
                                         failed_view := failed_response 200 "fine" [];
                                         parsed_body := inr (JObj []) |}))
              "POST" "/chat/completions" None
              {| opt_stream := Some true; opt_authRequired := None |}
              (Streamed {| ok := true;
                           failed_view := failed_response 200 "fine" [];
                           parsed_body := inr (JObj []) |}))
    as (response & _ & Hok & Hresult); [reflexivity|].
  exists response. split; [exact Hok | exact Hresult].
Defined.

(** * The two filters on a text cut at its blocks *)

(** ** The white space passes of the completion filter as scans *)

Lemma newlines_pass_run (k : nat) :
  forall (near : nat) (x : string),
    newlines_pass near (repeat_char newline k +:+ x) =
    repeat_char newline (Nat.min k (2 - near)) +:+ newlines_pass (near + k) x.
Proof.
  induction k as [|k IH]; intros near x.
  - now rewrite Nat.add_0_r.
  - cbn [repeat_char].
    change (String newline (repeat_char newline k) +:+ x)
      with (String newline (repeat_char newline k +:+ x)).
    cbn [newlines_pass]. rewrite Ascii.eqb_refl, IH.
    replace (S near + k) with (near + S k) by lia.
    destruct (Nat.ltb_spec near 2) as [Hn | Hn].
    + replace (2 - near) with (S (2 - S near)) by lia. reflexivity.
    + replace (2 - near) with 0 by lia. replace (2 - S near) with 0 by lia.
      now rewrite !Nat.min_0_r.
Qed.

Lemma newlines_pass_text (near : nat) (d : ascii) (x : string) :
  Ascii.eqb d newline = false ->
  newlines_pass near (String d x) = String d (newlines_pass 0 x).
Proof. intros Hd. cbn [newlines_pass]. now rewrite Hd. Qed.

(** [/\n{3,}/g] replaced by two line feeds is the scan. *)
Lemma newlines_scan (fuel : nat) :
  forall s, String.length s <= fuel ->
    replace match_newlines s = newlines_pass 0 s.
Proof.
  induction fuel as [|fuel IH]; intros s Hs.
  - destruct s; [reflexivity | simpl in Hs; lia].
  - destruct (span_char_spec newline s) as [E Hrest].
    destruct (span_char newline s) as [k rest]. cbn [fst snd] in E, Hrest.
    subst s. rewrite newlines_pass_run. cbn [Nat.sub Nat.add].
    destruct Hrest as [-> | (d & r & -> & Hd)].
    + cbn [newlines_pass]. rewrite !append_empty_r. now rewrite newlines_run_end.
    + rewrite newlines_run by exact Hd. rewrite newlines_pass_text by exact Hd.
      rewrite length_append in Hs. simpl in Hs.
      now rewrite IH by lia.
Qed.

Lemma spaces_pass_run (k : nat) :
  forall (spaced : bool) (x : string),
    spaces_pass spaced (repeat_char space (S k) +:+ x) =
    (if spaced then EmptyString else String space EmptyString)
    +:+ spaces_pass true x.
Proof.
  induction k as [|k IH]; intros spaced x.
  - cbn [repeat_char String.append spaces_pass]. rewrite Ascii.eqb_refl.
    now destruct spaced.
  - change (repeat_char space (S (S k)) +:+ x)
      with (String space (repeat_char space (S k) +:+ x)).
    cbn [spaces_pass]. rewrite Ascii.eqb_refl, IH.
    now destruct spaced.
Qed.

Lemma spaces_pass_text (spaced : bool) (d : ascii) (x : string) :
  Ascii.eqb d space = false ->
  spaces_pass spaced (String d x) = String d (spaces_pass false x).
Proof. intros Hd. cbn [spaces_pass]. now rewrite Hd. Qed.

(** [/ {2,}/g] replaced by one space is the scan. *)
Lemma spaces_scan (fuel : nat) :
  forall s, String.length s <= fuel ->
    replace match_spaces s = spaces_pass false s.
Proof.
  induction fuel as [|fuel IH]; intros s Hs.
  - destruct s; [reflexivity | simpl in Hs; lia].
  - destruct (span_char_spec space s) as [E Hrest].
    destruct (span_char space s) as [k rest]. cbn [fst snd] in E, Hrest.
    subst s. rewrite length_append in Hs.
    destruct k as [|k].
    + cbn [repeat_char String.append] in *.
      destruct Hrest as [-> | (d & r & -> & Hd)]; [reflexivity |].
      rewrite spaces_text, spaces_pass_text by exact Hd.
      simpl in Hs. now rewrite IH by lia.
    + rewrite spaces_pass_run.
      destruct Hrest as [-> | (d & r & -> & Hd)].
      * cbn [spaces_pass]. rewrite !append_empty_r. now rewrite spaces_run_end.
      * rewrite spaces_run, spaces_pass_text by exact Hd.
        simpl in Hs. now rewrite IH by lia.
Qed.

(** ** The white space rules of the two filters *)

(** Once the text has begun, on a text with plain spacing the two scans
    of the completion filter emit what the white space rules of the
    streaming filter emit: [run] line feeds in the run of white space so
    far, [near] of them directly before, and after a line feed no space
    stands directly before. *)
Lemma passes_agree (s : string) :
  forall (run near : nat) (spaced : bool),
    (1 <= near -> spaced = false) ->
    plain_spacing_from true run near s = true ->
    spaces_pass spaced (newlines_pass near s) = normalized true run spaced s.
Proof.
  induction s as [|c s IH]; intros run near spaced Hinv Hp; [reflexivity |].
  cbn [plain_spacing_from negb] in Hp. cbn [normalized negb andb].
  destruct (isWhiteSpace c) eqn:Hc; cbn [negb] in Hp.
  - destruct (Ascii.eqb_spec c newline) as [-> | Hn].
    + apply andb_prop in Hp as [Hsame Hp]. apply eqb_prop in Hsame.
      cbn [newlines_pass]. rewrite Ascii.eqb_refl.
      change (S run <=? 2)%nat with (run <? 2)%nat. rewrite <- Hsame.
      destruct (Nat.ltb_spec near 2) as [Hnear | Hnear].
      * rewrite spaces_pass_text by reflexivity. f_equal.
        apply IH; [reflexivity | exact Hp].
      * rewrite (Hinv ltac:(lia)). apply IH; [reflexivity | exact Hp].
    + destruct (Ascii.eqb_spec c space) as [-> | Hs]; [| discriminate Hp].
      rewrite newlines_pass_text by reflexivity. cbn [spaces_pass].
      change (Ascii.eqb space space) with true. cbn iota.
      destruct spaced; cbn [negb]; [| f_equal];
        (apply IH; [intros K; inversion K | exact Hp]).
  - destruct (not_space_not_newline c Hc) as [Hs Hn]. rewrite Hn.
    rewrite newlines_pass_text by exact Hn.
    rewrite spaces_pass_text by exact Hs. f_equal.
    apply IH; [reflexivity | exact Hp].
Qed.

(** Before the text has begun, the white space that the scans let
    through is taken off by the trim, and the streaming filter emits
    none. *)
Lemma passes_agree_lead (s : string) :
  forall (near : nat) (spaced : bool) (newlines : nat) (spaced' : bool),
    plain_spacing_from false 0 0 s = true ->
    trimStart (spaces_pass spaced (newlines_pass near s)) =
    normalized false newlines spaced' s.
Proof.
  induction s as [|c s IH]; intros near spaced newlines spaced' Hp; [reflexivity |].
  cbn [plain_spacing_from negb] in Hp. cbn [normalized negb andb].
  destruct (isWhiteSpace c) eqn:Hc; cbn [negb] in Hp.
  - cbn [newlines_pass].
    destruct (Ascii.eqb_spec c newline) as [-> | Hn].
    + destruct (near <? 2)%nat; [| now apply IH].
      rewrite spaces_pass_text by reflexivity. cbn [trimStart].
      change (isWhiteSpace newline) with true. cbn iota. now apply IH.
    + cbn [spaces_pass].
      destruct (Ascii.eqb c space); [destruct spaced |];
        cbn [trimStart]; rewrite ?Hc; now apply IH.
  - destruct (not_space_not_newline c Hc) as [Hs Hn]. rewrite Hn.
    rewrite newlines_pass_text by exact Hn.
    rewrite spaces_pass_text by exact Hs.
    cbn [trimStart]. rewrite Hc. f_equal.
    apply passes_agree; [reflexivity | exact Hp].
Qed.

Lemma normalized_white (s : string) (newlines : nat) (spaced : bool) :
  all_chars isWhiteSpace s = true -> normalized false newlines spaced s = EmptyString.
Proof.
  induction s as [|c s IH]; [reflexivity |]. cbn [all_chars normalized].
  intros H. apply andb_prop in H as [-> Hs]. cbn [negb andb]. now apply IH.
Qed.

(** What the white space rules emit for a text that ends with a
    character that is no white space ends with that character. *)
Lemma normalized_ends (s : string) :
  s <> EmptyString -> ends_with_text s = true ->
  forall (started : bool) (newlines : nat) (spaced : bool),
    exists d t,
      normalized started newlines spaced s = String d t
      /\ ends_with_text (String d t) = true.
Proof.
  induction s as [|c s IH]; [congruence |]. intros _ He started newlines spaced.
  destruct s as [|c' s'].
  - cbn [ends_with_text] in He. apply negb_true_iff in He.
    rewrite (normalized_word newlines spaced c EmptyString He started).
    eexists _, _. split; [reflexivity |]. cbn [normalized ends_with_text].
    now rewrite He.
  - assert (Hstep : exists pre st n sp,
              normalized started newlines spaced (String c (String c' s')) =
              pre +:+ normalized st n sp (String c' s')).
    { cbn [normalized].
      destruct (negb started && isWhiteSpace c);
        [now exists EmptyString, started, newlines, spaced |].
      destruct (Ascii.eqb c newline).
      { destruct (S newlines <=? 2)%nat;
          [now exists (String c EmptyString), true, (S newlines), false
          | now exists EmptyString, true, (S newlines), false]. }
      destruct (isWhiteSpace c).
      { destruct (negb spaced);
          [now exists (String space EmptyString), true, newlines, true
          | now exists EmptyString, true, newlines, true]. }
      now exists (String c EmptyString), true, 0, false. }
    destruct Hstep as (pre & st & n & sp & ->).
    destruct (IH ltac:(discriminate) He st n sp) as (d & t & -> & Ht).
    destruct pre as [|x pre].
    + eexists _, _. split; [reflexivity | exact Ht].
    + exists x, (pre +:+ String d t). split; [reflexivity |].
      change (String x (pre +:+ String d t)) with (String x pre +:+ String d t).
      now apply ends_with_text_after.
Qed.

(** On a text with plain spacing, the last two passes and the trim of
    the completion filter give what the white space rules of the
    streaming filter give from the start of a stream. *)
Lemma spacing_agrees (text : string) :
  plain_spacing text = true ->
  trim (replace match_spaces (replace match_newlines text)) =
  normalized false 0 false text.
Proof.
  unfold plain_spacing. intros Hp. apply andb_prop in Hp as [Hend Hp].
  rewrite (newlines_scan _ text (Nat.le_refl _)).
  rewrite (spaces_scan _ _ (Nat.le_refl _)).
  unfold trim. rewrite (passes_agree_lead text 0 false 0 false Hp).
  apply trimEnd_kept.
  apply orb_prop in Hend as [Hw | He].
  - now rewrite normalized_white.
  - destruct text as [|c text]; [reflexivity |].
    destruct (normalized_ends (String c text) ltac:(discriminate) He false 0 false)
      as (d & t & -> & Ht).
    exact Ht.
Qed.

(** ** Tags in a text that may hold ['<'] *)

Lemma includes_unfold (s t : string) :
  includes s t =
  startsWith s t || match s with
                    | EmptyString => false
                    | String _ s' => includes s' t
                    end.
Proof. destruct s; reflexivity. Qed.

Lemma includes_app_l (s x t : string) :
  includes (s +:+ x) t = false -> includes s t = false.
Proof.
  intros H. destruct (includes s t) eqn:E; [| reflexivity].
  rewrite <- H. symmetry. clear H.
  induction s as [|c s IH].
  - rewrite includes_unfold in E. rewrite orb_false_r in E.
    destruct t; [| destruct x; discriminate E].
    rewrite includes_unfold, startsWith_empty. reflexivity.
  - rewrite includes_unfold in E.
    change (String c s +:+ x) with (String c (s +:+ x)).
    rewrite includes_unfold.
    change (String c (s +:+ x)) with (String c s +:+ x).
    apply orb_prop in E as [E|E].
    + now rewrite (startsWith_append _ _ x E).
    + rewrite (IH E). apply orb_true_r.
Qed.

Lemma includes_app_r (s x t : string) :
  includes (s +:+ x) t = false -> includes x t = false.
Proof.
  induction s as [|c s IH]; [auto |].
  change (String c s +:+ x) with (String c (s +:+ x)).
  rewrite includes_unfold. intros H. apply orb_false_elim in H as [_ H]. auto.
Qed.

(** A tag begins with ['<'] and holds no other.  A tag that starts in
    [r] ends in [r] when what follows [r] is nothing or begins with
    ['<']. *)
Lemma startsWith_within (t : string) :
  tag_free t = true ->
  forall r y,
    y = EmptyString \/ startsWith y "<" = true ->
    startsWith (r +:+ y) t = true -> startsWith r t = true.
Proof.
  induction t as [|e t IH]; intros Ht r y Hy H; [reflexivity |].
  cbn [tag_free] in Ht. apply andb_prop in Ht as [He Ht].
  apply negb_true_iff in He.
  destruct r as [|d r].
  - exfalso. change (EmptyString +:+ y) with y in H.
    destruct Hy as [-> | Hy]; [discriminate H |].
    destruct y as [|c y]; [discriminate Hy |].
    cbn [startsWith] in H, Hy.
    destruct (Ascii.eqb_spec c "<") as [-> |]; [| discriminate Hy].
    rewrite (eqb_sym "<" e), He in H. discriminate H.
  - change (String d r +:+ y) with (String d (r +:+ y)) in H.
    cbn [startsWith] in H |- *.
    destruct (Ascii.eqb d e); [| discriminate H].
    now apply (IH Ht r y).
Qed.

Lemma tag_within (t : string) (c : ascii) (r y : string) :
  tag_free t = true ->
  y = EmptyString \/ startsWith y "<" = true ->
  startsWith (String c r +:+ y) (String "<" t) = startsWith (String c r) (String "<" t).
Proof.
  intros Ht Hy.
  change (String c r +:+ y) with (String c (r +:+ y)). cbn [startsWith].
  destruct (Ascii.eqb c "<"); [| reflexivity].
  destruct (startsWith r t) eqn:E.
  - now apply startsWith_append.
  - destruct (startsWith (r +:+ y) t) eqn:E'; [| reflexivity].
    apply (startsWith_within t Ht r y Hy) in E'. congruence.
Qed.

(** A text that [t] starts with holds no ['<'] if [t] holds none. *)
Lemma tag_free_prefix (t : string) :
  tag_free t = true -> forall x, startsWith t x = true -> tag_free x = true.
Proof.
  induction t as [|e t IH]; intros Ht x H.
  - destruct x; [reflexivity | discriminate H].
  - destruct x as [|c x]; [reflexivity |].
    cbn [tag_free] in Ht. apply andb_prop in Ht as [He Ht].
    cbn [startsWith] in H.
    destruct (Ascii.eqb_spec e c) as [<- |]; [| discriminate H].
    cbn [tag_free]. rewrite He. now apply IH.
Qed.

(** A pass that removes blocks copies a text in which no open tag of
    its kind stands, and goes on behind it. *)
Lemma block_pass_copies (t close s y : string) :
  tag_free t = true ->
  includes s (String "<" t) = false ->
  y = EmptyString \/ startsWith y "<" = true ->
  replace (match_block (String "<" t) close) (s +:+ y) =
  s +:+ replace (match_block (String "<" t) close) y.
Proof.
  intros Ht Hs Hy. induction s as [|c s IH]; [reflexivity |].
  rewrite includes_unfold in Hs. apply orb_false_elim in Hs as [Hc Hs].
  change (String c s +:+ y) with (String c (s +:+ y)).
  rewrite replace_none.
  - now rewrite IH.
  - apply match_block_consuming. simpl. lia.
  - unfold match_block.
    change (String c (s +:+ y)) with (String c s +:+ y).
    now rewrite (tag_within t c s y Ht Hy), Hc.
Qed.

Lemma after_first_across (t body x : string) :
  tag_free t = true ->
  includes body (String "<" t) = false ->
  after_first (body +:+ String "<" t +:+ x) (String "<" t) = Some x.
Proof.
  intros Ht. induction body as [|c body IH]; intros Hb.
  - change (EmptyString +:+ String "<" t +:+ x) with (String "<" t +:+ x).
    now rewrite after_first_unfold, startsWith_self, slice_self.
  - rewrite includes_unfold in Hb. apply orb_false_elim in Hb as [Hc Hb].
    rewrite after_first_unfold.
    rewrite (tag_within t c body (String "<" t +:+ x) Ht), Hc
      by (right; reflexivity).
    change (String c body +:+ String "<" t +:+ x)
      with (String c (body +:+ String "<" t +:+ x)).
    now apply IH.
Qed.

Lemma close_tag_shape (b : Block) :
  exists t, close_tag b = String "<" t /\ tag_free t = true.
Proof. destruct b; eexists; split; reflexivity. Qed.

Lemma open_tag_shape (b : Block) :
  exists t, open_tag b = String "<" t /\ tag_free t = true.
Proof. destruct b; eexists; split; reflexivity. Qed.

(** The pass for a kind of block removes a block of that kind whose body
    does not hold the close tag. *)
Lemma block_pass_takes (b : Block) (body rest : string) :
  includes body (close_tag b) = false ->
  replace (match_block (open_tag b) (close_tag b))
          (open_tag b +:+ body +:+ close_tag b +:+ rest) =
  replace (match_block (open_tag b) (close_tag b)) rest.
Proof.
  intros Hb.
  assert (E : exists c s, open_tag b +:+ body +:+ close_tag b +:+ rest = String c s)
    by (destruct b; eexists _, _; reflexivity).
  destruct E as (c & s & E). rewrite E.
  rewrite (replace_some _ c s EmptyString rest); [reflexivity | |].
  - apply match_block_consuming. destruct b; simpl; lia.
  - rewrite <- E. unfold match_block.
    rewrite startsWith_self, slice_self.
    destruct (close_tag_shape b) as (t & Et & Ht). rewrite Et in Hb |- *.
    now rewrite (after_first_across t body rest Ht Hb).
Qed.

(** The pass for reasoning blocks copies a structured block whose body
    does not hold the tag that opens a reasoning block. *)
Lemma think_pass_copies_ser (body rest : string) :
  includes body "<think>" = false ->
  replace (match_block "<think>" "</think>") ("<ser>" +:+ body +:+ "</ser>" +:+ rest) =
  "<ser>" +:+ body +:+ "</ser>"
  +:+ replace (match_block "<think>" "</think>") rest.
Proof.
  intros Hb.
  change ("<ser>" +:+ body +:+ "</ser>" +:+ rest)
    with (String "<" ("ser>" +:+ body +:+ "</ser>" +:+ rest)).
  rewrite replace_none;
    [| apply match_block_consuming; simpl; lia | reflexivity].
  rewrite (block_pass_prefix "<think>" "</think>" "ser>" _ eq_refl eq_refl).
  rewrite (block_pass_copies "think>" "</think>" body ("</ser>" +:+ rest) eq_refl Hb)
    by (right; reflexivity).
  change ("</ser>" +:+ rest) with (String "<" ("/ser>" +:+ rest)).
  rewrite replace_none;
    [| apply match_block_consuming; simpl; lia | reflexivity].
  rewrite (block_pass_prefix "<think>" "</think>" "/ser>" rest eq_refl eq_refl).
  reflexivity.
Qed.

Lemma starts_with_open (b : Block) (x : string) :
  startsWith (open_tag b +:+ x) "<" = true.
Proof. destruct b; reflexivity. Qed.

(** The pass on reasoning blocks, on a text cut at its blocks. *)
Lemma think_pass_marked (m : Marked) :
  bodies_fit m = true ->
  includes (visible m) "<think>" = false ->
  replace (match_block "<think>" "</think>") (render m) = without_reasoning m.
Proof.
  induction m as [s | s b body rest IH]; cbn [bodies_fit visible render without_reasoning];
    intros Hb Hv.
  - rewrite <- (append_empty_r s) at 1.
    rewrite (block_pass_copies "think>" "</think>" s EmptyString eq_refl Hv)
      by (left; reflexivity).
    now rewrite replace_empty, append_empty_r.
  - apply andb_prop in Hb as [Hb Hrest]. apply andb_prop in Hb as [Hclose Hthink].
    apply negb_true_iff in Hclose.
    pose proof (includes_app_l _ _ _ Hv) as Hs.
    pose proof (includes_app_r _ _ _ Hv) as Hr.
    rewrite (block_pass_copies "think>" "</think>" s _ eq_refl Hs)
      by (right; apply starts_with_open).
    destruct b; cbn [open_tag close_tag without_reasoning] in *; f_equal.
    + pose proof (block_pass_takes Reasoning body (render rest) Hclose) as E.
      cbn [open_tag close_tag] in E. rewrite E. now apply IH.
    + apply negb_true_iff in Hthink.
      rewrite (think_pass_copies_ser body (render rest) Hthink).
      rewrite (IH Hrest Hr). reflexivity.
Qed.

(** The pass on structured blocks, on what the pass on reasoning blocks
    has left, after a text [a]. *)
Lemma ser_pass_marked (m : Marked) :
  forall a : string,
    bodies_fit m = true ->
    includes (a +:+ visible m) "<ser>" = false ->
    replace (match_block "<ser>" "</ser>") (a +:+ without_reasoning m) =
    a +:+ visible m.
Proof.
  induction m as [s | s b body rest IH]; cbn [bodies_fit visible without_reasoning];
    intros a Hb Hv.
  - rewrite <- (append_empty_r (a +:+ s)) at 1.
    rewrite (block_pass_copies "ser>" "</ser>" (a +:+ s) EmptyString eq_refl Hv)
      by (left; reflexivity).
    now rewrite replace_empty, append_empty_r.
  - apply andb_prop in Hb as [Hb Hrest]. apply andb_prop in Hb as [Hclose _].
    apply negb_true_iff in Hclose.
    rewrite <- append_assoc in Hv.
    destruct b; cbn [close_tag without_reasoning] in *.
    + rewrite <- !append_assoc. now apply IH.
    + rewrite <- (append_assoc a s).
      pose proof (includes_app_l _ _ _ Hv) as Hs.
      pose proof (includes_app_r _ _ _ Hv) as Hr.
      rewrite (block_pass_copies "ser>" "</ser>" (a +:+ s) _ eq_refl Hs)
        by (right; reflexivity).
      pose proof (block_pass_takes Ser body (without_reasoning rest) Hclose) as E.
      cbn [open_tag close_tag] in E. rewrite E.
      rewrite <- (append_assoc a s). f_equal.
      apply (IH EmptyString Hrest Hr).
Qed.

(** The completion filter on a text cut at its blocks: the blocks are
    taken out, and the other passes run on what stood outside them. *)
Lemma completion_filter_marked (m : Marked) :
  bodies_fit m = true ->
  includes (visible m) "<think>" = false ->
  includes (visible m) "<ser>" = false ->
  filterThinkSerBlocks (Some (render m)) =
  Some (trim (replace match_spaces (replace match_newlines
          (replace match_broken_word (visible m))))).
Proof.
  intros Hb Ht Hs. rewrite filterThinkSerBlocks_passes.
  rewrite (think_pass_marked m Hb Ht).
  pose proof (ser_pass_marked m EmptyString Hb Hs) as E.
  change (EmptyString +:+ ?x) with x in E. now rewrite E.
Qed.

(** ** The scan of a text cut at its blocks *)

Lemma ends_with_blank_last (p : string) (c : ascii) :
  ends_with_blank (p +:+ String c EmptyString) = isBlank c.
Proof.
  induction p as [|d p IH]; [reflexivity |].
  change (String d p +:+ String c EmptyString)
    with (String d (p +:+ String c EmptyString)).
  cbn [ends_with_blank]. rewrite IH.
  destruct (p +:+ String c EmptyString) eqn:E; [destruct p; discriminate E |].
  reflexivity.
Qed.

(** Outside a block, where no open tag stands or begins, a character
    goes through the white space rules. *)
Lemma loop_body_plain (v : FilterVars) (c : ascii) (s out : string) :
  outside v -> tagless_at (String c s) = true ->
  exists v' o,
    loop_body v (String c s) out = Continue v' s (out +:+ o)
    /\ outside v'
    /\ (forall s',
          normalized (streamStarted v) (consecutiveNewlines v) (lastCharWasSpace v)
                     (String c s') =
          o +:+ normalized (streamStarted v') (consecutiveNewlines v')
                           (lastCharWasSpace v') s')
    /\ forall p, in_step v p -> in_step v' (p +:+ String c EmptyString).
Proof.
  intros [Hr Hs] Ht. unfold tagless_at in Ht.
  apply andb_prop in Ht as [Ht H4]. apply andb_prop in Ht as [Ht H3].
  apply andb_prop in Ht as [H1 H2].
  apply negb_true_iff in H1, H2, H3, H4.
  unfold loop_body. rewrite Hr, Hs, H1, H2, H3, H4. cbn [orb slice].
  destruct v as [[re se] bf cn lc ss]. cbn in Hr, Hs. subst re se.
  unfold in_step, outside.
  cbn [streamStarted consecutiveNewlines lastCharWasSpace normalized
       set_streamStarted set_consecutiveNewlines set_lastCharWasSpace state
       isReasoning isSer].
  assert (Hall : forall p, all_chars isWhiteSpace (p +:+ String c EmptyString)
                           = all_chars isWhiteSpace p && isWhiteSpace c).
  { intros p. rewrite all_chars_append. cbn [all_chars]. now rewrite andb_true_r. }
  destruct (negb ss && isWhiteSpace c) eqn:E1.
  { apply andb_prop in E1 as [Ess Ews]. apply negb_true_iff in Ess. subst ss.
    eexists _, EmptyString. rewrite append_empty_r.
    split; [reflexivity |]. split; [split; reflexivity |].
    split; [intros s'; reflexivity |].
    intros p [Hp1 Hp2]. cbn. split; auto. }
  destruct (Ascii.eqb c newline) eqn:E2.
  { apply Ascii.eqb_eq in E2. subst c.
    assert (ss = true) by (destruct ss; [reflexivity | discriminate E1]). subst ss.
    destruct (S cn <=? 2)%nat eqn:E3.
    - eexists _, (String newline EmptyString).
      split; [reflexivity |]. split; [split; reflexivity |].
      split; [intros s'; reflexivity |].
      intros p [Hp1 Hp2]. cbn [streamStarted lastCharWasSpace]. split.
      + rewrite Hall. intros H. apply andb_prop in H as [H _].
        apply Hp1 in H. discriminate H.
      + rewrite ends_with_blank_last. discriminate.
    - eexists _, EmptyString. rewrite append_empty_r.
      split; [reflexivity |]. split; [split; reflexivity |].
      split; [intros s'; reflexivity |].
      intros p [Hp1 Hp2]. cbn [streamStarted lastCharWasSpace]. split.
      + rewrite Hall. intros H. apply andb_prop in H as [H _].
        apply Hp1 in H. discriminate H.
      + rewrite ends_with_blank_last. discriminate. }
  destruct (isWhiteSpace c) eqn:E3.
  { assert (ss = true) by (destruct ss; [reflexivity | discriminate E1]). subst ss.
    destruct lc.
    - eexists _, EmptyString. rewrite append_empty_r.
      split; [reflexivity |]. split; [split; reflexivity |].
      split; [intros s'; reflexivity |].
      intros p [Hp1 Hp2]. cbn [streamStarted lastCharWasSpace]. split; [| auto].
      rewrite Hall. intros H. apply andb_prop in H as [H _].
      apply Hp1 in H. discriminate H.
    - eexists _, (String space EmptyString).
      split; [reflexivity |]. split; [split; reflexivity |].
      split; [intros s'; reflexivity |].
      intros p [Hp1 Hp2]. cbn [streamStarted lastCharWasSpace]. split; [| auto].
      rewrite Hall. intros H. apply andb_prop in H as [H _].
      apply Hp1 in H. discriminate H. }
  eexists _, (String c EmptyString).
  split; [reflexivity |]. split; [split; reflexivity |].
  split; [intros s'; reflexivity |].
  intros p [Hp1 Hp2]. cbn [streamStarted lastCharWasSpace]. split.
  - rewrite Hall. intros H. apply andb_prop in H as [_ H]. congruence.
  - rewrite ends_with_blank_last. unfold isBlank. intros H.
    apply andb_prop in H as [H _]. congruence.
Qed.

(** The scan of a text [s] that stands outside the blocks, followed by
    [y]: it emits what the white space rules give for [s] and goes on
    with [y]. *)
Lemma scan_plain (s : string) :
  forall (v : FilterVars) (out y p : string),
    outside v -> tagless s y = true -> in_step v p ->
    exists v' o,
      scan v (s +:+ y) out = scan v' y (out +:+ o)
      /\ outside v'
      /\ (forall t,
            normalized (streamStarted v) (consecutiveNewlines v) (lastCharWasSpace v)
                       (s +:+ t) =
            o +:+ normalized (streamStarted v') (consecutiveNewlines v')
                             (lastCharWasSpace v') t)
      /\ in_step v' (p +:+ s).
Proof.
  induction s as [|c s IH]; intros v out y p Ho Ht Hp.
  - exists v, EmptyString. rewrite !append_empty_r. auto.
  - cbn [tagless] in Ht. apply andb_prop in Ht as [Hc Ht].
    change (String c s +:+ y) with (String c (s +:+ y)) in *.
    destruct (loop_body_plain v c (s +:+ y) out Ho Hc)
      as (v1 & o1 & E & Ho1 & Hn1 & Hp1).
    rewrite scan_step, E.
    destruct (IH v1 (out +:+ o1) y (p +:+ String c EmptyString) Ho1 Ht (Hp1 p Hp))
      as (v' & o2 & E' & Ho' & Hn' & Hp').
    exists v', (o1 +:+ o2). rewrite E', <- !append_assoc.
    split; [reflexivity |]. split; [exact Ho' |]. split.
    + intros t. change (String c s +:+ t) with (String c (s +:+ t)).
      now rewrite Hn1, Hn', append_assoc.
    + rewrite append_assoc in Hp'. exact Hp'.
Qed.

Lemma tag_free_follows (s y : string) :
  startsWith y "<" = true -> tag_free (s +:+ y) = false.
Proof.
  intros Hy. rewrite tag_free_append.
  destruct y as [|c y]; [discriminate Hy |]. cbn [startsWith] in Hy.
  destruct (Ascii.eqb_spec c "<") as [-> |]; [| discriminate Hy].
  cbn [tag_free]. apply andb_false_r.
Qed.

(** No tag begins inside a text that holds no open tag, when a tag
    follows it. *)
Lemma tagless_inner (s y : string) :
  includes s "<think>" = false -> includes s "<ser>" = false ->
  startsWith y "<" = true ->
  tagless s y = true.
Proof.
  intros H1 H2 Hy. induction s as [|c s IH]; [reflexivity |].
  rewrite includes_unfold in H1, H2.
  apply orb_false_elim in H1 as [Hc1 H1]. apply orb_false_elim in H2 as [Hc2 H2].
  cbn [tagless]. rewrite (IH H1 H2), andb_true_r. unfold tagless_at.
  rewrite (tag_within "think>" c s y eq_refl (or_intror Hy)), Hc1.
  rewrite (tag_within "ser>" c s y eq_refl (or_intror Hy)), Hc2.
  change (String c s +:+ y) with (String c (s +:+ y)).
  assert (Hno : forall t, tag_free t = true ->
                  startsWith (String "<" t) (String c (s +:+ y)) = false).
  { intros t Ht. cbn [startsWith]. destruct (Ascii.eqb "<" c); [| reflexivity].
    destruct (startsWith t (s +:+ y)) eqn:E; [| reflexivity].
    apply (tag_free_prefix t Ht) in E. now rewrite tag_free_follows in E. }
  now rewrite (Hno "think>" eq_refl), (Hno "ser>" eq_refl).
Qed.

Lemma tagless_last (s : string) :
  includes s "<think>" = false -> includes s "<ser>" = false ->
  dangling s = false ->
  tagless s EmptyString = true.
Proof.
  intros H1 H2 Hd. induction s as [|c s IH]; [reflexivity |].
  rewrite includes_unfold in H1, H2.
  apply orb_false_elim in H1 as [Hc1 H1]. apply orb_false_elim in H2 as [Hc2 H2].
  cbn [dangling] in Hd. apply orb_false_elim in Hd as [Hd Hd'].
  apply orb_false_elim in Hd as [Hd1 Hd2].
  cbn [tagless]. rewrite (IH H1 H2 Hd'), andb_true_r. unfold tagless_at.
  rewrite append_empty_r. now rewrite Hc1, Hc2, Hd1, Hd2.
Qed.

(** Inside a block, a body that does not hold the close tag and the
    close tag after it are passed over whole. *)
Lemma scan_closed (b : Block) (body : string) :
  forall (v : FilterVars) (rest out : string),
    inside b v -> includes body (close_tag b) = false ->
    scan v (body +:+ close_tag b +:+ rest) out = scan (leave b v) rest out.
Proof.
  induction body as [|c body IH]; intros v rest out Hin Hb.
  - change (EmptyString +:+ close_tag b +:+ rest) with (close_tag b +:+ rest).
    assert (E : exists c s, close_tag b +:+ rest = String c s)
      by (destruct b; eexists _, _; reflexivity).
    destruct E as (c & s & E). rewrite E, scan_step, <- E.
    now rewrite loop_body_close.
  - rewrite includes_unfold in Hb. apply orb_false_elim in Hb as [Hc Hb].
    change (String c body +:+ close_tag b +:+ rest)
      with (String c (body +:+ close_tag b +:+ rest)).
    rewrite scan_step.
    assert (Hfar : startsWith (String c (body +:+ close_tag b +:+ rest)) (close_tag b)
                   = false).
    { destruct (close_tag_shape b) as (t & Et & Ht). rewrite Et in Hc |- *.
      change (String c (body +:+ String "<" t +:+ rest))
        with (String c body +:+ (String "<" t +:+ rest)).
      assert (Hy : startsWith (String "<" t +:+ rest) "<" = true) by reflexivity.
      now rewrite (tag_within t c body _ Ht (or_intror Hy)). }
    assert (Hlong : startsWith (close_tag b) (String c (body +:+ close_tag b +:+ rest))
                    = false).
    { destruct (startsWith (close_tag b) (String c (body +:+ close_tag b +:+ rest)))
        eqn:E; [| reflexivity].
      apply startsWith_length in E. cbn [String.length] in E.
      rewrite !length_append in E. lia. }
    assert (Hstep : loop_body v (String c (body +:+ close_tag b +:+ rest)) out
                    = Continue v (body +:+ close_tag b +:+ rest) out).
    { unfold loop_body. destruct b; cbn [inside close_tag] in *.
      - now rewrite Hin, Hfar, Hlong.
      - destruct Hin as [-> ->]. now rewrite Hfar, Hlong. }
    rewrite Hstep. now apply IH.
Qed.

Lemma normalized_unstarted (q : string) (newlines : nat) (spaced spaced' : bool) :
  normalized false newlines spaced q = normalized false newlines spaced' q.
Proof.
  induction q as [|c q IH]; [reflexivity |].
  cbn [normalized negb andb].
  destruct (isWhiteSpace c) eqn:Hc; [exact IH |].
  destruct (not_space_not_newline c Hc) as [_ ->]. reflexivity.
Qed.

(** After a block [lastCharWasSpace] is set; that changes nothing where
    nothing has been emitted, where it was set before, and where no
    blank follows. *)
Lemma normalized_after_block (started : bool) (newlines : nat) (spaced : bool)
    (q : string) :
  started = false \/ spaced = true \/ starts_with_blank q = false ->
  normalized started newlines true q = normalized started newlines spaced q.
Proof.
  intros [-> | [-> | Hq]]; [apply normalized_unstarted | reflexivity |].
  destruct started; [| apply normalized_unstarted].
  destruct q as [|c q]; [reflexivity |].
  cbn [starts_with_blank] in Hq. unfold isBlank in Hq.
  cbn [normalized negb andb].
  destruct (Ascii.eqb c newline); [reflexivity |].
  rewrite andb_true_r in Hq. now rewrite Hq.
Qed.

Lemma flags_after_block (b : Block) (v : FilterVars) :
  streamStarted (leave b (enter b v)) = streamStarted v
  /\ consecutiveNewlines (leave b (enter b v)) = consecutiveNewlines v
  /\ lastCharWasSpace (leave b (enter b v)) = true.
Proof. destruct b; repeat split. Qed.

Lemma outside_after_block (b : Block) (v : FilterVars) :
  outside v -> outside (leave b (enter b v)).
Proof. intros [Hr Hs]. destruct b; split; cbn; auto. Qed.

(** The scan of a text cut at its blocks, from outside a block: nothing
    is left over, and what is emitted is what the white space rules give
    for the text that stands outside the blocks. *)
Lemma scan_marked (m : Marked) :
  forall (v : FilterVars) (out p : string),
    outside v -> in_step v p ->
    bodies_fit m = true ->
    includes (visible m) "<think>" = false ->
    includes (visible m) "<ser>" = false ->
    dangling (visible m) = false ->
    junctions_fit p m = true ->
    exists v',
      scan v (render m) out =
      (v', EmptyString,
       out +:+ normalized (streamStarted v) (consecutiveNewlines v)
                          (lastCharWasSpace v) (visible m)).
Proof.
  induction m as [s | s b body rest IH];
    cbn [bodies_fit visible render junctions_fit];
    intros v out p Ho Hp Hb H1 H2 Hd Hj.
  - destruct (scan_plain s v out EmptyString p Ho (tagless_last s H1 H2 Hd) Hp)
      as (v' & o & E & _ & Hn & _).
    rewrite append_empty_r in E. rewrite E, scan_empty.
    specialize (Hn EmptyString). rewrite append_empty_r in Hn.
    exists v'. rewrite Hn. cbn [normalized]. now rewrite append_empty_r.
  - apply andb_prop in Hb as [Hb Hrest]. apply andb_prop in Hb as [Hclose _].
    apply negb_true_iff in Hclose.
    apply andb_prop in Hj as [Hj Hjrest].
    pose proof (includes_app_l _ _ _ H1) as H1s.
    pose proof (includes_app_r _ _ _ H1) as H1r.
    pose proof (includes_app_l _ _ _ H2) as H2s.
    pose proof (includes_app_r _ _ _ H2) as H2r.
    assert (Hdr : dangling (visible rest) = false).
    { clear - Hd. induction s as [|c s IHs]; [exact Hd |].
      change (String c s +:+ visible rest) with (String c (s +:+ visible rest)) in Hd.
      cbn [dangling] in Hd. apply orb_false_elim in Hd as [_ Hd]. auto. }
    destruct (scan_plain s v out (open_tag b +:+ body +:+ close_tag b +:+ render rest)
                p Ho (tagless_inner s _ H1s H2s (starts_with_open b _)) Hp)
      as (v1 & o & E & Ho1 & Hn & Hp1).
    rewrite E.
    assert (Eo : exists c x,
              open_tag b +:+ body +:+ close_tag b +:+ render rest = String c x)
      by (destruct b; eexists _, _; reflexivity).
    destruct Eo as (c & x & Eo). rewrite Eo, scan_step, <- Eo.
    destruct Ho1 as [Hr1 Hs1].
    rewrite (loop_body_open b v1 _ _ Hr1 Hs1).
    rewrite (scan_closed b body (enter b v1) (render rest) _
               (inside_enter b v1 Hr1 Hs1) Hclose).
    destruct (flags_after_block b v1) as (F1 & F2 & F3).
    assert (Hp2 : in_step (leave b (enter b v1)) (p +:+ s)).
    { destruct Hp1 as [Hp1a Hp1b]. split.
      - rewrite F1. exact Hp1a.
      - rewrite F3. auto. }
    destruct (IH (leave b (enter b v1)) (out +:+ o) (p +:+ s)
                 (outside_after_block b v1 (conj Hr1 Hs1)) Hp2
                 Hrest H1r H2r Hdr Hjrest) as [v' E'].
    exists v'. rewrite E', Hn, F1, F2, F3, append_assoc. do 2 f_equal.
    f_equal. apply normalized_after_block.
    destruct Hp1 as [Hp1a Hp1b].
    apply orb_prop in Hj as [Hj | Hj]; [apply orb_prop in Hj as [Hj | Hj] |].
    + right; right. now apply negb_true_iff in Hj.
    + left. auto.
    + destruct (Hp1b Hj) as [K | K]; auto.
Qed.

(** The streaming filter on a text cut at its blocks, handed over as one
    fragment. *)
Lemma streamed_marked (i : Z) (m : Marked) :
  bodies_fit m = true ->
  open_tag_free (visible m) = true ->
  junctions_fit EmptyString m = true ->
  stream_text (createFilteredStreamGenerator [text_chunk i (render m)]) =
  normalized false 0 false (visible m).
Proof.
  intros Hb Ho Hj. unfold open_tag_free in Ho.
  apply andb_prop in Ho as [Ho Hd]. apply andb_prop in Ho as [H1 H2].
  apply negb_true_iff in H1, H2, Hd.
  unfold createFilteredStreamGenerator. rewrite filtered_from_text.
  unfold fragments_of. cbn [flat_map text_chunk k_choices map app].
  change (choice_text (text_choice i (render m))) with (render m). cbn [outputs].
  assert (Hi : in_step initialVars EmptyString).
  { split; [reflexivity | discriminate]. }
  destruct (scan_marked m initialVars EmptyString EmptyString
              (conj eq_refl eq_refl) Hi Hb H1 H2 Hd Hj) as [v' E].
  destruct (truthy (render m)) eqn:Ht.
  - rewrite process_fragment_scan.
    change (buffer initialVars +:+ render m) with (render m).
    rewrite E. now rewrite append_empty_r.
  - apply truthy_false in Ht. rewrite Ht in E. rewrite scan_empty in E.
    injection E as _ E. exact E.
Qed.

(** C3, in the form that holds of the code.  Take a text cut at its
    closed blocks, where
    - no body holds the close tag of its block, and no body of a
      structured block holds the tag [<think>];
    - the text that stands outside the blocks holds no open tag, nor the
      beginning of one at its end, has plain spacing, and is left as it
      is by the hyphen rule;
    - a blank that follows a block is preceded by one.
    The text outside the blocks and the bodies may hold ['<'], and white
    space of any kind may stand before the first character that is none.
    On such a text the completion filter returns what the streaming
    filter emits for the text handed over as one fragment. *)
Theorem filters_agree_on_marked_text (i : Z) (m : Marked) :
  bodies_fit m = true ->
  open_tag_free (visible m) = true ->
  plain_spacing (visible m) = true ->
  replace match_broken_word (visible m) = visible m ->
  junctions_fit EmptyString m = true ->
  filterThinkSerBlocks (Some (render m)) =
  Some (stream_text (createFilteredStreamGenerator [text_chunk i (render m)])).
Proof.
  intros Hb Ho Hp Hh Hj.
  rewrite (streamed_marked i m Hb Ho Hj).
  unfold open_tag_free in Ho.
  apply andb_prop in Ho as [Ho _]. apply andb_prop in Ho as [H1 H2].
  apply negb_true_iff in H1, H2.
  rewrite (completion_filter_marked m Hb H1 H2), Hh.
  now rewrite (spacing_agrees _ Hp).
Qed.

(** A tab at the start, a reasoning block that holds [<think>], a
    structured block between two spaces, two line feeds set apart by a
    space, an indent, and a bare ['<']. *)
Lemma filters_agree_on_marked_text_witness :
  let text :=
    String (ascii_of_nat 9)
      ("<think>plan <think> more</think>Answer <ser>joy</ser> here:"
       +:+ eol +:+ " " +:+ eol +:+ "  1 < 2") in
  filterThinkSerBlocks (Some text)
  = Some (stream_text (createFilteredStreamGenerator [text_chunk 0 text])).
Proof.
  apply (filters_agree_on_marked_text 0
           (Blocked (String (ascii_of_nat 9) EmptyString) Reasoning "plan <think> more"
              (Blocked "Answer " Ser "joy"
                 (Plain (" here:" +:+ eol +:+ " " +:+ eol +:+ "  1 < 2")))));
    vm_compute; reflexivity.
Defined.

(** C3 as the specification states it does not hold: on each of these
    texts, none of which holds a hyphen, the two filters differ.  After
    a block the streaming filter drops the space that follows, and the
    completion filter keeps it; the completion filter takes white space
    off the end, keeps a tab, and counts the line feeds that stand
    together, where the streaming filter keeps the white space at the
    end, turns a tab into a space, and counts the line feeds of a run of
    white space; the streaming filter drops what follows an open tag
    that is never closed, and holds back the beginning of a tag at the
    end; the completion filter takes out a reasoning block that begins
    inside a structured block. *)
Lemma filters_differ_without_hyphen :
  Forall (fun text =>
            includes text "-" = false
            /\ filterThinkSerBlocks (Some text) <>
               Some (stream_text
                       (createFilteredStreamGenerator [text_chunk 0 text])))
    ["a<think>x</think> b";
     "a ";
     String "a" (String (ascii_of_nat 9) "b");
     "a" +:+ eol +:+ eol +:+ " " +:+ eol +:+ "b";
     "a<think>b";
     "a<thi";
     "<ser><think></ser>a</think>b"].
Proof. repeat constructor; vm_compute; discriminate. Qed.
